(** * escpos: the SOAP envelope extractor ([util.go]) and the print-job adapter

    The definitions come first.

    - [Module xml] is a model of the part of Go's [encoding/xml] that
      [util.go] calls: the strict [Decoder] (bytes to tokens), the element
      stack of [Decoder.Token], and what [Unmarshal] reads of an element.
      The Unicode tables behind [isName] and behind the rune check of
      [Decoder.text] are a parameter ([xml.Tables]); on ASCII input they
      are not consulted.  An error of the package is kept by its kind,
      without its text and line number.
    - The types and functions of [util.go]: [Node], [Name], [Attributes],
      [Envelope], [Body] and [getBodyChildren], with [xml.Unmarshal] at the
      three struct types it is called at.
    - [Module Job]: the print-job adapter and the character-size encoder.
      Their source is not among the files of the package that are
      verified here; they follow the specification.
    - [Module Mock]: the [MockWriter] of the server tests, with its four
      methods.
    - [SpecElement] and [specElements]: the elements of a document as the
      specification describes them, against which the nodes of
      [getBodyChildren] are compared.

    Then come the properties: of the reader ([Module Scan]), of the token
    stream ([Module Stream]), of the element stack ([Module Tree]), of the
    extractor and of what it reads of the input, and the claims C1 to C4
    and C6 to C10.  They are followed by further properties of
    [Attributes], of [getBodyChildren] and of the mock, X1 to X14.

    Go's [[]byte] is [list ascii] here and Go's [string] is [string]; the
    conversions [string(b)] and [[]byte(s)] of the source are
    [string_of_list_ascii] and [list_ascii_of_string]. *)

From Stdlib Require Import List Ascii String NArith ZArith Lia Bool.
From stdpp Require Import gmap strings list.
#[local] Set Warnings "-register-all".
#[local] Set Warnings "-notation-for-abbreviation".
Import ListNotations.

Local Open Scope string_scope.
Local Open Scope list_scope.
Local Open Scope N_scope.

(** ** Bytes *)

Abbreviation bytes := (list ascii).

Definition code (c : ascii) : N := N_of_ascii c.

Definition between (lo hi : N) (c : ascii) : bool :=
  (lo <=? code c) && (code c <=? hi).

Definition byte_of (n : N) : ascii := ascii_of_N n.

Definition NUL : ascii := byte_of 0.
Definition DQUOTE : ascii := byte_of 34.
Definition SQUOTE : ascii := byte_of 39.

Definition isASCII (c : ascii) : bool := code c <? 128.

Definition B (s : string) : bytes := list_ascii_of_string s.

Module xml.

(** ** Errors of [encoding/xml]

    An [Error] is the kind of an error of the package, not the error value:
    the message and the line number of a [*xml.SyntaxError] and the element
    names in the text of an [xml.UnmarshalError] are not kept.  Two syntax
    errors that Go reports on different lines, or for different reasons,
    are both [SyntaxError] here; nothing below concludes from the equality
    of two such errors that Go's error values are equal.

    [errFuel] is not a Go error: it is what a loop of the model answers when
    its iteration budget is used up.  [rawToken_fuel], [decode_fuel] and
    [getBodyChildren_fuel] show that it is never produced. *)
Inductive Error : Type :=
| SyntaxError          (* some *xml.SyntaxError *)
| UnmarshalError       (* xml.UnmarshalError: expected element type <X> but have <Y> *)
| io_EOF               (* io.EOF: no start element in the input *)
| UnsupportedVersion   (* xml: unsupported version; only version 1.0 is supported *)
| UnsupportedEncoding  (* xml: encoding declared but Decoder.CharsetReader is nil *)
| errUnmarshalDepth    (* errUnmarshalDepth: exceeded max depth *)
| errFuel.

Inductive result (A : Type) : Type :=
| Ok (a : A)
| Err (e : Error).
Arguments Ok {A} a.
Arguments Err {A} e.

(** ** The decoder's reader

    A scanner reads a prefix of the input and hands back the rest.
    [d.getc()] followed by [d.ungetc(b)] is [peekc]; [d.mustgetc()] turns the
    end of the input into a syntax error. *)
Definition scanner (A : Type) : Type := bytes -> result (A * bytes).

Definition ret {A} (x : A) : scanner A := fun s => Ok (x, s).

Definition fail {A} (e : Error) : scanner A := fun _ => Err e.

Definition bind {A C} (f : scanner A) (k : A -> scanner C) : scanner C :=
  fun s => match f s with
           | Ok (x, r) => k x r
           | Err e => Err e
           end.

Notation "x <~ f ;; k" := (bind f (fun x => k))
  (at level 62, f at next level, right associativity).
Notation "f ;;; k" := (bind f (fun _ => k))
  (at level 62, right associativity).

Definition peekc : scanner (option ascii) := fun s => Ok (head s, s).

Definition mustgetc : scanner ascii :=
  fun s => match s with
           | [] => Err SyntaxError
           | b :: r => Ok (b, r)
           end.

(** A [for { ... }] loop of the decoder: [body] either continues with a new
    loop state or breaks with the loop's value. *)
Fixpoint loop {S A} (body : S -> scanner (S + A)) (fuel : nat) (st : S)
    (s : bytes) : result (A * bytes) :=
  match fuel with
  | O => Err errFuel
  | Datatypes.S fuel' =>
      match body st s with
      | Ok (inl st', r) => loop body fuel' st' r
      | Ok (inr a, r) => Ok (a, r)
      | Err e => Err e
      end
  end.

Definition iterate {S A} (body : S -> scanner (S + A)) (st : S) : scanner A :=
  fun s => loop body (Datatypes.S (length s)) st s.

(** ** Names, attributes and tokens ([xml.Name], [xml.Attr], [xml.Token]) *)

Record Name : Type := mkName { Space : string; Local : string }.

Record Attr : Type := mkAttr { attr_Name : Name; attr_Value : string }.

(** [StartElement] carries the decoder's [empty] flag: a tag written
    [<a/>], for which [Token] answers a start and then an end element.
    The payloads of comments and directives are never used by [Unmarshal]
    and are dropped. *)
Inductive Token : Type :=
| StartElement (name : Name) (attr : list Attr) (empty : bool)
| EndElement (name : Name)
| CharData (data : bytes)
| Comment
| ProcInst (target : string) (inst : bytes)
| Directive.

(** The part of the Unicode tables that [util.go] does not fix: what
    [isName] answers on a name that holds a byte above 0x7F, and what the
    rune check that ends [Decoder.text] answers on such data.  On ASCII
    input both are given below. *)
Record Tables : Type := mkTables {
  nameRunes : bytes -> bool;
  textRunes : bytes -> bool
}.

Definition isSpace (c : ascii) : bool :=
  (c =? " ")%char || (code c =? 13) || (code c =? 10) || (code c =? 9).

Definition isNameByte (c : ascii) : bool :=
  between 65 90 c || between 97 122 c || between 48 57 c ||
  (c =? "_")%char || (c =? ":")%char || (c =? ".")%char || (c =? "-")%char.

(** The ASCII rows of the tables [first] and [second] of [isName]. *)
Definition asciiFirst (c : ascii) : bool :=
  (c =? ":")%char || between 65 90 c || (c =? "_")%char || between 97 122 c.

Definition asciiSecond (c : ascii) : bool :=
  (c =? "-")%char || (c =? ".")%char || between 48 57 c.

(** [isInCharacterRange] on an ASCII byte. *)
Definition asciiCharOK (c : ascii) : bool :=
  (code c =? 9) || (code c =? 10) || (code c =? 13) || (32 <=? code c).

Definition isName (U : Tables) (name : bytes) : bool :=
  match name with
  | [] => false
  | c :: r =>
      if forallb isASCII name
      then asciiFirst c && forallb (fun x => asciiFirst x || asciiSecond x) r
      else nameRunes U name
  end.

Definition validText (U : Tables) (data : bytes) : bool :=
  if forallb isASCII data then forallb asciiCharOK data else textRunes U data.

(** [d.space()] *)
Definition spaceStep (_ : unit) : scanner (unit + unit) :=
  ob <~ peekc ;;
  match ob with
  | Some b => if isSpace b then mustgetc ;;; ret (inl tt) else ret (inr tt)
  | None => ret (inr tt)
  end.

Definition space : scanner unit := iterate spaceStep tt.

(** [d.readName()]: [None] is the answer [false] without an error. *)
Definition notNameByte (b : ascii) : bool := isASCII b && negb (isNameByte b).

Definition nameStep (acc : bytes) : scanner (bytes + bytes) :=
  ob <~ peekc ;;
  match ob with
  | None => fail SyntaxError
  | Some b =>
      if notNameByte b then ret (inr acc)
      else mustgetc ;;; ret (inl (acc ++ [b]))
  end.

Definition readName : scanner (option bytes) :=
  ob <~ peekc ;;
  match ob with
  | None => fail SyntaxError
  | Some b =>
      if notNameByte b then ret None
      else mustgetc ;;; n <~ iterate nameStep [b] ;; ret (Some n)
  end.

(** [d.name()] *)
Definition name (U : Tables) : scanner (option bytes) :=
  on <~ readName ;;
  match on with
  | None => ret None
  | Some n => if isName U n then ret (Some n) else fail SyntaxError
  end.

Definition colons (n : bytes) : nat :=
  length (filter (fun c => (c =? ":")%char = true) n).

(** [strings.Cut(s, ":")] *)
Fixpoint cut (n : bytes) : option (bytes * bytes) :=
  match n with
  | [] => None
  | c :: r =>
      if (c =? ":")%char then Some ([], r)
      else match cut r with
           | Some (a, b) => Some (c :: a, b)
           | None => None
           end
  end.

Definition splitName (n : bytes) : Name :=
  match cut n with
  | Some (a :: sp, b :: lo) =>
      mkName (string_of_list_ascii (a :: sp)) (string_of_list_ascii (b :: lo))
  | _ => mkName "" (string_of_list_ascii n)
  end.

(** [d.nsname()] *)
Definition nsname (U : Tables) : scanner (option Name) :=
  on <~ name U ;;
  match on with
  | None => ret None
  | Some n => if (1 <? colons n)%nat then ret None else ret (Some (splitName n))
  end.

(** ** Character and entity references (the [&] branch of [d.text]) *)

(** [string(rune(n))]: the UTF-8 encoding, U+FFFD for a surrogate. *)
Definition runeBytes (n : N) : bytes :=
  if n <? 128 then [byte_of n]
  else if n <? 2048 then
    [byte_of (192 + n / 64); byte_of (128 + n mod 64)]
  else if (55296 <=? n) && (n <=? 57343) then
    [byte_of 239; byte_of 191; byte_of 189]
  else if n <? 65536 then
    [byte_of (224 + n / 4096); byte_of (128 + (n / 64) mod 64);
     byte_of (128 + n mod 64)]
  else
    [byte_of (240 + n / 262144); byte_of (128 + (n / 4096) mod 64);
     byte_of (128 + (n / 64) mod 64); byte_of (128 + n mod 64)].

Definition digitValue (hex : bool) (c : ascii) : option N :=
  if between 48 57 c then Some (code c - 48)
  else if hex && between 97 102 c then Some (code c - 87)
  else if hex && between 65 70 c then Some (code c - 55)
  else None.

(** [strconv.ParseUint(s, base, 64)] on a string of digits of that base;
    an overflow is above [unicode.MaxRune] and is refused by the caller
    like any other value above it. *)
Definition parseUint (hex : bool) (ds : bytes) : option N :=
  match ds with
  | [] => None
  | _ => Some (fold_left
                 (fun acc c => acc * (if hex then 16 else 10) +
                               default 0 (digitValue hex c)) ds 0)
  end.

Definition MaxRune : N := 1114111.

Definition digitStep (hex : bool) (acc : bytes) : scanner (bytes + bytes) :=
  ob <~ peekc ;;
  match ob with
  | None => fail SyntaxError
  | Some b =>
      match digitValue hex b with
      | Some _ => mustgetc ;;; ret (inl (acc ++ [b]))
      | None => ret (inr acc)
      end
  end.

(** After [&#]. *)
Definition charRef : scanner bytes :=
  ob <~ peekc ;;
  match ob with
  | None => fail SyntaxError
  | Some b =>
      let hex := (b =? "x")%char in
      (if hex then mustgetc ;;; ret tt else ret tt) ;;;
      ds <~ iterate (digitStep hex) [] ;;
      c <~ mustgetc ;;
      if (c =? ";")%char then
        match parseUint hex ds with
        | Some n => if n <=? MaxRune then ret (runeBytes n) else fail SyntaxError
        | None => fail SyntaxError
        end
      else fail SyntaxError
  end.

(** The map [entity] of the package; [d.Entity] is nil. *)
Definition entity (nm : bytes) : option bytes :=
  let s := string_of_list_ascii nm in
  if String.eqb s "lt" then Some (B "<")
  else if String.eqb s "gt" then Some (B ">")
  else if String.eqb s "amp" then Some (B "&")
  else if String.eqb s "apos" then Some [SQUOTE]
  else if String.eqb s "quot" then Some [DQUOTE]
  else None.

(** After [&], when the next byte is not [#]. *)
Definition namedRef (U : Tables) : scanner bytes :=
  on <~ readName ;;
  c <~ mustgetc ;;
  if (c =? ";")%char then
    let nm := default [] on in
    if isName U nm then
      match entity nm with
      | Some t => ret t
      | None => fail SyntaxError
      end
    else fail SyntaxError
  else fail SyntaxError.

Definition reference (U : Tables) : scanner bytes :=
  ob <~ peekc ;;
  match ob with
  | None => fail SyntaxError
  | Some b => if (b =? "#")%char then mustgetc ;;; charRef else namedRef U
  end.

(** ** [d.text(quote, cdata)] *)

Definition isQuote (quote : option ascii) (b : ascii) : bool :=
  match quote with
  | Some q => (b =? q)%char
  | None => false
  end.

(** The last lines of the loop: [\r] and [\r\n] become [\n]. *)
Definition writeByte (b1 b : ascii) (buf : bytes) : bytes :=
  if code b =? 13 then buf ++ [byte_of 10]
  else if (code b1 =? 13) && (code b =? 10) then buf
  else buf ++ [b].

(** [quote < 0]: the text is not a quoted value. *)
Definition unquoted (quote : option ascii) : bool :=
  match quote with
  | Some _ => false
  | None => true
  end.

(** One round of the loop.  The two brackets and the [>] that end a CDATA
    section are an error in ordinary text; in a quoted value they are
    allowed. *)
Definition textStep (U : Tables) (quote : option ascii) (cdata : bool)
    (st : ascii * ascii * bytes) : scanner (ascii * ascii * bytes + bytes) :=
  let '(b0, b1, buf) := st in
  ob <~ peekc ;;
  match ob with
  | None => if cdata then fail SyntaxError else ret (inr buf)
  | Some b =>
      if unquoted quote && (b0 =? "]")%char && (b1 =? "]")%char &&
         (b =? ">")%char then
        if cdata then mustgetc ;;; ret (inr (take (length buf - 2) buf))
        else fail SyntaxError
      else if (b =? "<")%char && negb cdata then
        match quote with
        | Some _ => fail SyntaxError
        | None => ret (inr buf)
        end
      else
        mustgetc ;;;
        if isQuote quote b then ret (inr buf)
        else if (b =? "&")%char && negb cdata then
          t <~ reference U ;; ret (inl (NUL, NUL, buf ++ t))
        else ret (inl (b1, b, writeByte b1 b buf))
  end.

Definition text (U : Tables) (quote : option ascii) (cdata : bool)
    : scanner bytes :=
  data <~ iterate (textStep U quote cdata) (NUL, NUL, []) ;;
  if validText U data then ret data else fail SyntaxError.

(** [d.attrval()], strict. *)
Definition attrval (U : Tables) : scanner bytes :=
  b <~ mustgetc ;;
  if (b =? DQUOTE)%char || (b =? SQUOTE)%char then text U (Some b) false
  else fail SyntaxError.

(** ** Tags *)

Definition attrStep (U : Tables) (acc : list Attr)
    : scanner (list Attr + list Attr * bool) :=
  space ;;;
  ob <~ peekc ;;
  match ob with
  | None => fail SyntaxError
  | Some b =>
      if (b =? "/")%char then
        mustgetc ;;; c <~ mustgetc ;;
        if (c =? ">")%char then ret (inr (acc, true)) else fail SyntaxError
      else if (b =? ">")%char then mustgetc ;;; ret (inr (acc, false))
      else
        on <~ nsname U ;;
        match on with
        | None => fail SyntaxError
        | Some n =>
            space ;;;
            c <~ mustgetc ;;
            if (c =? "=")%char then
              space ;;;
              v <~ attrval U ;;
              ret (inl (acc ++ [mkAttr n (string_of_list_ascii v)]))
            else fail SyntaxError
        end
  end.

(** After [<], an open element like [<a href='foo'>]. *)
Definition startTag (U : Tables) : scanner Token :=
  on <~ nsname U ;;
  match on with
  | None => fail SyntaxError
  | Some n =>
      r <~ iterate (attrStep U) [] ;;
      ret (StartElement n (fst r) (snd r))
  end.

(** After [</]. *)
Definition endTag (U : Tables) : scanner Token :=
  on <~ nsname U ;;
  match on with
  | None => fail SyntaxError
  | Some n =>
      space ;;;
      b <~ mustgetc ;;
      if (b =? ">")%char then ret (EndElement n) else fail SyntaxError
  end.

(** ** Processing instructions *)

Fixpoint isPrefix (p s : bytes) : bool :=
  match p, s with
  | [], _ => true
  | a :: p', b :: s' => (a =? b)%char && isPrefix p' s'
  | _ :: _, [] => false
  end.

(** [s[:strings.IndexByte(s, sep)]], empty when [sep] does not occur. *)
Fixpoint upTo (sep : ascii) (s : bytes) : option bytes :=
  match s with
  | [] => None
  | c :: r => if (c =? sep)%char then Some [] else cons c <$> upTo sep r
  end.

(** [procInst(param, s)]; [p] is [param + "="].  The search of the source
    resumes after the byte that follows a match not followed by a quote:
    [skip] counts the bytes still to pass over. *)
Fixpoint procInstFrom (p : bytes) (skip : nat) (s : bytes) : bytes :=
  match s with
  | [] => []
  | _ :: r =>
      match skip with
      | Datatypes.S k => procInstFrom p k r
      | O =>
          if isPrefix p s then
            match drop (length p) s with
            | [] => []
            | c :: v =>
                if (c =? SQUOTE)%char || (c =? DQUOTE)%char
                then default [] (upTo c v)
                else procInstFrom p (length p) r
            end
          else procInstFrom p O r
      end
  end.

Definition procInst (param : string) (s : bytes) : bytes :=
  procInstFrom (B param ++ B "=") O s.

Definition lower (c : ascii) : ascii :=
  if between 65 90 c then byte_of (code c + 32) else c.

(** [strings.EqualFold(enc, "utf-8")] *)
Definition isUTF8 (enc : bytes) : bool :=
  String.eqb (string_of_list_ascii (map lower enc)) "utf-8".

Definition nonEmpty (s : bytes) : bool :=
  match s with [] => false | _ => true end.

(** The checks on [<?xml ...?>]. *)
Definition checkDecl (content : bytes) : option Error :=
  let ver := procInst "version" content in
  if nonEmpty ver && negb (String.eqb (string_of_list_ascii ver) "1.0")
  then Some UnsupportedVersion
  else
    let enc := procInst "encoding" content in
    if nonEmpty enc && negb (isUTF8 enc) then Some UnsupportedEncoding
    else None.

Definition piStep (st : ascii * bytes) : scanner (ascii * bytes + bytes) :=
  let '(b0, buf) := st in
  b <~ mustgetc ;;
  if (b0 =? "?")%char && (b =? ">")%char
  then ret (inr (take (length buf - 1) buf))
  else ret (inl (b, buf ++ [b])).

(** After [<?]. *)
Definition procInstTag (U : Tables) : scanner Token :=
  on <~ name U ;;
  match on with
  | None => fail SyntaxError
  | Some target =>
      space ;;;
      data <~ iterate piStep (NUL, []) ;;
      let t := string_of_list_ascii target in
      match (if String.eqb t "xml" then checkDecl data else None) with
      | Some e => fail e
      | None => ret (ProcInst t data)
      end
  end.

(** ** Comments, CDATA sections and directives *)

Definition commentStep (st : ascii * ascii) : scanner (ascii * ascii + unit) :=
  let '(b0, b1) := st in
  b <~ mustgetc ;;
  if (b0 =? "-")%char && (b1 =? "-")%char then
    if (b =? ">")%char then ret (inr tt) else fail SyntaxError
  else ret (inl (b1, b)).

Fixpoint expect (lit : bytes) : scanner unit :=
  match lit with
  | [] => ret tt
  | c :: lit' =>
      b <~ mustgetc ;;
      if (b =? c)%char then expect lit' else fail SyntaxError
  end.

(** A comment inside a directive ends at the first [-->]. *)
Definition dirCommentStep (st : ascii * ascii)
    : scanner (ascii * ascii + unit) :=
  let '(b0, b1) := st in
  b <~ mustgetc ;;
  if (b0 =? "-")%char && (b1 =? "-")%char && (b =? ">")%char
  then ret (inr tt)
  else ret (inl (b1, b)).

(** The loop state of a directive: the open quote ([NUL] for none), the
    nesting depth of angle brackets, and whether a [<] has just been read
    outside quotes, so that the next bytes are matched against [!--]. *)
Definition DirState : Type := ascii * nat * bool.

(** The label [HandleB] of the source. *)
Definition handleB (inquote : ascii) (depth : nat) (b : ascii) : DirState :=
  if (b =? inquote)%char then (NUL, depth, false)
  else if negb (inquote =? NUL)%char then (inquote, depth, false)
  else if (b =? SQUOTE)%char || (b =? DQUOTE)%char then (b, depth, false)
  else if (b =? ">")%char then (NUL, Nat.pred depth, false)
  else if (b =? "<")%char then (NUL, depth, true)
  else (NUL, depth, false).

Definition dirStep (st : DirState) : scanner (DirState + unit) :=
  let '(inquote, depth, afterLt) := st in
  if afterLt then
    b1 <~ mustgetc ;;
    if negb (b1 =? "!")%char then ret (inl (handleB NUL (Datatypes.S depth) b1))
    else
      b2 <~ mustgetc ;;
      if negb (b2 =? "-")%char then ret (inl (handleB NUL (Datatypes.S depth) b2))
      else
        b3 <~ mustgetc ;;
        if negb (b3 =? "-")%char
        then ret (inl (handleB NUL (Datatypes.S depth) b3))
        else iterate dirCommentStep (NUL, NUL) ;;; ret (inl (NUL, depth, false))
  else
    b <~ mustgetc ;;
    if (inquote =? NUL)%char && (b =? ">")%char && Nat.eqb depth 0
    then ret (inr tt)
    else ret (inl (handleB inquote depth b)).

(** After [<!]. *)
Definition bangTag (U : Tables) : scanner Token :=
  b <~ mustgetc ;;
  if (b =? "-")%char then
    c <~ mustgetc ;;
    if (c =? "-")%char
    then iterate commentStep (NUL, NUL) ;;; ret Comment
    else fail SyntaxError
  else if (b =? "[")%char then
    expect (B "CDATA[") ;;;
    data <~ text U None true ;;
    ret (CharData data)
  else iterate dirStep (NUL, O, false) ;;; ret Directive.

(** ** [d.rawToken()] *)
Definition rawToken (U : Tables) : scanner Token :=
  ob <~ peekc ;;
  match ob with
  | None => fail io_EOF
  | Some b =>
      if negb (b =? "<")%char then
        data <~ text U None false ;; ret (CharData data)
      else
        mustgetc ;;;
        oc <~ peekc ;;
        match oc with
        | None => fail SyntaxError
        | Some c =>
            if (c =? "/")%char then mustgetc ;;; endTag U
            else if (c =? "?")%char then mustgetc ;;; procInstTag U
            else if (c =? "!")%char then mustgetc ;;; bangTag U
            else startTag U
        end
  end.

(** The tokens of the input, each with the bytes it was read from, up to
    the error (or [io.EOF]) that ends them. *)
Fixpoint rawTokens (U : Tables) (fuel : nat) (s : bytes)
    : list (Token * bytes) * Error :=
  match fuel with
  | O => ([], errFuel)
  | Datatypes.S fuel' =>
      match rawToken U s with
      | Err e => ([], e)
      | Ok (t, r) =>
          let rest := rawTokens U fuel' r in
          ((t, take (length s - length r) s) :: fst rest, snd rest)
      end
  end.

Definition tokens (U : Tables) (s : bytes) : list (Token * bytes) * Error :=
  rawTokens U (Datatypes.S (length s)) s.

(** The tokens that are neither tags nor character data. *)
Inductive Other : Type :=
| OComment
| OProcInst (target : string) (inst : bytes)
| ODirective.

Definition tokenOf (o : Other) : Token :=
  match o with
  | OComment => Comment
  | OProcInst t i => ProcInst t i
  | ODirective => Directive
  end.

(** ** [d.Token()]: the element stack

    [Unmarshal] reads the tokens of one element, from its start tag to the
    matching end tag.  What it has read is kept as a tree of items, each
    with the bytes it was read from ([d.saved], from which an [innerxml]
    field is filled). *)
Inductive Item : Type :=
| Elem (name : Name) (attr : list Attr) (open : bytes) (kids : list Item)
       (close : bytes)
| Leaf (name : Name) (attr : list Attr) (raw : bytes)
| Data (data : bytes) (raw : bytes)
| Misc (tok : Other) (raw : bytes).

(** An open element of [d.stk]: its name and attributes, the bytes of its
    start tag, and its children so far, last first. *)
Definition Frame : Type := Name * list Attr * bytes * list Item.

Definition push (it : Item) (f : Frame) : Frame :=
  let '(n, a, c, ks) := f in (n, a, c, it :: ks).

Definition sameName (a b : Name) : bool :=
  String.eqb (Local a) (Local b) && String.eqb (Space a) (Space b).

(** ** The limit on the nesting of elements

    [d.unmarshal(val, start, depth)] counts its own recursion and answers
    [errUnmarshalDepth] when [depth >= maxUnmarshalDepth]; [Unmarshal]
    calls it at depth 0 for the root element.  (For [GOARCH=wasm] the limit
    is lower; that is not modelled.) *)
Definition maxUnmarshalDepth : N := 10000.

(** What becomes of the elements below the root.  In an [Envelope] no
    field takes them, but for [Body], a struct read at depth 1 that takes
    none of its own: they are passed over by [d.Skip()], a loop that does
    not recur and counts no depth.  In a [Node] and in the wrapper of
    [getBodyChildren] the field tagged [,any] takes them all. *)
Inductive Children : Type :=
| Skipped
| Unmarshalled.

(** Whether [d.unmarshal] refuses an element that lies [level] elements
    below the root.  An element unmarshalled into [Nodes []Node] under a
    parent read at depth [d] costs two calls: [d.unmarshal(saveAny, &t,
    depth+1)] for the slice and, in its case [reflect.Slice],
    [d.unmarshal(v.Index(n), start, depth+1)] for the new [Node].  These
    are the depths [2 * level - 1] and [2 * level]. *)
Definition refused (how : Children) (level : nat) : bool :=
  match how with
  | Skipped => false
  | Unmarshalled =>
      let depth := 2 * N.of_nat level in
      (maxUnmarshalDepth <=? depth - 1) || (maxUnmarshalDepth <=? depth)
  end.

(** Reads tokens until the element [cur], opened below the elements [stk],
    and all of [stk] are closed.  A start tag opens an element below
    [cur], which [d.unmarshal] may refuse for its depth as soon as the tag
    is read.  [d.popElement] refuses an end tag whose name is not that of
    the open element; the end of the input inside an element is a syntax
    error. *)
Fixpoint build (how : Children) (stk : list Frame) (cur : Frame)
    (toks : list (Token * bytes)) (tail : Error)
    : result (Item * list (Token * bytes)) :=
  match toks with
  | [] => Err (match tail with io_EOF => SyntaxError | e => e end)
  | (t, c) :: rest =>
      match t with
      | StartElement n a e =>
          if refused how (Datatypes.S (length stk)) then Err errUnmarshalDepth
          else if e then build how stk (push (Leaf n a c) cur) rest tail
          else build how (cur :: stk) (n, a, c, []) rest tail
      | EndElement n =>
          let '(n0, a0, c0, ks) := cur in
          if sameName n0 n then
            let it := Elem n0 a0 c0 (rev ks) c in
            match stk with
            | [] => Ok (it, rest)
            | p :: stk' => build how stk' (push it p) rest tail
            end
          else Err SyntaxError
      | CharData d => build how stk (push (Data d c) cur) rest tail
      | Comment => build how stk (push (Misc OComment c) cur) rest tail
      | ProcInst tg i => build how stk (push (Misc (OProcInst tg i) c) cur) rest tail
      | Directive => build how stk (push (Misc ODirective c) cur) rest tail
      end
  end.

(** The loop that opens [d.unmarshal] when it is given no start element:
    tokens are read until a start element comes.  An end tag there finds
    the stack empty. *)
Fixpoint findStart (toks : list (Token * bytes)) (tail : Error)
    : result (Name * list Attr * bool * bytes * list (Token * bytes)) :=
  match toks with
  | [] => Err tail
  | (StartElement n a e, c) :: rest => Ok (n, a, e, c, rest)
  | (EndElement _, _) :: _ => Err SyntaxError
  | _ :: rest => findStart rest tail
  end.

(** The root element of the input.  [expected] is the element name a
    struct asks for through the tag of its [XMLName] field; it is checked
    against the start tag before anything else is read.  [how] tells what
    the struct does with the elements below the root. *)
Definition decode (U : Tables) (how : Children) (expected : option string)
    (data : bytes) : result Item :=
  let ts := tokens U data in
  match findStart (fst ts) (snd ts) with
  | Err e => Err e
  | Ok (n, a, e, c, rest) =>
      if match expected with
         | Some x => String.eqb x (Local n)
         | None => true
         end
      then
        if e then Ok (Leaf n a c)
        else match build how [] (n, a, c, []) rest (snd ts) with
             | Ok (it, _) => Ok it
             | Err err => Err err
             end
      else Err UnmarshalError
  end.

(** The bytes an item was read from, and those between the tags of an
    element. *)
Fixpoint raw (it : Item) : bytes :=
  match it with
  | Elem _ _ o kids c => o ++ flat_map raw kids ++ c
  | Leaf _ _ r => r
  | Data _ r => r
  | Misc _ r => r
  end.

Definition innerXML (it : Item) : bytes :=
  match it with
  | Elem _ _ _ kids _ => flat_map raw kids
  | _ => []
  end.

Definition kidsOf (it : Item) : list Item :=
  match it with
  | Elem _ _ _ kids _ => kids
  | _ => []
  end.

Definition charData (it : Item) : bytes :=
  match it with
  | Data d _ => d
  | _ => []
  end.

(** ** Name spaces ([d.ns], [d.translate])

    The bindings in force, innermost first. *)
Definition Env : Type := list (string * string).

Definition declare (attr : list Attr) (env : Env) : Env :=
  fold_left
    (fun env a =>
       let n := attr_Name a in
       if String.eqb (Space n) "xmlns" then (Local n, attr_Value a) :: env
       else if String.eqb (Space n) "" && String.eqb (Local n) "xmlns"
       then ("", attr_Value a) :: env
       else env)
    attr env.

Fixpoint lookupNs (env : Env) (prefix : string) : option string :=
  match env with
  | [] => None
  | (p, v) :: env' => if String.eqb p prefix then Some v else lookupNs env' prefix
  end.

Definition xmlURL : string := "http://www.w3.org/XML/1998/namespace".

Definition translate (env : Env) (isElementName : bool) (n : Name) : Name :=
  if String.eqb (Space n) "xmlns" then n
  else if String.eqb (Space n) "" && negb isElementName then n
  else if String.eqb (Space n) "" && String.eqb (Local n) "xmlns" then n
  else
    let sp := if String.eqb (Space n) "xml" then xmlURL else Space n in
    match lookupNs env sp with
    | Some v => mkName v (Local n)
    | None => mkName sp (Local n)
    end.

Definition translateAttr (env : Env) (a : Attr) : Attr :=
  mkAttr (translate env false (attr_Name a)) (attr_Value a).

End xml.

(** * [util.go] *)

Inductive error : Type :=
| ErrBodyElementEmpty
| xmlError (e : xml.Error).

(** [Node] represents a parsed XML node with name, attributes and content. *)
Inductive Node : Type := mkNode {
  XMLName : xml.Name;
  Attrs : list xml.Attr;
  Content : string;
  Nodes : list Node
}.

(** [Name] returns the local name of the XML node. *)
Definition Name (n : Node) : string := xml.Local (XMLName n).

(** [Attributes] returns the attributes as a map. *)
Definition Attributes (n : Node) : gmap string string :=
  fold_left
    (fun attrs attr => <[xml.Local (xml.attr_Name attr) := xml.attr_Value attr]> attrs)
    (Attrs n) ∅.

Record Body : Type := mkBody {
  Body_XMLName : xml.Name;
  Body_Content : bytes
}.

Record Envelope : Type := mkEnvelope {
  Envelope_XMLName : xml.Name;
  Envelope_Body : Body
}.

Record wrapper : Type := mkWrapper {
  wrapper_XMLName : xml.Name;
  wrapper_Nodes : list Node
}.

(** ** [xml.Unmarshal] at the types of [util.go] *)

(** Into a [Node]: the name of the element, all its attributes
    ([,any,attr]), its character data ([,chardata]) and its child elements
    ([,any]). *)
Fixpoint nodesOf (env : xml.Env) (it : xml.Item) : list Node :=
  match it with
  | xml.Elem n a _ kids _ =>
      let env' := xml.declare a env in
      [mkNode (xml.translate env' true n) (map (xml.translateAttr env') a)
              (string_of_list_ascii (flat_map xml.charData kids))
              (flat_map (nodesOf env') kids)]
  | xml.Leaf n a _ =>
      let env' := xml.declare a env in
      [mkNode (xml.translate env' true n) (map (xml.translateAttr env') a) "" []]
  | _ => []
  end.

Definition zeroNode : Node := mkNode (xml.mkName "" "") [] "" [].

Definition isElement (local : string) (it : xml.Item) : bool :=
  match it with
  | xml.Elem n _ _ _ _ | xml.Leaf n _ _ => String.eqb local (xml.Local n)
  | _ => false
  end.

(** The translated name of an element, for a field [XMLName]. *)
Definition nameOf (env : xml.Env) (it : xml.Item) : xml.Name :=
  match it with
  | xml.Elem n a _ _ _ | xml.Leaf n a _ => xml.translate (xml.declare a env) true n
  | _ => xml.mkName "" ""
  end.

(** The name space bindings in force inside an element that is read with
    the bindings [env] in force. *)
Definition innerEnv (env : xml.Env) (it : xml.Item) : xml.Env :=
  match it with
  | xml.Elem _ a _ _ _ | xml.Leaf _ a _ => xml.declare a env
  | _ => env
  end.

(** Into a [Body]: every [Body] child of the envelope is unmarshalled into
    the one field, so the last one is what stays. *)
Definition bodyOf (env : xml.Env) (b : Body) (it : xml.Item) : Body :=
  if isElement "Body" it then mkBody (nameOf env it) (xml.innerXML it) else b.

Definition unmarshalEnvelope (U : xml.Tables) (data : bytes) : xml.result Envelope :=
  match xml.decode U xml.Skipped (Some "Envelope") data with
  | xml.Err e => xml.Err e
  | xml.Ok it =>
      xml.Ok (mkEnvelope (nameOf [] it)
                (fold_left (bodyOf (innerEnv [] it)) (xml.kidsOf it)
                           (mkBody (xml.mkName "" "") [])))
  end.

Definition unmarshalWrapper (U : xml.Tables) (data : bytes) : xml.result wrapper :=
  match xml.decode U xml.Unmarshalled (Some "root") data with
  | xml.Err e => xml.Err e
  | xml.Ok it =>
      xml.Ok (mkWrapper (nameOf [] it)
                (flat_map (nodesOf (innerEnv [] it)) (xml.kidsOf it)))
  end.

(** The document as a [Node]: what [xml.Unmarshal(data, &node)] gives. *)
Definition unmarshalNode (U : xml.Tables) (data : bytes) : xml.result Node :=
  match xml.decode U xml.Unmarshalled None data with
  | xml.Err e => xml.Err e
  | xml.Ok it => xml.Ok (hd zeroNode (nodesOf [] it))
  end.

(** [getBodyChildren] returns the child nodes contained in the Body element
    in a XML document.  The pair is Go's [([]Node, error)]. *)
Definition getBodyChildren (U : xml.Tables) (data : bytes)
    : list Node * option error :=
  match unmarshalEnvelope U data with
  | xml.Err err => ([], Some (xmlError err))
  | xml.Ok envelope =>
      if Nat.eqb (length (Body_Content (Envelope_Body envelope))) 0
      then ([], Some ErrBodyElementEmpty)
      else
        let bodyContent :=
          "<root>" +:+
          string_of_list_ascii (Body_Content (Envelope_Body envelope)) +:+
          "</root>" in
        match unmarshalWrapper U (list_ascii_of_string bodyContent) with
        | xml.Err err => ([], Some (xmlError err))
        | xml.Ok wrapper =>
            if Nat.eqb (length (wrapper_Nodes wrapper)) 0
            then ([], Some ErrBodyElementEmpty)
            else (wrapper_Nodes wrapper, None)
        end
  end.


(** * The print-job adapter and the character-size encoder *)

Module Job.

(** Modelled from the spec: the element-stage errors of the error
    taxonomy; the encoder and the state machine that raise them are not
    among the source files. *)
Inductive ElementError : Type :=
| UnsupportedElement
| InvalidParameter
| ImageDecodeError
| ImageTooLarge.

(** Modelled from the spec: the character-size encoder of the Command
    Encoder (absent from the source files), "width x height scale, values
    1-8 each, encoded as a single size byte = ((width-1)<<4)|(height-1)";
    "numeric arguments outside the documented device range fail with
    InvalidParameter; encoders never silently clamp". *)
Definition sizeByte (width height : Z) : ElementError + Z :=
  if ((1 <=? width) && (width <=? 8) && (1 <=? height) && (height <=? 8))%Z
  then inr (Z.lor (Z.shiftl (width - 1) 4) (height - 1))
  else inl InvalidParameter.

(** Modelled from the spec: the fonts of the data model, enum{A,B,C}. *)
Inductive Font : Type := FontA | FontB | FontC.

(** Modelled from the spec: the alignments of the data model,
    enum{left,center,right}. *)
Inductive Alignment : Type := AlignLeft | AlignCenter | AlignRight.

(** Modelled from the spec: the printer state of the data model. *)
Record PrinterState : Type := mkState {
  font : Font;
  widthScale : Z;
  heightScale : Z;
  alignment : Alignment;
  emphasize : bool;
  underline : bool;
  reverse : bool;
  smooth : bool
}.

(** Modelled from the spec: "default values correspond to the printer's
    hardware reset state". *)
Definition defaultState : PrinterState :=
  mkState FontA 1 1 AlignLeft false false false false.

(** Modelled from the spec: the byte-exact constant init = ESC @
    (0x1B 0x40). *)
Definition initCmd : bytes := [byte_of 27; byte_of 64].

(** Modelled from the spec: the byte-exact end-of-job marker 0xFA. *)
Definition endMarker : bytes := [byte_of 250].

(** The device connection, as the [MockWriter] of the server tests: the
    write calls it has received, oldest first. *)
Definition Device : Type := list bytes.

(** [MockWriter.Write] *)
Definition write (dev : Device) (p : bytes) : Device := dev ++ [p].

(** [MockWriter.GetWritten] *)
Definition written (dev : Device) : bytes := concat dev.

(** Modelled from the spec: the SOAP response of the adapter, HTTP 200 with
    [success] set, or HTTP 400 with a fault string. *)
Inductive Response : Type :=
| Success (skipped : list (nat * string * ElementError))
| Fault (status : nat) (faultstring : string).

(** Modelled from the spec: the HTTP status of a response. *)
Definition statusCode (r : Response) : nat :=
  match r with
  | Success _ => 200%nat
  | Fault st _ => st
  end.

(** The search of [strings.Contains], which the server tests apply to the
    response. *)
Fixpoint containsBytes (sub s : bytes) : bool :=
  xml.isPrefix sub s ||
  match s with
  | [] => false
  | _ :: r => containsBytes sub r
  end.

(** [strings.Contains(s, sub)] *)
Definition contains (s sub : string) : bool := containsBytes (B sub) (B s).

Section Adapter.

(** The Printer State Machine, [apply(currentState, element)]: the new
    state and the bytes emitted, or an element-stage error.  Its source is
    not among the files and its encodings are fixed by the vendor
    protocol, so it is a parameter of the adapter. *)
Variable apply : PrinterState -> Node -> ElementError + PrinterState * bytes.

(** Modelled from the spec (Job Transaction Adapter): "folds the Printer
    State Machine over the element sequence in document order,
    accumulating emitted bytes and the final state"; an element that fails
    "is skipped (its bytes omitted)" and recorded with its index and
    name. *)
Fixpoint run (i : nat) (st : PrinterState) (els : list Node)
    : PrinterState * bytes * list (nat * string * ElementError) :=
  match els with
  | [] => (st, [], [])
  | e :: rest =>
      match apply st e with
      | inr (st', out) =>
          let '(st'', outs, sk) := run (Datatypes.S i) st' rest in
          (st'', out ++ outs, sk)
      | inl err =>
          let '(st'', outs, sk) := run (Datatypes.S i) st rest in
          (st'', outs, (i, Name e, err) :: sk)
      end
  end.

(** Modelled from the spec (Job Transaction Adapter): [process]
    "invokes the Envelope Extractor; on failure, builds a SOAP fault
    response and does not write anything to the device connection"; "on
    success, emits an init command, then folds the Printer State Machine
    over the element sequence, appends an end-of-job marker" and "writes
    the complete accumulated byte sequence to the device connection in one
    write call". *)
Definition process (U : xml.Tables) (request : bytes) (dev : Device)
    : Device * Response :=
  match getBodyChildren U request with
  | (_, Some _) => (dev, Fault 400 "cannot parse XML")
  | (nodes, None) =>
      let '(_, out, sk) := run O defaultState nodes in
      (write dev (initCmd ++ out ++ endMarker), Success sk)
  end.

End Adapter.

End Job.

(** * Notions used in the statements and proofs *)

Module Props.
Import xml.

(** Two inputs agree when they start with the same byte (or are both
    empty): a scanner looks at most one byte past what it consumes. *)
Definition agree (r r' : bytes) : Prop := head r = head r'.

(** A scanner is local when what it answers depends only on the bytes it
    consumes and on the byte that follows them. *)
Definition Local {A} (f : scanner A) : Prop :=
  forall s x r, f s = Ok (x, r) ->
    exists c, s = c ++ r /\ forall r', agree r r' -> f (c ++ r') = Ok (x, r').

Definition NoFuel {A} (f : scanner A) : Prop :=
  forall s, f s <> Err errFuel.

Definition Good {A} (f : scanner A) : Prop := Local f /\ NoFuel f.

Definition NonInc {A} (f : scanner A) : Prop :=
  forall s x r, f s = Ok (x, r) -> (length r <= length s)%nat.

Definition Shrink {A} (f : scanner A) : Prop :=
  forall s x r, f s = Ok (x, r) -> (length r < length s)%nat.

(** A loop body makes progress when it consumes input each time it asks
    for another round. *)
Definition Advances {S A} (f : scanner (S + A)) : Prop :=
  forall s st r, f s = Ok (inl st, r) -> (length r < length s)%nat.

(** [reads T s r]: from the input [s] the decoder reads the tokens [T],
    each from the bytes paired with it, and is left with [r]. *)
Inductive reads (U : Tables) : list (Token * bytes) -> bytes -> bytes -> Prop :=
| reads_nil s : reads U [] s s
| reads_cons t c T s r :
    rawToken U (c ++ s) = Ok (t, s) -> reads U T s r ->
    reads U ((t, c) :: T) (c ++ s) r.

Definition spans (T : list (Token * bytes)) : bytes := flat_map snd T.

(** The tokens an item was built from. *)
Fixpoint flatten (it : Item) : list (Token * bytes) :=
  match it with
  | Elem n a o kids c =>
      (StartElement n a false, o) :: flat_map flatten kids ++ [(EndElement n, c)]
  | Leaf n a r => [(StartElement n a true, r)]
  | Data d r => [(CharData d, r)]
  | Misc m r => [(tokenOf m, r)]
  end.

(** The tokens read so far for an open element, and for a whole stack. *)
Definition opening (f : Frame) : list (Token * bytes) :=
  let '(n, a, c, ks) := f in
  (StartElement n a false, c) :: flat_map flatten (rev ks).

Fixpoint consumed (stk : list Frame) (cur : Frame) : list (Token * bytes) :=
  match stk with
  | [] => opening cur
  | p :: stk' => consumed stk' p ++ opening cur
  end.

Definition isElem (it : Item) : bool :=
  match it with
  | Elem _ _ _ _ _ | Leaf _ _ _ => true
  | _ => false
  end.

(** [d.unmarshal] refuses neither the element [it], which lies [level]
    elements below the root, nor an element inside it. *)
Fixpoint admits (how : Children) (level : nat) (it : Item) : bool :=
  match it with
  | Elem _ _ _ kids _ =>
      negb (refused how level) && forallb (admits how (S level)) kids
  | Leaf _ _ _ => negb (refused how level)
  | _ => true
  end.

Section ItemInduction.
Variable P : Item -> Prop.
Hypothesis HElem : forall n a o kids c, Forall P kids -> P (Elem n a o kids c).
Hypothesis HLeaf : forall n a r, P (Leaf n a r).
Hypothesis HData : forall d r, P (Data d r).
Hypothesis HMisc : forall m r, P (Misc m r).

Fixpoint Item_induction (it : Item) : P it :=
  match it with
  | Elem n a o kids c =>
      HElem n a o kids c
        ((fix go (ks : list Item) : Forall P ks :=
            match ks with
            | [] => @List.Forall_nil _ P
            | k :: ks' => @List.Forall_cons _ P k ks' (Item_induction k) (go ks')
            end) kids)
  | Leaf n a r => HLeaf n a r
  | Data d r => HData d r
  | Misc m r => HMisc m r
  end.

End ItemInduction.

End Props.

Definition itemName (it : xml.Item) : xml.Name :=
  match it with
  | xml.Elem n _ _ _ _ | xml.Leaf n _ _ => n
  | _ => xml.mkName "" ""
  end.

Definition rootTag : xml.Name := xml.mkName "" "root".

(** A node without its name spaces: local names, attribute values, text
    and children are kept. *)
Fixpoint localView (n : Node) : Node :=
  match n with
  | mkNode x a c ns =>
      mkNode (xml.mkName "" (xml.Local x))
             (map (fun at' => xml.mkAttr (xml.mkName "" (xml.Local (xml.attr_Name at')))
                                         (xml.attr_Value at')) a)
             c (map localView ns)
  end.

(** What [getBodyChildren] answers for the [Body] element [ob] of an
    envelope, if there is one: its children are read again, one level
    below the element [root] that is put around them. *)
Definition bodyResult (ob : option xml.Item) : list Node * option error :=
  match ob with
  | None => ([], Some ErrBodyElementEmpty)
  | Some b =>
      if forallb (Props.admits xml.Unmarshalled 1) (xml.kidsOf b) then
        match flat_map (nodesOf []) (xml.kidsOf b) with
        | [] => ([], Some ErrBodyElementEmpty)
        | nodes => (nodes, None)
        end
      else ([], Some (xmlError xml.errUnmarshalDepth))
  end.

(** The name of a start tag is what [nsname] split from a name it had
    read and checked. *)
Definition tagName (U : xml.Tables) (t : xml.Token) : Prop :=
  match t with
  | xml.StartElement n _ _ =>
      exists tag, n = xml.splitName tag /\ xml.isName U tag = true
  | _ => True
  end.

(** White space other than the carriage return, and an envelope whose
    [Body] holds the bytes [ws]. *)
Definition blank (c : ascii) : bool :=
  (c =? " ")%char || (code c =? 10) || (code c =? 9).

Definition blankEnvelope (ws : bytes) : bytes :=
  B "<Envelope><Body>" ++ ws ++ B "</Body></Envelope>".

(** * The requests of the test suite

    The tables [asciiOnly] refuse every name and every text that holds a
    byte above 0x7F; on the ASCII requests below they are never asked.  In
    the literals a backquote stands for the double quote of the Go
    sources. *)
Definition asciiOnly : xml.Tables :=
  xml.mkTables (fun _ => false) (fun _ => false).

Definition dq (s : string) : bytes :=
  map (fun c => if (c =? "`")%char then DQUOTE else c) (B s).

Definition simpleRequest : bytes := dq
"<?xml version=`1.0` encoding=`utf-8`?>
<s:Envelope xmlns:s=`http://schemas.xmlsoap.org/soap/envelope/`>
  <s:Body xmlns:m=`http://www.epson-pos.com/schemas/2011/03/epos-print`>
    <text align=`center`>Hello World</text>
    <cut type=`feed`/>
  </s:Body>
</s:Envelope>".

Definition imageRequest : bytes := dq
"<?xml version=`1.0` encoding=`utf-8`?>
<s:Envelope xmlns:s=`http://schemas.xmlsoap.org/soap/envelope/`>
  <s:Body xmlns:m=`http://www.epson-pos.com/schemas/2011/03/epos-print`>
    <image width=`256` height=`256` color=`color_1` mode=`mono`>iVBORw0KGgoAAAANSUhEUgAAAAEAAAABCAYAAAAfFcSJAAAADUlEQVR42mP8/5+hHgAHggJ/PchI7wAAAABJRU5ErkJggg==</image>
    <feed line=`2`/>
  </s:Body>
</s:Envelope>".

Definition receiptRequest : bytes := dq
"<?xml version=`1.0` encoding=`utf-8`?>
<s:Envelope xmlns:s=`http://schemas.xmlsoap.org/soap/envelope/`>
  <s:Body xmlns:m=`http://www.epson-pos.com/schemas/2011/03/epos-print`>
    <text align=`center` em=`true`>RECEIPT</text>
    <feed line=`1`/>
    <text align=`left`>Item 1: $10.00</text>
    <text align=`left`>Item 2: $15.00</text>
    <feed line=`1`/>
    <text align=`right` dh=`true`>Total: $25.00</text>
    <feed line=`2`/>
    <cut type=`feed`/>
    <pulse/>
  </s:Body>
</s:Envelope>".

Definition emptyRequest : bytes := dq
"<?xml version=`1.0` encoding=`utf-8`?>
<s:Envelope xmlns:s=`http://schemas.xmlsoap.org/soap/envelope/`>
  <s:Body xmlns:m=`http://www.epson-pos.com/schemas/2011/03/epos-print`>
  </s:Body>
</s:Envelope>".

Definition invalidRequest : bytes := B "<invalid>xml".

Definition bareEnvelope : bytes := B "<Envelope></Envelope>".

Definition prefixedRequest : bytes :=
  B "<Envelope><Body><m:x a='1' a='2'>t<y/>u</m:x></Body></Envelope>".

(** What the tests compare: name, attributes and content of each node. *)
Definition summary (n : Node) : string * list (string * string) * string :=
  (Name n,
   map (fun a => (xml.Local (xml.attr_Name a), xml.attr_Value a)) (Attrs n),
   Content n).

Definition document (data : bytes) : Node :=
  match unmarshalNode asciiOnly data with
  | xml.Ok root => root
  | xml.Err _ => zeroNode
  end.

Definition bodyOfDocument (data : bytes) : Node :=
  hd zeroNode (filter (fun n => Name n = "Body") (Nodes (document data))).

Definition emptyRoot : Node := Eval vm_compute in document emptyRequest.
Definition emptyBody : Node := Eval vm_compute in bodyOfDocument emptyRequest.
Definition prefixedNode : Node :=
  Eval vm_compute in hd zeroNode (fst (getBodyChildren asciiOnly prefixedRequest)).

(** A state machine for the witnesses: [feed] emits a line feed, any other
    element is unsupported. *)
Definition feedOnly (st : Job.PrinterState) (n : Node)
    : Job.ElementError + Job.PrinterState * bytes :=
  if String.eqb (Name n) "feed" then inr (st, [byte_of 10])
  else inl Job.UnsupportedElement.

Definition feedRequest : bytes :=
  B "<Envelope><Body><feed/><bogus/><feed/></Body></Envelope>".

Definition feedNode : Node := mkNode (xml.mkName "" "feed") [] "" [].
Definition bogusNode : Node := mkNode (xml.mkName "" "bogus") [] "" [].

(** * Notions for the further properties of [util.go] *)

(** The key under which [Attributes] files an attribute. *)
Definition attrKey (a : xml.Attr) : string := xml.Local (xml.attr_Name a).

(** Start and end tags, as opposed to text, comments, processing
    instructions and directives. *)
Definition isTag (t : xml.Token) : bool :=
  match t with
  | xml.StartElement _ _ _ | xml.EndElement _ => true
  | _ => false
  end.

(** A scanner is closed on the answers [P] when such an answer depends
    only on the bytes it consumes, of which there is at least one: it does
    not look at the byte that follows them. *)
Definition Closed {A} (P : A -> Prop) (f : xml.scanner A) : Prop :=
  forall s x r, f s = xml.Ok (x, r) -> P x ->
    exists c, c <> [] /\ s = c ++ r /\ forall r', f (c ++ r') = xml.Ok (x, r').

(** A scanner that does not look at its input. *)
Definition Quiet {A} (f : xml.scanner A) : Prop :=
  (exists x, f = xml.ret x) \/ (exists e, f = xml.fail e).

Definition isBreak {S A} (x : S + A) : Prop :=
  match x with
  | inr _ => True
  | inl _ => False
  end.

(** The attributes of a start tag are named by names that [nsname] has
    read, checked and split. *)
Definition attrsNamed (U : xml.Tables) (t : xml.Token) : Prop :=
  match t with
  | xml.StartElement _ a _ =>
      Forall (fun at' => exists tag,
                xml.attr_Name at' = xml.splitName tag /\ xml.isName U tag = true) a
  | _ => True
  end.

Definition envelopeTag : xml.Name := xml.mkName "" "Envelope".
Definition bodyTag : xml.Name := xml.mkName "" "Body".

(** A node and its descendants, in document order. *)
Fixpoint subnodes (n : Node) : list Node :=
  n :: flat_map subnodes (Nodes n).

(** ** Plain text and plain values *)

(** An ASCII character that XML allows in text, other than [<], [&], [\]]
    and the carriage return: one that the decoder hands on as it is. *)
Definition plain (c : ascii) : bool :=
  isASCII c && xml.asciiCharOK c &&
  negb (c =? "<")%char && negb (c =? "&")%char && negb (c =? "]")%char &&
  negb (code c =? 13).

(** The same inside a value in double quotes. *)
Definition plainValue (c : ascii) : bool := plain c && negb (c =? DQUOTE)%char.

Definition textTag : xml.Name := xml.mkName "" "text".
Definition alignName : xml.Name := xml.mkName "" "align".

(** The start tag [<text align="v">], and a request whose [Body] holds the
    one element [<text align="v">s</text>]. *)
Definition alignTag (v : bytes) : bytes :=
  B "<text align=" ++ DQUOTE :: v ++ DQUOTE :: B ">".

Definition textRequest (v s : bytes) : bytes :=
  blankEnvelope (alignTag v ++ s ++ B "</text>").

(** ** Tags written in the plain way *)

(** A name of ASCII characters that [isName] accepts, with one colon at
    most. *)
Definition plainName (name : bytes) : bool :=
  match name with
  | [] => false
  | c :: r =>
      xml.asciiFirst c &&
      forallb (fun x => xml.asciiFirst x || xml.asciiSecond x) r
  end && (xml.colons name <=? 1)%nat.

(** An attribute as it is written in a start tag: a space, the name, [=]
    and the value in double quotes.  A start tag: [<], the name, the
    attributes, and [>] or [/>]. *)
Definition writeAttr (nv : bytes * bytes) : bytes :=
  " "%char :: fst nv ++ "="%char :: DQUOTE :: snd nv ++ [DQUOTE].

Definition writeStart (tag : bytes) (attrs : list (bytes * bytes))
    (empty : bool) : bytes :=
  "<"%char :: tag ++ flat_map writeAttr attrs ++ (if empty then B "/>" else B ">").

Definition written (tag : bytes) (attrs : list (bytes * bytes)) : bool :=
  plainName tag &&
  forallb (fun nv => plainName (fst nv) && forallb plainValue (snd nv)) attrs.

(** The bytes of the start tag of an element. *)
Definition startBytes (it : xml.Item) : bytes :=
  match it with
  | xml.Elem _ _ o _ _ => o
  | xml.Leaf _ _ r => r
  | _ => []
  end.



(** * The mock device of the server tests

    [MockWriter] implements [io.ReadWriter] for testing.  Its [buffer] is a
    [bytes.Buffer], of which the unread bytes are kept here; [io.EOF] is
    the one error that [bytes.Buffer.Read] answers. *)
Module Mock.

Inductive ioError : Type := EOF.

Record MockWriter : Type := mkMockWriter {
  written : bytes;
  buffer : bytes
}.

Definition NewMockWriter : MockWriter := mkMockWriter [] [].

(** [m.written = append(m.written, p...)], answering [len(p), nil]. *)
Definition Write (m : MockWriter) (p : bytes)
    : MockWriter * (nat * option ioError) :=
  (mkMockWriter (written m ++ p) (buffer m), (length p, None)).

(** [m.buffer.Read(p)] where [len(p)] is [size]: an empty buffer answers
    [io.EOF], unless [p] is empty too; otherwise as many bytes as fit are
    copied into [p] and leave the buffer.  The bytes copied stand for the
    count [n] and for what [p] holds after the call. *)
Definition Read (m : MockWriter) (size : nat)
    : MockWriter * (bytes * option ioError) :=
  match buffer m with
  | [] => (m, ([], if Nat.eqb size 0 then None else Some EOF))
  | _ => (mkMockWriter (written m) (drop size (buffer m)),
          (take size (buffer m), None))
  end.

Definition GetWritten (m : MockWriter) : bytes := written m.

(** [m.written = nil] and [m.buffer.Reset()]. *)
Definition Reset (m : MockWriter) : MockWriter := mkMockWriter [] [].

(** A call of one of the four methods, and what it answers. *)
Inductive Call : Type :=
| CallWrite (p : bytes)
| CallRead (size : nat)
| CallGetWritten
| CallReset.

Inductive Answer : Type :=
| Wrote (n : nat) (err : option ioError)
| Got (p : bytes) (err : option ioError)
| Written (p : bytes)
| Done.

Definition call (m : MockWriter) (c : Call) : MockWriter * Answer :=
  match c with
  | CallWrite p => let '(m', (n, err)) := Write m p in (m', Wrote n err)
  | CallRead size => let '(m', (p, err)) := Read m size in (m', Got p err)
  | CallGetWritten => (m, Written (GetWritten m))
  | CallReset => (Reset m, Done)
  end.

Fixpoint calls (m : MockWriter) (cs : list Call) : MockWriter * list Answer :=
  match cs with
  | [] => (m, [])
  | c :: cs' =>
      let '(m1, a) := call m c in
      let '(m2, answers) := calls m1 cs' in
      (m2, a :: answers)
  end.

Definition isReset (c : Call) : bool :=
  match c with
  | CallReset => true
  | _ => false
  end.

(** The slices handed to [Write], in order. *)
Definition writes (cs : list Call) : list bytes :=
  flat_map (fun c => match c with CallWrite p => [p] | _ => [] end) cs.

(** What a [Write] or a [Read] answers on a mock whose buffer is empty. *)
Definition answerOf (c : Call) : option Answer :=
  match c with
  | CallWrite p => Some (Wrote (length p) None)
  | CallRead size => Some (Got [] (if Nat.eqb size 0 then None else Some EOF))
  | _ => None
  end.

End Mock.

(** * Inputs for the further properties *)

Definition zeroEnvelope : Envelope :=
  mkEnvelope (xml.mkName "" "") (mkBody (xml.mkName "" "") []).

Definition simpleEnvelope : Envelope :=
  Eval vm_compute in
    match unmarshalEnvelope asciiOnly simpleRequest with
    | xml.Ok envelope => envelope
    | xml.Err _ => zeroEnvelope
    end.

(** The first token of a request of the tests, its XML declaration, and
    the bytes that follow it. *)
Definition simpleProlog : xml.Token * bytes :=
  Eval vm_compute in
    match xml.rawToken asciiOnly simpleRequest with
    | xml.Ok p => p
    | xml.Err _ => (xml.Comment, [])
    end.

Definition twoBodies : bytes :=
  B "<Envelope><Body><a/></Body><Body><b/><c/></Body></Envelope>".

Definition alignEm : Node :=
  mkNode (xml.mkName "" "text")
    [xml.mkAttr (xml.mkName "" "align") "center";
     xml.mkAttr (xml.mkName "" "em") "true"] "Hello World" [].

Definition emAlign : Node :=
  mkNode (xml.mkName "" "text")
    [xml.mkAttr (xml.mkName "" "em") "true";
     xml.mkAttr (xml.mkName "" "align") "center"] "Hello World" [].

Definition prefixedChild : Node :=
  Eval vm_compute in
    default zeroNode (flat_map subnodes [prefixedNode] !! 1%nat).

Definition simpleNodes : list Node :=
  Eval vm_compute in fst (getBodyChildren asciiOnly simpleRequest).

Definition simpleCut : Node :=
  Eval vm_compute in default zeroNode (simpleNodes !! 1%nat).

(** * The elements of the specification

    For the comparison with the nodes that [getBodyChildren] answers: an
    element as the specification describes what is extracted, "its local
    tag name (namespace prefix stripped), all attributes" by name and value
    "and its text content (concatenation of direct text nodes ...)", with
    its child elements in document order.  [specElements] reads this off
    the tokens of an element; it follows the specification and is written
    without [nodesOf], [xml.charData] and [xml.translate]. *)
Inductive SpecElement : Type := mkSpecElement {
  specTag : string;
  specAttributes : list (string * string);
  specText : string;
  specChildren : list SpecElement
}.

Fixpoint specElements (it : xml.Item) : list SpecElement :=
  match it with
  | xml.Elem n a _ kids _ =>
      [mkSpecElement (xml.Local n)
         (map (fun at' => (xml.Local (xml.attr_Name at'), xml.attr_Value at')) a)
         (string_of_list_ascii
            (flat_map (fun k => match k with
                                | xml.Data d _ => d
                                | _ => []
                                end) kids))
         (flat_map specElements kids)]
  | xml.Leaf n a _ =>
      [mkSpecElement (xml.Local n)
         (map (fun at' => (xml.Local (xml.attr_Name at'), xml.attr_Value at')) a)
         "" []]
  | _ => []
  end.

(** What a node gives through [Name], [Attrs], [Content] and [Nodes]. *)
Fixpoint specOfNode (n : Node) : SpecElement :=
  match n with
  | mkNode x a c ns =>
      mkSpecElement (xml.Local x)
        (map (fun at' => (xml.Local (xml.attr_Name at'), xml.attr_Value at')) a)
        c (map specOfNode ns)
  end.

(** The tree of tokens of a request of the tests, and its [Body]. *)
Definition zeroItem : xml.Item := xml.Data [] [].

Definition treeOf (data : bytes) : xml.Item :=
  match xml.decode asciiOnly xml.Unmarshalled None data with
  | xml.Ok it => it
  | xml.Err _ => zeroItem
  end.

Definition lastBodyOf (data : bytes) : xml.Item :=
  default zeroItem (last (filter (isElement "Body") (xml.kidsOf (treeOf data)))).

Definition simpleBodyItem : xml.Item := Eval vm_compute in lastBodyOf simpleRequest.
Definition twoBodiesTree : xml.Item := Eval vm_compute in treeOf twoBodies.
Definition twoBodiesLastItem : xml.Item := Eval vm_compute in lastBodyOf twoBodies.

(** * Properties of the decoder's reader *)

Module Scan.
Import xml.
Import Props.

Lemma agree_app c r r' : agree r r' -> agree (c ++ r) (c ++ r').
Proof. destruct c; simpl; [trivial | reflexivity]. Qed.

Lemma Local_NonInc {A} (f : scanner A) : Local f -> NonInc f.
Proof.
  intros H s x r E. destruct (H s x r E) as (c & -> & _).
  rewrite length_app. lia.
Qed.

Lemma Good_NonInc {A} (f : scanner A) : Good f -> NonInc f.
Proof. intros [H _]. by apply Local_NonInc. Qed.

Lemma bind_Ok {A C} (f : scanner A) (k : A -> scanner C) s y r :
  bind f k s = Ok (y, r) -> exists x m, f s = Ok (x, m) /\ k x m = Ok (y, r).
Proof.
  unfold bind. destruct (f s) as [[x m]|e]; [eauto | discriminate].
Qed.

Lemma Good_ret {A} (x : A) : Good (ret x).
Proof.
  split; [|intros s; discriminate].
  intros s y r E. injection E as <- <-. exists []. split; [reflexivity|].
  intros r' _. reflexivity.
Qed.

Lemma Good_fail {A} e : e <> errFuel -> Good (@fail A e).
Proof.
  intros He. split; [intros s x r E; discriminate|].
  intros s E. injection E as E. contradiction.
Qed.

Lemma Good_peekc : Good peekc.
Proof.
  split; [|intros s; discriminate].
  intros s x r E. injection E as <- <-. exists []. split; [reflexivity|].
  intros r' Hr. unfold peekc. simpl. unfold agree in Hr. by rewrite Hr.
Qed.

Lemma Good_mustgetc : Good mustgetc.
Proof.
  split; [|intros [|b s]; discriminate].
  intros [|b s] x r E; [discriminate|]. injection E as <- <-.
  exists [b]. split; [reflexivity|]. intros r' _. reflexivity.
Qed.

Lemma Good_bind {A C} (f : scanner A) (k : A -> scanner C) :
  Good f -> (forall x, Good (k x)) -> Good (bind f k).
Proof.
  intros [Lf Nf] Hk. split.
  - intros s y r E. apply bind_Ok in E as (x & m & Ef & Ek).
    destruct (Lf _ _ _ Ef) as (c1 & -> & H1).
    destruct (proj1 (Hk x) _ _ _ Ek) as (c2 & -> & H2).
    exists (c1 ++ c2). split; [by rewrite app_assoc|].
    intros r' Hr. unfold bind. rewrite <- app_assoc.
    rewrite (H1 (c2 ++ r')); [|by apply agree_app]. by apply H2.
  - intros s. unfold bind. destruct (f s) as [[x m]|e] eqn:E.
    + apply (proj2 (Hk x)).
    + intros H. injection H as ->. by apply (Nf s).
Qed.

Lemma Shrink_mustgetc : Shrink mustgetc.
Proof. intros [|b s] x r E; [discriminate|]. injection E as <- <-. simpl. lia. Qed.

Lemma Shrink_bind_l {A C} (f : scanner A) (k : A -> scanner C) :
  Shrink f -> (forall x, NonInc (k x)) -> Shrink (bind f k).
Proof.
  intros Hf Hk s y r E. apply bind_Ok in E as (x & m & Ef & Ek).
  apply Hf in Ef. apply Hk in Ek. lia.
Qed.

Lemma Advances_shrink {S A} (f : scanner (S + A)) : Shrink f -> Advances f.
Proof. intros H s st r E. by apply H in E. Qed.

Lemma Advances_break {S A} (a : A) : Advances (ret (@inr S A a)).
Proof. intros s st r E. discriminate. Qed.

Lemma Advances_bind {S A C} (f : scanner C) (k : C -> scanner (S + A)) :
  NonInc f -> (forall x, Advances (k x)) -> Advances (bind f k).
Proof.
  intros Hf Hk s st r E. apply bind_Ok in E as (x & m & Ef & Ek).
  apply Hf in Ef. apply Hk in Ek. lia.
Qed.

(** *** Loops *)

Section Loop.
Context {S A : Type} (body : S -> scanner (S + A)).
Hypothesis body_good : forall st, Good (body st).
Hypothesis body_adv : forall st, Advances (body st).

Lemma loop_local fuel st : Local (loop body fuel st).
Proof using body_good.
  revert st. induction fuel as [|fuel IH]; intros st s x r E; [discriminate|].
  simpl in E. destruct (body st s) as [[[st'|a] m]|e] eqn:Eb; try discriminate.
  - destruct (proj1 (body_good st) _ _ _ Eb) as (c1 & -> & H1).
    destruct (IH _ _ _ _ E) as (c2 & -> & H2).
    exists (c1 ++ c2). split; [by rewrite app_assoc|].
    intros r' Hr. simpl. rewrite <- app_assoc.
    rewrite (H1 (c2 ++ r')); [|by apply agree_app]. by apply H2.
  - injection E as <- <-.
    destruct (proj1 (body_good st) _ _ _ Eb) as (c1 & -> & H1).
    exists c1. split; [reflexivity|]. intros r' Hr. simpl.
    by rewrite (H1 r').
Qed.

(** Beyond the length of the input, the budget of a loop is immaterial. *)
Lemma loop_fuel f1 f2 st s :
  (length s < f1)%nat -> (length s < f2)%nat ->
  loop body f1 st s = loop body f2 st s.
Proof using body_adv.
  revert f2 st s. induction f1 as [|f1 IH]; intros f2 st s H1 H2; [lia|].
  destruct f2 as [|f2]; [lia|]. simpl.
  destruct (body st s) as [[[st'|a] m]|e] eqn:Eb; try reflexivity.
  apply body_adv in Eb. apply IH; lia.
Qed.

Lemma loop_nofuel f st s : (length s < f)%nat -> loop body f st s <> Err errFuel.
Proof using body_good body_adv.
  revert st s. induction f as [|f IH]; intros st s H; [lia|]. simpl.
  destruct (body st s) as [[[st'|a] m]|e] eqn:Eb; try discriminate.
  - apply body_adv in Eb. apply IH. lia.
  - intros E. injection E as ->. by apply (proj2 (body_good st) s).
Qed.

Lemma Good_iterate st : Good (iterate body st).
Proof using body_good body_adv.
  split; [|intros s; apply loop_nofuel; lia].
  intros s x r E. unfold iterate in E.
  destruct (loop_local _ _ _ _ _ E) as (c & -> & H).
  exists c. split; [reflexivity|]. intros r' Hr. unfold iterate.
  set (r0 := take 1 r').
  assert (Hr0 : agree r r0) by (unfold agree, r0 in *; rewrite Hr; by destruct r').
  assert (Hr0' : agree r0 r') by (unfold agree, r0; by destruct r').
  assert (Hlen : (length r0 <= length r)%nat).
  { unfold agree in Hr0. subst r0. destruct r, r'; simpl in *; try discriminate; lia. }
  assert (Hlen' : (length r0 <= length r')%nat).
  { subst r0. rewrite length_take. lia. }
  pose proof (H r0 Hr0) as E0.
  rewrite (loop_fuel _ (Datatypes.S (length (c ++ r'))) _ (c ++ r0)) in E0;
    [|rewrite !length_app; lia..].
  destruct (loop_local _ _ _ _ _ E0) as (c' & Hc & H').
  apply app_inv_tail in Hc. subst c'. by apply H'.
Qed.

End Loop.

Lemma Advances_fail {S A} e : Advances (@fail (S + A) e).
Proof. intros s st r E. discriminate. Qed.

Create HintDb scan.

Ltac good :=
  repeat first
    [ solve [auto with scan]
    | apply Good_ret | apply Good_peekc | apply Good_mustgetc
    | apply Good_fail; discriminate
    | apply Good_bind; [|intros ?]
    | match goal with
      | |- Good (match ?x with _ => _ end) => destruct x
      end ].

Ltac adv :=
  repeat first
    [ apply Advances_break
    | apply Advances_fail
    | apply Advances_shrink; apply Shrink_bind_l;
      [apply Shrink_mustgetc | intros ?; apply Good_NonInc; solve [good]]
    | apply Advances_bind; [apply Good_NonInc; solve [good] | intros ?]
    | match goal with
      | |- Advances (match ?x with _ => _ end) => destruct x
      end ].

Ltac looping := apply Good_iterate; intros ?.

(** *** The scanners of the decoder *)

Section Scanners.
Variable U : Tables.

Lemma Good_space : Good space.
Proof. unfold space. looping; unfold spaceStep; [good | adv]. Qed.
Hint Resolve Good_space : scan.

Lemma Good_nameLoop acc : Good (iterate nameStep acc).
Proof. looping; unfold nameStep; [good | adv]. Qed.
Hint Resolve Good_nameLoop : scan.

Lemma Good_readName : Good readName.
Proof. unfold readName. good. Qed.
Hint Resolve Good_readName : scan.

Lemma Good_name : Good (name U).
Proof. unfold name. good. Qed.
Hint Resolve Good_name : scan.

Lemma Good_nsname : Good (nsname U).
Proof. unfold nsname. good. Qed.
Hint Resolve Good_nsname : scan.

Lemma Good_digits hex acc : Good (iterate (digitStep hex) acc).
Proof. looping; unfold digitStep; [good | adv]. Qed.
Hint Resolve Good_digits : scan.

Lemma Good_charRef : Good charRef.
Proof. unfold charRef. good. Qed.
Hint Resolve Good_charRef : scan.

Lemma Good_namedRef : Good (namedRef U).
Proof. unfold namedRef. good. Qed.
Hint Resolve Good_namedRef : scan.

Lemma Good_reference : Good (reference U).
Proof. unfold reference. good. Qed.
Hint Resolve Good_reference : scan.

Lemma Good_textLoop quote cdata st : Good (iterate (textStep U quote cdata) st).
Proof. looping; unfold textStep; [good | adv]. Qed.
Hint Resolve Good_textLoop : scan.

Lemma Good_text quote cdata : Good (text U quote cdata).
Proof. unfold text. good. Qed.
Hint Resolve Good_text : scan.

Lemma Good_attrval : Good (attrval U).
Proof. unfold attrval. good. Qed.
Hint Resolve Good_attrval : scan.

Lemma Good_attrLoop acc : Good (iterate (attrStep U) acc).
Proof. looping; unfold attrStep; [good | adv]. Qed.
Hint Resolve Good_attrLoop : scan.

Lemma Good_startTag : Good (startTag U).
Proof. unfold startTag. good. Qed.
Hint Resolve Good_startTag : scan.

Lemma Good_endTag : Good (endTag U).
Proof. unfold endTag. good. Qed.
Hint Resolve Good_endTag : scan.

Lemma Good_piLoop st : Good (iterate piStep st).
Proof. looping; unfold piStep; [good | adv]. Qed.
Hint Resolve Good_piLoop : scan.

Lemma Good_procInstTag : Good (procInstTag U).
Proof.
  unfold procInstTag. apply Good_bind; [good|]. intros [target|]; [|good].
  apply Good_bind; [good|]. intros _. apply Good_bind; [good|]. intros data.
  assert (H : forall d, checkDecl d <> Some errFuel).
  { intros d. unfold checkDecl. repeat case_match; discriminate. }
  destruct (String.eqb _ "xml"); [|good].
  specialize (H data). destruct (checkDecl data) as [e|]; [|good].
  apply Good_fail. congruence.
Qed.
Hint Resolve Good_procInstTag : scan.

Lemma Good_commentLoop st : Good (iterate commentStep st).
Proof. looping; unfold commentStep; [good | adv]. Qed.
Hint Resolve Good_commentLoop : scan.

Lemma Good_expect lit : Good (expect lit).
Proof. induction lit as [|c lit IH]; simpl; good. Qed.
Hint Resolve Good_expect : scan.

Lemma Good_dirCommentLoop st : Good (iterate dirCommentStep st).
Proof. looping; unfold dirCommentStep; [good | adv]. Qed.
Hint Resolve Good_dirCommentLoop : scan.

Lemma Good_dirLoop st : Good (iterate dirStep st).
Proof. looping; unfold dirStep; [good | adv]. Qed.
Hint Resolve Good_dirLoop : scan.

Lemma Good_bangTag : Good (bangTag U).
Proof. unfold bangTag. good. Qed.
Hint Resolve Good_bangTag : scan.

Lemma Good_rawToken : Good (rawToken U).
Proof. unfold rawToken. good. Qed.

End Scanners.

#[export] Hint Resolve Good_space Good_nameLoop Good_readName Good_name
  Good_nsname Good_digits Good_charRef Good_namedRef Good_reference
  Good_textLoop Good_text Good_attrval Good_attrLoop Good_startTag
  Good_endTag Good_piLoop Good_procInstTag Good_commentLoop Good_expect
  Good_dirCommentLoop Good_dirLoop Good_bangTag : scan.

End Scan.

(** * Properties of the token stream *)

Module Stream.
Import xml.
Import Props.
Import Scan.

Section Stream.
Variable U : Tables.

Lemma rawToken_local : Local (rawToken U).
Proof. apply Good_rawToken. Qed.

(** No token of the model is an artefact of a loop budget. *)
Lemma rawToken_fuel s : rawToken U s <> Err errFuel.
Proof. apply Good_rawToken. Qed.

Lemma text_shrinks b s d r :
  (b =? "<")%char = false ->
  text U None false (b :: s) = Ok (d, r) -> (length r < length (b :: s))%nat.
Proof.
  intros Hb E. unfold text in E. apply bind_Ok in E as (x & m & E & Em).
  assert (Hm : (length r <= length m)%nat).
  { destruct (validText U x); [injection Em as _ <-; lia | discriminate]. }
  assert (HL : forall st f, NonInc (loop (textStep U None false) f st)).
  { intros st f. apply Local_NonInc, loop_local. intros st'.
    unfold textStep. good. }
  unfold iterate in E. cbn [loop] in E.
  destruct (textStep U None false (NUL, NUL, []) (b :: s))
    as [[[st'|a] m']|e] eqn:Eb; try discriminate.
  - apply HL in E.
    assert ((length m' <= length s)%nat); [|simpl; lia].
    unfold textStep, bind, peekc in Eb. simpl in Eb. rewrite Hb in Eb.
    simpl in Eb. destruct ((b =? "&")%char); simpl in Eb.
    + destruct (reference U s) as [[t m'']|e] eqn:Er; [|discriminate].
      apply (Good_NonInc _ (Good_reference U)) in Er. injection Eb as _ <-. lia.
    + injection Eb as _ <-. lia.
  - unfold textStep, bind, peekc in Eb. simpl in Eb. rewrite Hb in Eb.
    simpl in Eb. destruct ((b =? "&")%char); simpl in Eb; [|discriminate].
    destruct (reference U s) as [[t m'']|e]; discriminate.
Qed.

Lemma rawToken_shrinks : Shrink (rawToken U).
Proof.
  intros s t r E. unfold rawToken in E.
  apply bind_Ok in E as (ob & m & Ep & E). injection Ep as <- <-.
  destruct s as [|b s]; [discriminate|]. simpl in E.
  destruct (b =? "<")%char eqn:Hb; simpl in E.
  - revert E. apply Shrink_bind_l; [apply Shrink_mustgetc|].
    intros ?. apply Good_NonInc. good.
  - apply bind_Ok in E as (d & m & E & Em). injection Em as _ <-.
    by apply text_shrinks in E.
Qed.

Lemma rawTokens_fuel f1 f2 s :
  (length s < f1)%nat -> (length s < f2)%nat ->
  rawTokens U f1 s = rawTokens U f2 s.
Proof.
  revert f2 s. induction f1 as [|f1 IH]; intros f2 s H1 H2; [lia|].
  destruct f2 as [|f2]; [lia|]. simpl.
  destruct (rawToken U s) as [[t r]|e] eqn:E; [|reflexivity].
  apply rawToken_shrinks in E. rewrite (IH f2 r); [reflexivity|lia..].
Qed.

Lemma tokens_step s t r :
  rawToken U s = Ok (t, r) ->
  exists c, s = c ++ r /\ c <> [] /\
    tokens U s = ((t, c) :: fst (tokens U r), snd (tokens U r)).
Proof.
  intros E. pose proof (rawToken_shrinks _ _ _ E) as Hlt.
  destruct (rawToken_local _ _ _ E) as (c & -> & _).
  exists c. split; [reflexivity|]. split.
  { intros ->. simpl in Hlt. lia. }
  unfold tokens at 1. simpl. rewrite E.
  rewrite (rawTokens_fuel _ (Datatypes.S (length r)) r); [|lia..].
  fold (tokens U r). rewrite length_app.
  replace (length c + length r - length r)%nat with (length c) by lia.
  by rewrite take_app_length.
Qed.

Lemma tokens_stop s e : rawToken U s = Err e -> tokens U s = ([], e).
Proof. intros E. unfold tokens. simpl. by rewrite E. Qed.

Lemma rawTokens_nofuel f s : (length s < f)%nat -> snd (rawTokens U f s) <> errFuel.
Proof.
  revert s. induction f as [|f IH]; intros s H; [lia|]. simpl.
  destruct (rawToken U s) as [[t r]|e] eqn:E; simpl.
  - apply IH. apply rawToken_shrinks in E. lia.
  - intros ->. by apply rawToken_fuel in E.
Qed.

Lemma tokens_fuel s : snd (tokens U s) <> errFuel.
Proof. apply rawTokens_nofuel. lia. Qed.

Lemma reads_spans T s r : reads U T s r -> s = spans T ++ r.
Proof.
  induction 1 as [|t c T s r E H IH]; [reflexivity|].
  unfold spans. simpl. rewrite <- app_assoc. by f_equal.
Qed.

Lemma tokens_reads T1 T2 e s :
  tokens U s = (T1 ++ T2, e) ->
  exists r, reads U T1 s r /\ tokens U r = (T2, e).
Proof.
  revert s. induction T1 as [|[t c] T1 IH]; intros s E.
  { exists s. split; [constructor | exact E]. }
  destruct (rawToken U s) as [[t' r]|e'] eqn:Er.
  - destruct (tokens_step _ _ _ Er) as (c' & -> & _ & Et).
    rewrite Et in E. simpl in E. injection E as -> -> E1 E2.
    destruct (IH r) as (r' & Hr & Ht).
    { rewrite <- E1, <- E2. by destruct (tokens U r). }
    exists r'. split; [by constructor | exact Ht].
  - rewrite (tokens_stop _ _ Er) in E. discriminate.
Qed.

Lemma reads_tokens T s r T2 e :
  reads U T s r -> tokens U r = (T2, e) -> tokens U s = (T ++ T2, e).
Proof.
  induction 1 as [|t c T s r E H IH]; intros Ht; [exact Ht|].
  destruct (tokens_step _ _ _ E) as (c' & Hc & _ & Et).
  apply app_inv_tail in Hc. subst c'. rewrite Et, (IH Ht). reflexivity.
Qed.

(** The tokens read from a stretch of input are read again from the same
    bytes in front of any input that starts with the same byte. *)
Lemma reads_move T s r r' :
  reads U T s r -> agree r r' -> reads U T (spans T ++ r') r'.
Proof.
  induction 1 as [|t c T s r E H IH]; intros Hr; [constructor|].
  specialize (IH Hr). unfold spans. simpl. rewrite <- app_assoc.
  constructor; [|exact IH].
  destruct (rawToken_local _ _ _ E) as (c' & Hc & Hmove).
  apply app_inv_tail in Hc. subst c'. apply Hmove.
  rewrite (reads_spans _ _ _ H). by apply agree_app.
Qed.

(** A token other than character data starts with [<]. *)
Lemma rawToken_tag s t r :
  rawToken U s = Ok (t, r) ->
  match t with CharData _ => True | _ => head s = Some "<"%char end.
Proof.
  intros E. unfold rawToken in E.
  apply bind_Ok in E as (ob & m & Ep & E). injection Ep as <- <-.
  destruct s as [|b s]; [discriminate|]. simpl in E.
  destruct (b =? "<")%char eqn:Hb; simpl in E.
  - apply Ascii.eqb_eq in Hb. subst b. by destruct t.
  - apply bind_Ok in E as (d & m & E & Em). by injection Em as <- _.
Qed.

End Stream.

End Stream.

(** * Properties of the element stack *)

Module Tree.
Import xml.
Import Props.
Import Scan.
Import Stream.

Lemma flat_map_snoc {A C} (f : A -> list C) l x :
  flat_map f (l ++ [x]) = flat_map f l ++ f x.
Proof. rewrite flat_map_app. simpl. by rewrite app_nil_r. Qed.

Lemma sameName_eq a b : sameName a b = true -> a = b.
Proof.
  destruct a as [s1 l1], b as [s2 l2]. unfold sameName. simpl.
  intros H. apply andb_true_iff in H as [H1 H2].
  apply String.eqb_eq in H1, H2. by subst.
Qed.

Lemma sameName_refl a : sameName a a = true.
Proof. unfold sameName. by rewrite !String.eqb_refl. Qed.

Lemma opening_push it f : opening (push it f) = opening f ++ flatten it.
Proof.
  destruct f as [[[n a] c] ks]. simpl. by rewrite flat_map_snoc.
Qed.

Lemma consumed_push it stk cur :
  consumed stk (push it cur) = consumed stk cur ++ flatten it.
Proof.
  destruct stk as [|p stk]; simpl; rewrite opening_push; [done|].
  by rewrite app_assoc.
Qed.

(** What [build] has read, once it is done, is the token sequence of the
    element it answers. *)
Lemma build_inv how toks : forall stk cur tail root rest,
  build how stk cur toks tail = Ok (root, rest) ->
  exists more, toks = more ++ rest /\ flatten root = consumed stk cur ++ more.
Proof.
  induction toks as [|[t c] toks IH]; intros stk cur tail root rest E;
    [discriminate|].
  simpl in E. destruct t as [n a e|n|d| |tg i|].
  - destruct (refused how (S (length stk))); [discriminate|]. destruct e.
    + apply IH in E as (more & -> & Hf). exists ((StartElement n a true, c) :: more).
      split; [reflexivity|]. rewrite Hf, consumed_push. simpl.
      by rewrite <- app_assoc.
    + apply IH in E as (more & -> & Hf). exists ((StartElement n a false, c) :: more).
      split; [reflexivity|]. rewrite Hf. simpl. by rewrite <- app_assoc.
  - destruct cur as [[[n0 a0] c0] ks].
    destruct (sameName n0 n) eqn:Hn; [|discriminate].
    apply sameName_eq in Hn. subst n0. destruct stk as [|p stk].
    + injection E as <- <-. exists [(EndElement n, c)]. split; [reflexivity|].
      simpl. reflexivity.
    + apply IH in E as (more & -> & Hf). exists ((EndElement n, c) :: more).
      split; [reflexivity|]. rewrite Hf, consumed_push. simpl.
      rewrite <- !app_assoc. simpl. by rewrite <- app_assoc.
  - apply IH in E as (more & -> & Hf). exists ((CharData d, c) :: more).
    split; [reflexivity|]. rewrite Hf, consumed_push. simpl.
    by rewrite <- app_assoc.
  - apply IH in E as (more & -> & Hf). exists ((Comment, c) :: more).
    split; [reflexivity|]. rewrite Hf, consumed_push. simpl.
    by rewrite <- app_assoc.
  - apply IH in E as (more & -> & Hf). exists ((ProcInst tg i, c) :: more).
    split; [reflexivity|]. rewrite Hf, consumed_push. simpl.
    by rewrite <- app_assoc.
  - apply IH in E as (more & -> & Hf). exists ((Directive, c) :: more).
    split; [reflexivity|]. rewrite Hf, consumed_push. simpl.
    by rewrite <- app_assoc.
Qed.

(** Conversely, [build] reads the tokens of an item back into the item,
    unless an element in it lies too deep. *)
Lemma build_flat_list how kids :
  Forall (fun it => forall stk cur rest tail,
            build how stk cur (flatten it ++ rest) tail =
            if admits how (S (length stk)) it
            then build how stk (push it cur) rest tail
            else Err errUnmarshalDepth) kids ->
  forall stk n a o ks0 rest tail,
    build how stk (n, a, o, ks0) (flat_map flatten kids ++ rest) tail =
    if forallb (admits how (S (length stk))) kids
    then build how stk (n, a, o, rev kids ++ ks0) rest tail
    else Err errUnmarshalDepth.
Proof.
  induction 1 as [|k kids Hk _ IHk]; intros stk n a o ks0 rest tail;
    [reflexivity|].
  cbn [flat_map rev forallb]. rewrite <- !app_assoc. rewrite Hk. cbn [push].
  destruct (admits how (S (length stk)) k); [|reflexivity].
  rewrite IHk. reflexivity.
Qed.

Lemma build_flatten how it : forall stk cur rest tail,
  build how stk cur (flatten it ++ rest) tail =
  if admits how (S (length stk)) it
  then build how stk (push it cur) rest tail
  else Err errUnmarshalDepth.
Proof.
  induction it as [n a o kids c IH|n a r|d r|m r] using Item_induction;
    intros stk cur rest tail; try reflexivity.
  - cbn [flatten admits]. rewrite <- app_comm_cons, <- app_assoc. cbn [build].
    destruct (refused how (S (length stk))); [reflexivity|]. cbn [negb andb].
    rewrite (build_flat_list _ _ IH). cbn [length].
    destruct (forallb _ kids); [|reflexivity]. simpl.
    rewrite sameName_refl, app_nil_r, rev_involutive. reflexivity.
  - cbn [flatten admits app build].
    by destruct (refused how (S (length stk))).
  - destruct m; reflexivity.
Qed.

Lemma build_kids how kids n a o c rest tail :
  build how [] (n, a, o, []) (flat_map flatten kids ++ (EndElement n, c) :: rest) tail =
  if forallb (admits how 1) kids then Ok (Elem n a o kids c, rest)
  else Err errUnmarshalDepth.
Proof.
  rewrite build_flat_list.
  - cbn [length]. destruct (forallb _ kids); [|reflexivity].
    simpl. rewrite sameName_refl, app_nil_r, rev_involutive. reflexivity.
  - apply Forall_forall. intros it _. apply build_flatten.
Qed.

(** The limit in terms of levels: an element is refused from the level
    5000 on. *)
Lemma refused_level level :
  refused Unmarshalled level = (5000 <=? N.of_nat level).
Proof.
  unfold refused, maxUnmarshalDepth.
  destruct (N.leb_spec 5000 (N.of_nat level)) as [H|H];
    [apply orb_true_iff; right; apply N.leb_le; lia|].
  apply orb_false_iff. split; apply N.leb_gt; lia.
Qed.

(** Nothing is refused when the elements are skipped, and what is admitted
    at some level is admitted higher up. *)
Lemma admits_Skipped it : forall level, admits Skipped level it = true.
Proof.
  induction it as [n a o kids c IH|n a r|d r|m r] using Item_induction;
    intros level; try reflexivity.
  cbn [admits refused negb andb].
  induction IH as [|k kids Hk _ IHk]; [reflexivity|].
  cbn [forallb]. by rewrite Hk, IHk.
Qed.

Lemma admits_all_Skipped kids level : forallb (admits Skipped level) kids = true.
Proof.
  induction kids as [|k kids IH]; [reflexivity|].
  cbn [forallb]. by rewrite admits_Skipped, IH.
Qed.

Lemma refused_up how level : refused how level = true -> refused how (S level) = true.
Proof.
  destruct how; [done|]. unfold refused, maxUnmarshalDepth.
  rewrite Nat2N.inj_succ. intros H.
  apply orb_true_iff in H. apply orb_true_iff.
  rewrite !N.leb_le in *. lia.
Qed.

Lemma admits_up how it : forall level,
  admits how (S level) it = true -> admits how level it = true.
Proof.
  induction it as [n a o kids c IH|n a r|d r|m r] using Item_induction;
    intros level H; try reflexivity.
  - cbn [admits] in *. apply andb_true_iff in H as [H1 H2].
    apply andb_true_iff. split.
    + destruct (refused how level) eqn:Hr; [|reflexivity].
      by rewrite (refused_up _ _ Hr) in H1.
    + clear H1. induction IH as [|k kids Hk _ IHk]; [reflexivity|].
      cbn [forallb] in *. apply andb_true_iff in H2 as [H2 H3].
      by rewrite (Hk _ H2), (IHk H3).
  - cbn [admits] in *. destruct (refused how level) eqn:Hr; [|reflexivity].
    by rewrite (refused_up _ _ Hr) in H.
Qed.

Lemma admits_all_up how kids level :
  forallb (admits how (S level)) kids = true ->
  forallb (admits how level) kids = true.
Proof.
  induction kids as [|k kids IH]; [reflexivity|].
  cbn [forallb]. intros H. apply andb_true_iff in H as [H1 H2].
  by rewrite (admits_up _ _ _ H1), (IH H2).
Qed.

(** The children of an admitted element are admitted in its place. *)
Lemma admits_kids how level it :
  admits how level it = true -> forallb (admits how level) (kidsOf it) = true.
Proof.
  destruct it as [n a o kids c|n a r|d r|m r]; try reflexivity.
  cbn [admits kidsOf]. intros H. apply andb_true_iff in H as [_ H].
  by apply admits_all_up.
Qed.

Lemma spans_flatten it : spans (flatten it) = raw it.
Proof.
  induction it as [n a o kids c IH|n a r|d r|m r] using Item_induction;
    unfold spans; simpl; try by rewrite app_nil_r.
  f_equal. rewrite flat_map_app. simpl. rewrite app_nil_r. f_equal.
  induction IH as [|k kids Hk _ IHk]; [reflexivity|].
  simpl. rewrite flat_map_app. unfold spans in Hk. by rewrite Hk, IHk.
Qed.

Lemma spans_flat kids : spans (flat_map flatten kids) = flat_map raw kids.
Proof.
  induction kids as [|k kids IH]; [reflexivity|].
  unfold spans in *. simpl. rewrite flat_map_app, IH.
  f_equal. apply spans_flatten.
Qed.

Lemma findStart_inv toks tail n a e c rest :
  findStart toks tail = Ok (n, a, e, c, rest) ->
  exists pre, toks = pre ++ (StartElement n a e, c) :: rest.
Proof.
  induction toks as [|[t c'] toks IH]; intros E; [discriminate|].
  simpl in E. destruct t as [n' a' e'|n'|d| |tg i|]; try discriminate.
  - injection E as <- <- <- <- <-. by exists [].
  - apply IH in E as (pre & ->). by exists ((CharData d, c') :: pre).
  - apply IH in E as (pre & ->). by exists ((Comment, c') :: pre).
  - apply IH in E as (pre & ->). by exists ((ProcInst tg i, c') :: pre).
  - apply IH in E as (pre & ->). by exists ((Directive, c') :: pre).
Qed.

End Tree.

(** * The extractor *)

Import Props Scan Stream Tree.

Section Extractor.
Variable U : xml.Tables.

Lemma build_root how n a c toks tail root rest :
  xml.build how [] (n, a, c, []) toks tail = xml.Ok (root, rest) ->
  exists kids cl,
    root = xml.Elem n a c kids cl /\
    toks = flat_map flatten kids ++ (xml.EndElement n, cl) :: rest /\
    forallb (admits how 1) kids = true.
Proof.
  intros E. pose proof E as E'.
  apply build_inv in E as (more & -> & Hf). simpl in Hf.
  destruct root as [n' a' o' kids cl| | |m r]; simpl in Hf;
    try discriminate; [|destruct m; discriminate].
  injection Hf as -> -> -> <-. exists kids, cl. split; [reflexivity|].
  rewrite <- app_assoc in E' |- *. split; [reflexivity|].
  cbn [app] in E'. rewrite build_kids in E'.
  by destruct (forallb _ kids).
Qed.

(** The root element that [decode] answers was read from a stretch of the
    token stream. *)
Lemma decode_inv how expected data it :
  xml.decode U how expected data = xml.Ok it ->
  isElem it = true /\
  match expected with
  | Some x => x = xml.Local (itemName it)
  | None => True
  end /\
  exists pre post, fst (xml.tokens U data) = pre ++ flatten it ++ post.
Proof.
  unfold xml.decode. intros E.
  destruct (xml.findStart _ _) as [[[[[n a] e] c] rest]|err] eqn:Ef;
    [|discriminate].
  apply findStart_inv in Ef as (pre & Hpre).
  assert (Hx : match expected with
               | Some x => x = xml.Local n
               | None => True
               end).
  { destruct expected as [x|]; [|done].
    destruct (String.eqb x (xml.Local n)) eqn:Hx; [|discriminate].
    by apply String.eqb_eq in Hx. }
  destruct (match expected with Some x => _ | None => _ end); [|discriminate].
  destruct e.
  - injection E as <-. repeat split; [done|]. exists pre, rest. by rewrite Hpre.
  - destruct (xml.build _ _ _ _ _) as [[root rest']|err] eqn:Eb; [|discriminate].
    injection E as <-.
    apply build_root in Eb as (kids & cl & -> & -> & _).
    repeat split; [done|]. exists pre, rest'. rewrite Hpre. simpl.
    by rewrite <- !app_assoc.
Qed.

(** What [decode] answers lies within the limit. *)
Lemma decode_admits how expected data it :
  xml.decode U how expected data = xml.Ok it ->
  forallb (admits how 1) (xml.kidsOf it) = true.
Proof.
  unfold xml.decode. intros E.
  destruct (xml.findStart _ _) as [[[[[n a] e] c] rest]|err] eqn:Ef;
    [|discriminate].
  destruct (match expected with Some x => _ | None => _ end); [|discriminate].
  destruct e.
  - by injection E as <-.
  - destruct (xml.build _ _ _ _ _) as [[root rest']|err] eqn:Eb; [|discriminate].
    injection E as <-.
    by apply build_root in Eb as (kids & cl & -> & _ & H).
Qed.

(** What is read under the limit is read the same without it. *)
Lemma build_unlimited toks : forall stk cur tail x,
  xml.build xml.Unmarshalled stk cur toks tail = xml.Ok x ->
  xml.build xml.Skipped stk cur toks tail = xml.Ok x.
Proof.
  induction toks as [|[t c] toks IH]; intros stk cur tail x E; [discriminate|].
  cbn [xml.build] in *. destruct t as [n a e|n|d| |tg i|]; try by apply IH.
  - destruct (xml.refused xml.Unmarshalled _); [discriminate|].
    cbn [xml.refused]. destruct e; by apply IH.
  - destruct cur as [[[n0 a0] c0] ks]. destruct (xml.sameName n0 n); [|discriminate].
    destruct stk; [done | by apply IH].
Qed.

Lemma decode_unlimited expected data it :
  xml.decode U xml.Unmarshalled expected data = xml.Ok it ->
  xml.decode U xml.Skipped expected data = xml.Ok it.
Proof.
  unfold xml.decode.
  destruct (xml.findStart _ _) as [[[[[n a] e] c] rest]|err]; [|done].
  destruct (match expected with Some x => _ | None => _ end); [|done].
  destruct e; [done|].
  destruct (xml.build xml.Unmarshalled _ _ _ _) as [[root rest']|err] eqn:Eb;
    [|discriminate].
  by rewrite (build_unlimited _ _ _ _ _ Eb).
Qed.

(** The name asked for is checked first; apart from it the decoder does
    the same whatever the struct. *)
Lemma decode_expected how x data it :
  xml.decode U how None data = xml.Ok it ->
  xml.decode U how (Some x) data =
    if String.eqb x (xml.Local (itemName it)) then xml.Ok it
    else xml.Err xml.UnmarshalError.
Proof.
  unfold xml.decode. intros E.
  destruct (xml.findStart _ _) as [[[[[n a] e] c] rest]|err] eqn:Ef;
    [|discriminate].
  destruct e.
  - injection E as <-. reflexivity.
  - destruct (xml.build _ _ _ _ _) as [[root rest']|err] eqn:Eb; [|discriminate].
    injection E as <-.
    apply build_root in Eb as (kids & cl & -> & _). reflexivity.
Qed.

Lemma decode_expected_err how x data e :
  xml.decode U how None data = xml.Err e ->
  xml.decode U how (Some x) data = xml.Err e \/
  xml.decode U how (Some x) data = xml.Err xml.UnmarshalError.
Proof.
  unfold xml.decode. intros E.
  destruct (xml.findStart _ _) as [[[[[n a] b] c] rest]|err] eqn:Ef; [|by left].
  destruct (String.eqb x (xml.Local n)); [|by right].
  destruct b; [discriminate|].
  destruct (xml.build _ _ _ _ _) as [[root rest']|err]; [discriminate|by left].
Qed.

(** The decoder never answers with the budget marker. *)
Lemma decode_fuel how expected data :
  xml.decode U how expected data <> xml.Err xml.errFuel.
Proof.
  unfold xml.decode. pose proof (tokens_fuel U data) as Ht.
  destruct (xml.tokens U data) as [toks tail]. simpl in *.
  assert (Hfs : forall toks', xml.findStart toks' tail <> xml.Err xml.errFuel).
  { induction toks' as [|[t c] toks' IH]; simpl; [congruence|].
    destruct t; try done. }
  assert (Hb : forall toks' stk cur,
             xml.build how stk cur toks' tail <> xml.Err xml.errFuel).
  { induction toks' as [|[t c] toks' IH]; intros stk cur; simpl.
    - destruct tail; congruence.
    - destruct t as [n a e|n|d| |tg i|]; try apply IH.
      + destruct (xml.refused how (S (length stk))); [done|].
        destruct e; apply IH.
      + destruct cur as [[[n0 a0] c0] ks]. destruct (xml.sameName n0 n); [|done].
        destruct stk; [done|apply IH]. }
  destruct (xml.findStart toks tail) as [[[[[n a] e] c] rest]|err] eqn:Ef.
  - destruct (match expected with Some x => _ | None => _ end); [|done].
    destruct e; [done|].
    specialize (Hb rest [] (n, a, c, [])).
    destruct (xml.build _ _ _ _ _) as [[root rest']|err]; [done|congruence].
  - specialize (Hfs toks). congruence.
Qed.

Lemma tokens_head s t c T e :
  xml.tokens U s = ((t, c) :: T, e) -> exists r, xml.rawToken U s = xml.Ok (t, r).
Proof.
  intros E. destruct (xml.rawToken U s) as [[t' r]|e'] eqn:Er.
  - destruct (tokens_step _ _ _ _ Er) as (c' & _ & _ & Et).
    rewrite Et in E. injection E as -> _ _ _. by exists r.
  - rewrite (tokens_stop _ _ _ Er) in E. discriminate.
Qed.

Lemma tokens_nonempty s : Forall (fun tc => snd tc <> []) (fst (xml.tokens U s)).
Proof.
  remember (length s) as k eqn:Hk. revert s Hk.
  induction k as [k IH] using lt_wf_ind. intros s ->.
  destruct (xml.rawToken U s) as [[t r]|e] eqn:Er.
  - pose proof (rawToken_shrinks _ _ _ _ Er) as Hlt.
    destruct (tokens_step _ _ _ _ Er) as (c & _ & Hc & Et).
    rewrite Et. simpl. constructor; [exact Hc|]. by eapply IH.
  - rewrite (tokens_stop _ _ _ Er). constructor.
Qed.

Lemma root_open X :
  xml.rawToken U (B "<root>" ++ X) = xml.Ok (xml.StartElement rootTag [] false, X).
Proof. vm_compute. reflexivity. Qed.

Lemma root_close :
  xml.tokens U (B "</root>") = ([(xml.EndElement rootTag, B "</root>")], xml.io_EOF).
Proof. vm_compute. reflexivity. Qed.

(** The bytes between the tags of an element of the input, wrapped in
    [<root>] and [</root>], are read as the same tokens again. *)
Lemma tokens_wrap data T1 kids n cl T3 e :
  xml.tokens U data = (T1 ++ flat_map flatten kids ++ (xml.EndElement n, cl) :: T3, e) ->
  xml.tokens U (B "<root>" ++ flat_map xml.raw kids ++ B "</root>") =
    ((xml.StartElement rootTag [] false, B "<root>") ::
       flat_map flatten kids ++ [(xml.EndElement rootTag, B "</root>")],
     xml.io_EOF).
Proof.
  intros E.
  apply tokens_reads in E as (r1 & _ & E).
  apply tokens_reads in E as (r2 & Hreads & E).
  apply tokens_head in E as (r3 & E). apply rawToken_tag in E.
  apply (reads_move _ _ _ _ (B "</root>")) in Hreads;
    [|unfold agree; by rewrite E].
  pose proof (reads_tokens _ _ _ _ _ _ Hreads root_close) as Ht.
  rewrite spans_flat in Ht.
  destruct (tokens_step _ _ _ _ (root_open (flat_map xml.raw kids ++ B "</root>")))
    as (c & Hc & _ & Et).
  apply app_inv_tail in Hc. subst c. rewrite Et, Ht. reflexivity.
Qed.

Lemma decode_wrap data T1 kids n cl T3 e :
  xml.tokens U data = (T1 ++ flat_map flatten kids ++ (xml.EndElement n, cl) :: T3, e) ->
  xml.decode U xml.Unmarshalled (Some "root")
      (B "<root>" ++ flat_map xml.raw kids ++ B "</root>") =
    if forallb (admits xml.Unmarshalled 1) kids
    then xml.Ok (xml.Elem rootTag [] (B "<root>") kids (B "</root>"))
    else xml.Err xml.errUnmarshalDepth.
Proof.
  intros E. unfold xml.decode. rewrite (tokens_wrap _ _ _ _ _ _ _ E).
  cbn [fst snd xml.findStart String.eqb Ascii.eqb Bool.eqb xml.Local rootTag].
  rewrite build_kids. by destruct (forallb _ kids).
Qed.

Lemma B_app a b : B (a +:+ b) = B a ++ B b.
Proof. unfold B. induction a as [|c a IH]; simpl; [reflexivity|by rewrite IH]. Qed.

Lemma B_string s : B (string_of_list_ascii s) = s.
Proof. apply list_ascii_of_string_of_list_ascii. Qed.

Lemma fold_bodyOf env kids b0 :
  Body_Content (fold_left (bodyOf env) kids b0) =
    match last (filter (isElement "Body") kids) with
    | Some b => xml.innerXML b
    | None => Body_Content b0
    end.
Proof.
  induction kids as [|k kids IH] using rev_ind; [reflexivity|].
  rewrite fold_left_app, filter_app. simpl. unfold bodyOf at 1.
  rewrite filter_cons, filter_nil.
  destruct (isElement "Body" k) eqn:Hk.
  - rewrite decide_True by done. rewrite last_snoc.
    destruct k; try discriminate; reflexivity.
  - rewrite decide_False by (simpl; tauto). rewrite app_nil_r. exact IH.
Qed.

Lemma flatten_nonempty_raw it :
  Forall (fun tc => snd tc <> []) (flatten it) -> xml.raw it <> [].
Proof.
  intros H. destruct it as [n a o kids c|n a r|d r|m r]; simpl in *;
    inversion H as [|? ? H1 _]; subst; simpl in *; try done.
  by destruct o.
Qed.

Lemma raw_nil_kids kids :
  Forall (fun tc => snd tc <> []) (flat_map flatten kids) ->
  flat_map xml.raw kids = [] -> kids = [].
Proof.
  destruct kids as [|k kids]; [done|]. simpl. intros H E.
  apply Forall_app in H as [H _]. apply flatten_nonempty_raw in H.
  apply app_eq_nil in E as [E _]. contradiction.
Qed.

(** [getBodyChildren] on an input whose root element is an [Envelope]:
    the children of the last [Body] element are unmarshalled from its
    inner bytes, with no name space binding in force. *)
Lemma getBodyChildren_decoded data it :
  xml.decode U xml.Skipped (Some "Envelope") data = xml.Ok it ->
  getBodyChildren U data =
    bodyResult (last (filter (isElement "Body") (xml.kidsOf it))).
Proof.
  intros E. unfold getBodyChildren, unmarshalEnvelope. rewrite E.
  cbn [Envelope_Body]. rewrite fold_bodyOf. cbn [Body_Content].
  destruct (last _) as [b|] eqn:Hlast; [|reflexivity].
  apply last_Some in Hlast as (l' & Hl).
  assert (Hin : b ∈ filter (isElement "Body") (xml.kidsOf it)).
  { rewrite Hl. apply elem_of_app. right. by apply list_elem_of_singleton. }
  apply list_elem_of_filter in Hin as [Hb Hin].
  apply list_elem_of_split in Hin as (k1 & k2 & Hk).
  destruct b as [nb ab ob kb cb|nb ab rb|d r|m r]; try done.
  apply decode_inv in E as (_ & _ & pre & post & Htok).
  destruct it as [n a o kids cl| | |]; simpl in Hk; try by destruct k1.
  subst kids.
  assert (Htok' : fst (xml.tokens U data) =
    (pre ++ (xml.StartElement n a false, o) :: flat_map flatten k1 ++
       [(xml.StartElement nb ab false, ob)]) ++
    flat_map flatten kb ++
    (xml.EndElement nb, cb) :: flat_map flatten k2 ++ (xml.EndElement n, cl) :: post).
  { rewrite Htok. cbn [flatten]. rewrite flat_map_app. cbn [flat_map flatten].
    repeat (rewrite <- ?app_assoc, <- ?app_comm_cons). reflexivity. }
  clear Htok.
  pose proof (tokens_nonempty data) as Hne. rewrite Htok' in Hne.
  apply Forall_app in Hne as [_ Hne]. apply Forall_app in Hne as [Hne _].
  unfold bodyResult. cbn [xml.innerXML xml.kidsOf].
  destruct (flat_map xml.raw kb) as [|b0 inner] eqn:Hraw.
  - by apply raw_nil_kids in Hraw as ->.
  - cbn [length Nat.eqb].
    change (list_ascii_of_string ?x) with (B x).
    rewrite !B_app, B_string, <- Hraw.
    destruct (xml.tokens U data) as [toks e] eqn:Et. simpl in Htok'. subst toks.
    unfold unmarshalWrapper. erewrite decode_wrap; [|exact Et].
    destruct (forallb _ kb); [|reflexivity].
    cbn [xml.kidsOf innerEnv wrapper_Nodes]. unfold xml.declare. simpl fold_left.
    destruct (flat_map (nodesOf []) kb); reflexivity.
Qed.

(** *** From items to nodes *)

Lemma translate_Local env b n : xml.Local (xml.translate env b n) = xml.Local n.
Proof. unfold xml.translate. repeat case_match; reflexivity. Qed.

Lemma nodesOf_elem env it :
  isElem it = true ->
  exists nd, nodesOf env it = [nd] /\ Name nd = xml.Local (itemName it) /\
    Nodes nd = flat_map (nodesOf (innerEnv env it)) (xml.kidsOf it).
Proof.
  destruct it as [n a o kids c|n a r|d r|m r]; try discriminate; intros _.
  - eexists. split; [reflexivity|]. split; [apply translate_Local|reflexivity].
  - eexists. split; [reflexivity|]. split; [apply translate_Local|reflexivity].
Qed.

Lemma nodesOf_other env it : isElem it = false -> nodesOf env it = [].
Proof. by destruct it. Qed.

Lemma isElement_elem x it :
  isElement x it = isElem it && String.eqb x (xml.Local (itemName it)).
Proof. by destruct it. Qed.

Lemma filter_nodes env x kids :
  filter (fun n => Name n = x) (flat_map (nodesOf env) kids) =
  flat_map (nodesOf env) (filter (isElement x) kids).
Proof.
  induction kids as [|k kids IH]; [reflexivity|].
  cbn [flat_map]. rewrite filter_app, IH, filter_cons.
  rewrite isElement_elem. destruct (isElem k) eqn:Hk.
  - destruct (nodesOf_elem env k Hk) as (nd & Hnd & Hname & _).
    rewrite Hnd, filter_cons, filter_nil, Hname. cbn [andb].
    destruct (String.eqb_spec x (xml.Local (itemName k))) as [->|Hne].
    + rewrite !decide_True by done. cbn [flat_map]. by rewrite Hnd.
    + rewrite decide_False by congruence. by rewrite decide_False by (simpl; tauto).
  - rewrite (nodesOf_other _ _ Hk), filter_nil. cbn [andb].
    by rewrite decide_False by (simpl; tauto).
Qed.

Lemma localView_nodesOf it : forall e1 e2,
  map localView (nodesOf e1 it) = map localView (nodesOf e2 it).
Proof.
  induction it as [n a o kids c IH|n a r|d r|m r] using Item_induction;
    intros e1 e2; try reflexivity.
  - cbn [nodesOf map localView]. rewrite !translate_Local. do 2 f_equal.
    + rewrite !map_map. apply map_ext. intros at'. simpl.
      by rewrite !translate_Local.
    + generalize (xml.declare a e1) (xml.declare a e2). intros f1 f2.
      induction IH as [|k kids Hk _ IHk]; [reflexivity|].
      cbn [flat_map]. rewrite !map_app. by rewrite (Hk f1 f2), IHk.
  - cbn [nodesOf map localView]. rewrite !translate_Local. do 2 f_equal.
    rewrite !map_map. apply map_ext. intros at'. simpl.
    by rewrite !translate_Local.
Qed.

Lemma localView_kids e1 e2 kids :
  map localView (flat_map (nodesOf e1) kids) =
  map localView (flat_map (nodesOf e2) kids).
Proof.
  induction kids as [|k kids IH]; [reflexivity|].
  cbn [flat_map]. rewrite !map_app. by rewrite (localView_nodesOf k e1 e2), IH.
Qed.

Lemma unmarshalNode_inv data root :
  unmarshalNode U data = xml.Ok root ->
  exists it, xml.decode U xml.Unmarshalled None data = xml.Ok it /\
    isElem it = true /\ nodesOf [] it = [root].
Proof.
  unfold unmarshalNode. intros E.
  destruct (xml.decode U xml.Unmarshalled None data) as [it|e] eqn:Ed; [|discriminate].
  injection E as <-. exists it. split; [reflexivity|].
  apply decode_inv in Ed as (Hel & _). split; [exact Hel|].
  destruct (nodesOf_elem [] it Hel) as (nd & -> & _). reflexivity.
Qed.

(** The one [Body] node of an envelope comes from its one [Body] item. *)
Lemma body_item env kids body :
  filter (fun n => Name n = "Body") (flat_map (nodesOf env) kids) = [body] ->
  exists bi, last (filter (isElement "Body") kids) = Some bi /\
    isElem bi = true /\ nodesOf env bi = [body].
Proof.
  rewrite filter_nodes.
  assert (H : Forall (fun it => isElem it = true) (filter (isElement "Body") kids)).
  { apply Forall_forall. intros it Hit. apply list_elem_of_filter in Hit as [Hit _].
    rewrite isElement_elem in Hit. by destruct (isElem it). }
  destruct (filter (isElement "Body") kids) as [|b1 [|b2 l]]; [discriminate| |].
  - intros E. exists b1. inversion H; subst. cbn [flat_map] in E.
    rewrite app_nil_r in E. done.
  - inversion H as [|? ? H1 H']; subst. inversion H' as [|? ? H2 _]; subst.
    intros E. cbn [flat_map] in E.
    destruct (nodesOf_elem env b1 H1) as (n1 & E1 & _).
    destruct (nodesOf_elem env b2 H2) as (n2 & E2 & _).
    rewrite E1, E2 in E. discriminate.
Qed.

(** The children of a [Body] of an envelope that was unmarshalled into
    nodes are within the limit when they are read again, one level higher
    up. *)
Lemma last_admitted kids x b :
  forallb (admits xml.Unmarshalled 1) kids = true ->
  last (filter (isElement x) kids) = Some b ->
  forallb (admits xml.Unmarshalled 1) (xml.kidsOf b) = true.
Proof.
  intros H Hlast. apply last_Some in Hlast as (l' & Hl).
  assert (Hin : b ∈ filter (isElement x) kids).
  { rewrite Hl. apply elem_of_app. right. by apply list_elem_of_singleton. }
  apply list_elem_of_filter in Hin as [_ Hin].
  apply admits_kids. apply list_elem_of_In in Hin.
  by apply (proj1 (forallb_forall _ _) H).
Qed.

(** The extractor on an envelope with one [Body]: the nodes that
    [getBodyChildren] builds from the inner bytes are, name spaces apart,
    the child nodes of the [Body] in the document. *)
Lemma getBodyChildren_envelope data root body :
  unmarshalNode U data = xml.Ok root ->
  Name root = "Envelope" ->
  filter (fun n => Name n = "Body") (Nodes root) = [body] ->
  exists nodes,
    map localView nodes = map localView (Nodes body) /\
    getBodyChildren U data =
      match nodes with
      | [] => ([], Some ErrBodyElementEmpty)
      | _ => (nodes, None)
      end.
Proof.
  intros Hroot Hname Hbody.
  apply unmarshalNode_inv in Hroot as (it & Hd & Hel & Hn).
  destruct (nodesOf_elem [] it Hel) as (nd & Hnd & Hnm & Hkids).
  rewrite Hn in Hnd. injection Hnd as <-.
  rewrite Hkids in Hbody. apply body_item in Hbody as (bi & Hlast & Hbel & Hbi).
  destruct (nodesOf_elem (innerEnv [] it) bi Hbel) as (nb & Hnb & _ & Hbk).
  rewrite Hbi in Hnb. injection Hnb as <-.
  exists (flat_map (nodesOf []) (xml.kidsOf bi)). split.
  { rewrite Hbk. apply localView_kids. }
  pose proof (decode_admits _ _ _ _ Hd) as Hfit.
  apply decode_unlimited in Hd.
  rewrite (getBodyChildren_decoded data it).
  - rewrite Hlast. unfold bodyResult.
    rewrite (last_admitted _ _ _ Hfit Hlast).
    by destruct (flat_map (nodesOf []) (xml.kidsOf bi)).
  - rewrite (decode_expected _ _ _ _ Hd), <- Hnm, Hname. reflexivity.
Qed.

(** *** Names of the nodes *)

Lemma nsname_inv s n r :
  xml.nsname U s = xml.Ok (Some n, r) ->
  exists tag, n = xml.splitName tag /\ xml.isName U tag = true.
Proof.
  unfold xml.nsname, xml.name. intros E.
  apply bind_Ok in E as (on & m & E1 & E).
  apply bind_Ok in E1 as (on' & m' & _ & E1).
  destruct on' as [tag|]; [|injection E1 as <- <-; discriminate].
  destruct (xml.isName U tag) eqn:Hn; [|discriminate].
  injection E1 as <- <-.
  destruct (1 <? xml.colons tag)%nat; [discriminate|].
  injection E as <- _. by exists tag.
Qed.

Lemma startTag_name s t r : xml.startTag U s = xml.Ok (t, r) -> tagName U t.
Proof.
  unfold xml.startTag. intros E. apply bind_Ok in E as (on & m & E1 & E).
  destruct on as [n|]; [|discriminate].
  apply bind_Ok in E as (x & m' & _ & E). injection E as <- _.
  by apply nsname_inv in E1.
Qed.

Lemma endTag_name s t r : xml.endTag U s = xml.Ok (t, r) -> tagName U t.
Proof.
  unfold xml.endTag. intros E. apply bind_Ok in E as (on & m & _ & E).
  destruct on as [n|]; [|discriminate].
  apply bind_Ok in E as (x & m' & _ & E).
  apply bind_Ok in E as (b & m'' & _ & E).
  destruct (b =? ">")%char; [|discriminate]. by injection E as <- _.
Qed.

Lemma procInstTag_name s t r : xml.procInstTag U s = xml.Ok (t, r) -> tagName U t.
Proof.
  unfold xml.procInstTag. intros E. apply bind_Ok in E as (on & m & _ & E).
  destruct on as [n|]; [|discriminate].
  apply bind_Ok in E as (x & m' & _ & E).
  apply bind_Ok in E as (d & m'' & _ & E).
  destruct (if String.eqb _ "xml" then _ else _); [discriminate|].
  by injection E as <- _.
Qed.

Lemma bangTag_name s t r : xml.bangTag U s = xml.Ok (t, r) -> tagName U t.
Proof.
  unfold xml.bangTag. intros E. apply bind_Ok in E as (b & m & _ & E).
  destruct (b =? "-")%char.
  - apply bind_Ok in E as (c & m' & _ & E). destruct (c =? "-")%char; [|discriminate].
    apply bind_Ok in E as (x & m'' & _ & E). by injection E as <- _.
  - destruct (b =? "[")%char.
    + apply bind_Ok in E as (x & m' & _ & E).
      apply bind_Ok in E as (d & m'' & _ & E). by injection E as <- _.
    + apply bind_Ok in E as (x & m' & _ & E). by injection E as <- _.
Qed.

Lemma rawToken_name s t r : xml.rawToken U s = xml.Ok (t, r) -> tagName U t.
Proof.
  unfold xml.rawToken. intros E. apply bind_Ok in E as (ob & m & _ & E).
  destruct ob as [b|]; [|discriminate].
  destruct (negb (b =? "<")%char).
  - apply bind_Ok in E as (d & m' & _ & E). by injection E as <- _.
  - apply bind_Ok in E as (x & m' & _ & E).
    apply bind_Ok in E as (oc & m'' & _ & E).
    destruct oc as [c|]; [|discriminate].
    destruct (c =? "/")%char.
    { apply bind_Ok in E as (y & m3 & _ & E). by apply endTag_name in E. }
    destruct (c =? "?")%char.
    { apply bind_Ok in E as (y & m3 & _ & E). by apply procInstTag_name in E. }
    destruct (c =? "!")%char.
    { apply bind_Ok in E as (y & m3 & _ & E). by apply bangTag_name in E. }
    by apply startTag_name in E.
Qed.

End Extractor.

(** ** A [Body] of white space *)

Section Blank.
Variable U : xml.Tables.

Lemma blank_cases c : blank c = true -> c = " "%char \/ c = byte_of 10 \/ c = byte_of 9.
Proof.
  unfold blank, code. intros H. apply orb_true_iff in H as [H|H].
  - apply orb_true_iff in H as [H|H].
    + left. by apply Ascii.eqb_eq.
    + right. left. apply N.eqb_eq in H. rewrite <- (ascii_N_embedding c), H. reflexivity.
  - right. right. apply N.eqb_eq in H. rewrite <- (ascii_N_embedding c), H. reflexivity.
Qed.

Lemma textLoop_blank ws : forall f b0 b1 buf r,
  forallb blank ws = true -> (code b1 =? 13) = false ->
  (length (ws ++ "<"%char :: r) < f)%nat ->
  xml.loop (xml.textStep U None false) f (b0, b1, buf) (ws ++ "<"%char :: r) =
    xml.Ok (buf ++ ws, "<"%char :: r).
Proof.
  induction ws as [|c ws IH]; intros f b0 b1 buf r Hws Hb1 Hf;
    (destruct f as [|f]; [simpl in Hf; lia|]).
  - cbn [app xml.loop]. unfold xml.textStep, xml.bind, xml.peekc. cbn [head].
    rewrite andb_false_r. cbn. by rewrite app_nil_r.
  - cbn [forallb] in Hws. apply andb_true_iff in Hws as [Hc Hws].
    cbn [app xml.loop]. 
    assert (Hstep : xml.textStep U None false (b0, b1, buf) (c :: ws ++ "<"%char :: r) =
                    xml.Ok (inl (b1, c, buf ++ [c]), ws ++ "<"%char :: r)).
    { unfold xml.textStep, xml.bind, xml.peekc. cbn [head].
      destruct (blank_cases c Hc) as [->|[->| ->]];
        rewrite andb_false_r; cbn; unfold xml.writeByte; cbn; by rewrite ?Hb1. }
    rewrite Hstep. rewrite IH.
    + by rewrite <- app_assoc.
    + exact Hws.
    + by destruct (blank_cases c Hc) as [->|[->| ->]].
    + simpl in Hf. lia.
Qed.

Lemma validText_blank ws : forallb blank ws = true -> xml.validText U ws = true.
Proof.
  intros H. unfold xml.validText.
  assert (H1 : forallb isASCII ws = true /\ forallb xml.asciiCharOK ws = true).
  { induction ws as [|c ws IH]; [done|]. cbn [forallb] in *.
    apply andb_true_iff in H as [Hc Hws]. destruct (IH Hws) as [-> ->].
    by destruct (blank_cases c Hc) as [->|[->| ->]]. }
  destruct H1 as [-> ->]. reflexivity.
Qed.

Lemma text_blank ws r :
  forallb blank ws = true ->
  xml.text U None false (ws ++ "<"%char :: r) = xml.Ok (ws, "<"%char :: r).
Proof.
  intros H. unfold xml.text, xml.bind, xml.iterate.
  rewrite textLoop_blank; [|exact H|reflexivity|lia].
  cbn [app]. by rewrite (validText_blank _ H).
Qed.

Lemma rawToken_blank c ws r :
  forallb blank (c :: ws) = true ->
  xml.rawToken U ((c :: ws) ++ "<"%char :: r) =
    xml.Ok (xml.CharData (c :: ws), "<"%char :: r).
Proof.
  intros H. unfold xml.rawToken, xml.bind at 1, xml.peekc.
  replace (head ((c :: ws) ++ "<"%char :: r)) with (Some c) by reflexivity.
  assert (Hc : (c =? "<")%char = false).
  { cbn [forallb] in H. apply andb_true_iff in H as [Hc _].
    by destruct (blank_cases c Hc) as [->|[->| ->]]. }
  rewrite Hc. cbn [negb]. unfold xml.bind. by rewrite (text_blank _ _ H).
Qed.

(** An envelope whose [Body] holds white space only. *)
Lemma tokens_blankEnvelope c ws :
  forallb blank (c :: ws) = true ->
  xml.tokens U (blankEnvelope (c :: ws)) =
    ([(xml.StartElement (xml.mkName "" "Envelope") [] false, B "<Envelope>");
      (xml.StartElement (xml.mkName "" "Body") [] false, B "<Body>");
      (xml.CharData (c :: ws), c :: ws);
      (xml.EndElement (xml.mkName "" "Body"), B "</Body>");
      (xml.EndElement (xml.mkName "" "Envelope"), B "</Envelope>")],
     xml.io_EOF).
Proof.
  intros H. unfold blankEnvelope.
  assert (E5 : xml.tokens U (B "</Envelope>") =
               ([(xml.EndElement (xml.mkName "" "Envelope"), B "</Envelope>")],
                xml.io_EOF)) by (vm_compute; reflexivity).
  assert (E4 : forall X, xml.rawToken U (B "</Body>" ++ X) =
               xml.Ok (xml.EndElement (xml.mkName "" "Body"), X))
    by (intros X; vm_compute; reflexivity).
  assert (E2 : forall X, xml.rawToken U (B "<Body>" ++ X) =
               xml.Ok (xml.StartElement (xml.mkName "" "Body") [] false, X))
    by (intros X; vm_compute; reflexivity).
  assert (E1 : forall X, xml.rawToken U (B "<Envelope>" ++ X) =
               xml.Ok (xml.StartElement (xml.mkName "" "Envelope") [] false, X))
    by (intros X; vm_compute; reflexivity).
  apply (reads_tokens U
           [(xml.StartElement (xml.mkName "" "Envelope") [] false, B "<Envelope>");
            (xml.StartElement (xml.mkName "" "Body") [] false, B "<Body>");
            (xml.CharData (c :: ws), c :: ws);
            (xml.EndElement (xml.mkName "" "Body"), B "</Body>")]
           _ (B "</Envelope>")
           [(xml.EndElement (xml.mkName "" "Envelope"), B "</Envelope>")]
           xml.io_EOF); [|exact E5].
  change (B "<Envelope><Body>") with (B "<Envelope>" ++ B "<Body>").
  change (B "</Body></Envelope>") with (B "</Body>" ++ B "</Envelope>").
  rewrite <- !app_assoc.
  constructor; [apply E1|]. constructor; [apply E2|].
  rewrite (app_assoc (c :: ws)).
  change (B "</Body>" ++ B "</Envelope>")
    with ("<"%char :: (B "/Body>" ++ B "</Envelope>")).
  rewrite <- app_assoc.
  constructor; [by apply rawToken_blank|].
  change ("<"%char :: (B "/Body>" ++ B "</Envelope>"))
    with (B "</Body>" ++ B "</Envelope>").
  constructor; [apply E4|]. constructor.
Qed.

(** A [Body] that holds nothing but spaces, tabs and line feeds, however
    many: the extractor answers [ErrBodyElementEmpty]. *)
Lemma getBodyChildren_blank_body ws :
  forallb blank ws = true ->
  getBodyChildren U (blankEnvelope ws) = ([], Some ErrBodyElementEmpty).
Proof.
  intros H. destruct ws as [|c ws]; [vm_compute; reflexivity|].
  rewrite (getBodyChildren_decoded U _
    (xml.Elem (xml.mkName "" "Envelope") [] (B "<Envelope>")
       [xml.Elem (xml.mkName "" "Body") [] (B "<Body>")
          [xml.Data (c :: ws) (c :: ws)] (B "</Body>")]
       (B "</Envelope>"))).
  - vm_compute. reflexivity.
  - unfold xml.decode. rewrite (tokens_blankEnvelope c ws H). reflexivity.
Qed.

End Blank.

(** * What the decoder reads, and from where *)

(** ** Tags do not look ahead

    A start tag and an end tag are read up to their [>] and no further,
    whereas text is read up to the [<] that follows it. *)

Module Reach.
Import xml.

Lemma agree_front c r r' : c <> [] -> agree (c ++ r) (c ++ r').
Proof. by destruct c. Qed.

Lemma Quiet_ret {A} (x : A) : Quiet (ret x).
Proof. left. by exists x. Qed.

Lemma Quiet_fail {A} e : Quiet (@fail A e).
Proof. right. by exists e. Qed.

Lemma Closed_fail {A} (P : A -> Prop) e : Closed P (fail e).
Proof. intros s x r E. discriminate. Qed.

Lemma Closed_ret {A} (P : A -> Prop) x : ~ P x -> Closed P (ret x).
Proof. intros H s y r E Hy. injection E as <- <-. contradiction. Qed.

Lemma Closed_getc {A} (P : A -> Prop) (k : ascii -> scanner A) :
  (forall b, Quiet (k b)) -> Closed P (bind mustgetc k).
Proof.
  intros Hk [|b s] x r E _; [discriminate|].
  unfold bind in E. simpl in E.
  destruct (Hk b) as [(y & Hy)|(e & He)].
  - rewrite Hy in E. injection E as <- <-. exists [b].
    split; [discriminate|]. split; [reflexivity|]. intros r'.
    unfold bind. simpl. by rewrite Hy.
  - rewrite He in E. discriminate.
Qed.

Lemma Closed_bind {A C} (P : C -> Prop) (f : scanner A) (k : A -> scanner C) :
  Good f -> (forall x, Closed P (k x)) -> Closed P (bind f k).
Proof.
  intros [Lf _] Hk s y r E Hy. apply bind_Ok in E as (x & m & Ef & Ek).
  destruct (Lf _ _ _ Ef) as (c1 & -> & H1).
  destruct (Hk x _ _ _ Ek Hy) as (c2 & Hc2 & -> & H2).
  exists (c1 ++ c2). split; [by destruct c1, c2|]. split; [by rewrite app_assoc|].
  intros r'. unfold bind. rewrite <- app_assoc.
  rewrite (H1 (c2 ++ r')); [|by apply agree_front]. apply H2.
Qed.

Lemma Closed_then {A C} (P : C -> Prop) (f : scanner A) (k : A -> scanner C) :
  Closed (fun _ => True) f -> (forall x, Quiet (k x)) -> Closed P (bind f k).
Proof.
  intros Hf Hk s y r E _. apply bind_Ok in E as (x & m & Ef & Ek).
  destruct (Hf _ _ _ Ef I) as (c & Hc & -> & H).
  destruct (Hk x) as [(z & Hz)|(e & He)].
  - rewrite Hz in Ek. injection Ek as <- <-. exists c. split; [exact Hc|].
    split; [reflexivity|]. intros r'. unfold bind. by rewrite H, Hz.
  - rewrite He in Ek. discriminate.
Qed.

Section Loop.
Context {S A : Type} (body : S -> scanner (S + A)).
Hypothesis body_good : forall st, Good (body st).
Hypothesis body_adv : forall st, Advances (body st).
Hypothesis body_closed : forall st, Closed isBreak (body st).

Lemma loop_closed fuel : forall st s a r,
  loop body fuel st s = Ok (a, r) ->
  exists c, c <> [] /\ s = c ++ r /\
    forall r' fuel', (length (c ++ r') < fuel')%nat ->
      loop body fuel' st (c ++ r') = Ok (a, r').
Proof using body_good body_adv body_closed.
  induction fuel as [|fuel IH]; intros st s a r E; [discriminate|].
  simpl in E. destruct (body st s) as [[[st'|a'] m]|e] eqn:Eb; try discriminate.
  - pose proof (body_adv _ _ _ _ Eb) as Hlt.
    destruct (proj1 (body_good st) _ _ _ Eb) as (c1 & -> & H1).
    destruct (IH _ _ _ _ E) as (c2 & Hc2 & -> & H2).
    exists (c1 ++ c2). split; [by destruct c1, c2|]. split; [by rewrite app_assoc|].
    intros r' fuel' Hf. destruct fuel' as [|fuel']; [lia|]. simpl.
    rewrite <- app_assoc. rewrite (H1 (c2 ++ r')); [|by apply agree_front].
    apply H2. rewrite !length_app in Hlt. rewrite !length_app in Hf.
    rewrite length_app. lia.
  - injection E as <- <-.
    destruct (body_closed st _ _ _ Eb I) as (c & Hc & -> & H).
    exists c. split; [exact Hc|]. split; [reflexivity|].
    intros r' fuel' Hf. destruct fuel' as [|fuel']; [lia|]. simpl. by rewrite H.
Qed.

Lemma Closed_iterate (P : A -> Prop) st : Closed P (iterate body st).
Proof using body_good body_adv body_closed.
  intros s a r E _. unfold iterate in E.
  destruct (loop_closed _ _ _ _ _ E) as (c & Hc & -> & H).
  exists c. split; [exact Hc|]. split; [reflexivity|].
  intros r'. unfold iterate. apply H. lia.
Qed.

End Loop.

Ltac quiet :=
  repeat first
    [ apply Quiet_ret | apply Quiet_fail
    | match goal with
      | |- Quiet (match ?x with _ => _ end) => destruct x
      end ].

Ltac closed :=
  repeat first
    [ assumption
    | apply Closed_fail
    | apply Closed_ret; solve [simpl; tauto | discriminate | intros []]
    | apply Closed_getc; intros ?; solve [quiet]
    | apply Closed_bind; [solve [good] | intros ?]
    | match goal with
      | |- Closed _ (match ?x with _ => _ end) => destruct x
      end ].

Section Tags.
Variable U : Tables.

Lemma Closed_attrStep acc : Closed isBreak (attrStep U acc).
Proof. unfold attrStep. closed. Qed.

Lemma Closed_attrLoop acc : Closed (fun _ => True) (iterate (attrStep U) acc).
Proof.
  apply Closed_iterate; intros st.
  - unfold attrStep. good.
  - unfold attrStep. adv.
  - apply Closed_attrStep.
Qed.

Lemma Closed_startTag : Closed (fun t => isTag t = true) (startTag U).
Proof.
  unfold startTag. apply Closed_bind; [good|]. intros [n|]; [|closed].
  apply Closed_then; [apply Closed_attrLoop|]. intros r. quiet.
Qed.

Lemma Closed_endTag : Closed (fun t => isTag t = true) (endTag U).
Proof. unfold endTag. closed. Qed.

Lemma Closed_procInstTag : Closed (fun t => isTag t = true) (procInstTag U).
Proof. unfold procInstTag. closed. Qed.

Lemma Closed_bangTag : Closed (fun t => isTag t = true) (bangTag U).
Proof. unfold bangTag. closed. Qed.

Lemma Closed_rawToken : Closed (fun t => isTag t = true) (rawToken U).
Proof.
  unfold rawToken.
  pose proof Closed_startTag. pose proof Closed_endTag.
  pose proof Closed_procInstTag. pose proof Closed_bangTag.
  closed.
Qed.

End Tags.
End Reach.

Import Reach.

(** ** What the first [Unmarshal] reads *)

Section Decoded.
Variable U : xml.Tables.

Lemma spans_app T1 T2 : spans (T1 ++ T2) = spans T1 ++ spans T2.
Proof. unfold spans. apply flat_map_app. Qed.

Lemma bodyContent_inv data envelope :
  unmarshalEnvelope U data = xml.Ok envelope ->
  exists it, xml.decode U xml.Skipped (Some "Envelope") data = xml.Ok it /\
    Body_Content (Envelope_Body envelope) =
      match last (filter (isElement "Body") (xml.kidsOf it)) with
      | Some b => xml.innerXML b
      | None => []
      end.
Proof.
  unfold unmarshalEnvelope. intros E.
  destruct (xml.decode U xml.Skipped (Some "Envelope") data) as [it|e] eqn:Ed; [|discriminate].
  injection E as <-. exists it. split; [reflexivity|].
  cbn [Envelope_Body]. by rewrite fold_bodyOf.
Qed.

Lemma body_position kids b :
  last (filter (isElement "Body") kids) = Some b ->
  exists k1 k2, kids = k1 ++ b :: k2 /\ isElement "Body" b = true /\
    filter (isElement "Body") k2 = [].
Proof.
  induction kids as [|k kids IH] using rev_ind; [discriminate|].
  rewrite filter_app, filter_cons, filter_nil.
  destruct (isElement "Body" k) eqn:Hk.
  - rewrite decide_True by done. rewrite last_snoc. intros E. injection E as ->.
    exists kids, []. by rewrite filter_nil.
  - rewrite decide_False by (simpl; tauto). rewrite app_nil_r.
    intros E. destruct (IH E) as (k1 & k2 & -> & Hb & Hk2).
    exists k1, (k2 ++ [k]). split; [by rewrite <- app_assoc|]. split; [exact Hb|].
    rewrite filter_app, Hk2, filter_cons, filter_nil.
    rewrite decide_False; [done|]. rewrite Hk. simpl. tauto.
Qed.

Lemma reads_nonempty T s r : reads U T s r -> Forall (fun tc => snd tc <> []) T.
Proof.
  induction 1 as [|t c T s r E H IH]; constructor; [|exact IH].
  simpl. intros ->. apply rawToken_shrinks in E. simpl in E. lia.
Qed.

Lemma spans_nonempty T : T <> [] -> Forall (fun tc => snd tc <> []) T -> spans T <> [].
Proof.
  destruct T as [|[t c] T]; [done|]. intros _ H. inversion H as [|? ? Hc _]; subst.
  unfold spans. simpl in *. by destruct c.
Qed.

(** Tokens that end in a tag are read again from their own bytes in front
    of any input. *)
Lemma reads_closed T : forall t c s r,
  reads U (T ++ [(t, c)]) s r -> isTag t = true ->
  forall r', reads U (T ++ [(t, c)]) (spans (T ++ [(t, c)]) ++ r') r'.
Proof.
  induction T as [|[t0 c0] T IH]; intros t c s r H Ht r'.
  - inversion H as [|? ? ? s1 ? E H1]; subst. inversion H1; subst.
    destruct (Closed_rawToken U _ _ _ E Ht) as (c' & _ & Hc & Hmove).
    apply app_inv_tail in Hc. subst c'.
    unfold spans. simpl. rewrite app_nil_r. constructor; [apply Hmove | constructor].
  - simpl in H. inversion H as [|? ? ? s1 ? E H1]; subst.
    pose proof (IH _ _ _ _ H1 Ht r') as IH'.
    change (spans (((t0, c0) :: T) ++ [(t, c)]) ++ r')
      with ((c0 ++ spans (T ++ [(t, c)])) ++ r').
    rewrite <- app_assoc. simpl. constructor; [|exact IH'].
    destruct (rawToken_local U _ _ _ E) as (c' & Hc & Hmove).
    apply app_inv_tail in Hc. subst c'. apply Hmove.
    rewrite (reads_spans U _ _ _ H1). apply agree_front.
    apply spans_nonempty; [by destruct T | by apply (reads_nonempty _ _ _ H1)].
Qed.

Lemma findStart_skip pre toks tail :
  Forall (fun tc => isTag (fst tc) = false) pre ->
  xml.findStart (pre ++ toks) tail = xml.findStart toks tail.
Proof.
  induction 1 as [|[t c] pre Ht _ IH]; [reflexivity|].
  simpl in *. destruct t; try discriminate; exact IH.
Qed.

Lemma findStart_pre toks tail n a e c rest :
  xml.findStart toks tail = xml.Ok (n, a, e, c, rest) ->
  exists pre, toks = pre ++ (xml.StartElement n a e, c) :: rest /\
    Forall (fun tc => isTag (fst tc) = false) pre.
Proof.
  induction toks as [|[t c'] toks IH]; intros E; [discriminate|].
  simpl in E. destruct t as [n' a' e'|n'|d| |tg i|]; try discriminate.
  - injection E as <- <- <- <- <-. by exists [].
  - apply IH in E as (pre & -> & H). exists ((xml.CharData d, c') :: pre).
    split; [reflexivity | by constructor].
  - apply IH in E as (pre & -> & H). exists ((xml.Comment, c') :: pre).
    split; [reflexivity | by constructor].
  - apply IH in E as (pre & -> & H). exists ((xml.ProcInst tg i, c') :: pre).
    split; [reflexivity | by constructor].
  - apply IH in E as (pre & -> & H). exists ((xml.Directive, c') :: pre).
    split; [reflexivity | by constructor].
Qed.

(** The tokens that [decode] reads: some tokens that are not tags, then
    those of the root element. *)
Lemma decode_tokens how expected data it :
  xml.decode U how expected data = xml.Ok it ->
  exists pre post,
    fst (xml.tokens U data) = pre ++ flatten it ++ post /\
    Forall (fun tc => isTag (fst tc) = false) pre /\
    isElem it = true /\
    match expected with
    | Some x => String.eqb x (xml.Local (itemName it)) = true
    | None => True
    end.
Proof.
  unfold xml.decode. intros E.
  destruct (xml.findStart _ _) as [[[[[n a] e] c] rest]|err] eqn:Ef;
    [|discriminate].
  apply findStart_pre in Ef as (pre & Hpre & Hskip).
  destruct (match expected with Some x => _ | None => _ end) eqn:Hx; [|discriminate].
  assert (Hx' : match expected with
                | Some x => String.eqb x (xml.Local n) = true
                | None => True
                end) by (by destruct expected).
  destruct e.
  - injection E as <-. exists pre, rest. by rewrite Hpre.
  - destruct (xml.build _ _ _ _ _) as [[root rest']|err] eqn:Eb; [|discriminate].
    injection E as <-.
    apply build_root in Eb as (kids & cl & -> & -> & _).
    exists pre, rest'. rewrite Hpre. simpl. by rewrite <- !app_assoc.
Qed.

(** Conversely, [decode] answers an element as soon as the tokens start
    that way, whatever follows, when the elements in it are within the
    limit. *)
Lemma decode_of_tokens how expected data it pre post :
  fst (xml.tokens U data) = pre ++ flatten it ++ post ->
  Forall (fun tc => isTag (fst tc) = false) pre ->
  isElem it = true ->
  match expected with
  | Some x => String.eqb x (xml.Local (itemName it)) = true
  | None => True
  end ->
  forallb (admits how 1) (xml.kidsOf it) = true ->
  xml.decode U how expected data = xml.Ok it.
Proof.
  intros Ht Hpre Hel Hx Hfit. unfold xml.decode. rewrite Ht, findStart_skip by done.
  destruct it as [n a o kids cl|n a r|d r|m r]; try discriminate; simpl in *.
  - assert (Hx' : match expected with
                  | Some x => String.eqb x (xml.Local n)
                  | None => true
                  end = true) by (by destruct expected).
    rewrite Hx'. rewrite <- app_assoc. simpl. by rewrite build_kids, Hfit.
  - assert (Hx' : match expected with
                  | Some x => String.eqb x (xml.Local n)
                  | None => true
                  end = true) by (by destruct expected).
    by rewrite Hx'.
Qed.

Lemma flatten_last it :
  isElem it = true ->
  exists T t c, flatten it = T ++ [(t, c)] /\ isTag t = true.
Proof.
  destruct it as [n a o kids cl|n a r|d r|m r]; try discriminate; intros _.
  - exists ((xml.StartElement n a false, o) :: flat_map flatten kids),
      (xml.EndElement n), cl. split; [reflexivity | reflexivity].
  - by exists [], (xml.StartElement n a true), r.
Qed.

(** [decode] does not read past the root element: it reads the tokens
    [pre] in front of it, which are not tags, and those of the element,
    from bytes [doc] that give the same in front of any input. *)
Lemma decode_closed how expected data it :
  xml.decode U how expected data = xml.Ok it ->
  exists pre doc rest, data = doc ++ rest /\
    doc = spans (pre ++ flatten it) /\
    Forall (fun tc => isTag (fst tc) = false) pre /\
    forall rest',
      fst (xml.tokens U (doc ++ rest')) =
        pre ++ flatten it ++ fst (xml.tokens U rest') /\
      xml.decode U how expected (doc ++ rest') = xml.Ok it.
Proof.
  intros E. pose proof (decode_admits U _ _ _ _ E) as Hfit.
  apply decode_tokens in E as (pre & post & Ht & Hpre & Hel & Hx).
  destruct (flatten_last it Hel) as (T & t & c & Hf & Htag).
  destruct (xml.tokens U data) as [toks e] eqn:Et. simpl in Ht. subst toks.
  rewrite app_assoc in Et.
  apply tokens_reads in Et as (r & Hr & _).
  exists pre, (spans (pre ++ flatten it)), r.
  split; [by apply (reads_spans U)|]. split; [reflexivity|]. split; [exact Hpre|].
  intros rest'.
  assert (Hr' : reads U (pre ++ flatten it) (spans (pre ++ flatten it) ++ rest') rest').
  { rewrite Hf, app_assoc in Hr |- *. by apply (reads_closed _ _ _ _ _ Hr). }
  destruct (xml.tokens U rest') as [T2 e2] eqn:E2.
  pose proof (reads_tokens U _ _ _ _ _ Hr' E2) as Ht'.
  assert (Ht2 : fst (xml.tokens U (spans (pre ++ flatten it) ++ rest')) =
                pre ++ flatten it ++ T2).
  { rewrite Ht'. simpl. by rewrite <- app_assoc. }
  split; [exact Ht2|].
  by apply (decode_of_tokens _ _ _ _ pre T2).
Qed.

Lemma getBodyChildren_content d1 d2 e1 e2 :
  unmarshalEnvelope U d1 = xml.Ok e1 ->
  unmarshalEnvelope U d2 = xml.Ok e2 ->
  Body_Content (Envelope_Body e1) = Body_Content (Envelope_Body e2) ->
  getBodyChildren U d1 = getBodyChildren U d2.
Proof. intros E1 E2 Hc. unfold getBodyChildren. by rewrite E1, E2, Hc. Qed.

(** The bytes of the children of an element of the input, put into a bare
    envelope, are read as the same tokens again. *)
Lemma tokens_bare data T1 kids n cl T3 e :
  xml.tokens U data = (T1 ++ flat_map flatten kids ++ (xml.EndElement n, cl) :: T3, e) ->
  xml.tokens U (blankEnvelope (flat_map xml.raw kids)) =
    ((xml.StartElement envelopeTag [] false, B "<Envelope>") ::
     (xml.StartElement bodyTag [] false, B "<Body>") ::
       flat_map flatten kids ++
       [(xml.EndElement bodyTag, B "</Body>");
        (xml.EndElement envelopeTag, B "</Envelope>")],
     xml.io_EOF).
Proof.
  intros E.
  apply tokens_reads in E as (r1 & _ & E).
  apply tokens_reads in E as (r2 & Hreads & E).
  apply tokens_head in E as (r3 & E). apply rawToken_tag in E.
  apply (reads_move _ _ _ _ (B "</Body></Envelope>")) in Hreads;
    [|unfold agree; by rewrite E].
  assert (Hclose : xml.tokens U (B "</Body></Envelope>") =
            ([(xml.EndElement bodyTag, B "</Body>");
              (xml.EndElement envelopeTag, B "</Envelope>")], xml.io_EOF))
    by (vm_compute; reflexivity).
  pose proof (reads_tokens _ _ _ _ _ _ Hreads Hclose) as Ht.
  rewrite spans_flat in Ht.
  assert (E1 : forall X, xml.rawToken U (B "<Envelope>" ++ X) =
               xml.Ok (xml.StartElement envelopeTag [] false, X))
    by (intros X; vm_compute; reflexivity).
  assert (E2 : forall X, xml.rawToken U (B "<Body>" ++ X) =
               xml.Ok (xml.StartElement bodyTag [] false, X))
    by (intros X; vm_compute; reflexivity).
  unfold blankEnvelope.
  change (B "<Envelope><Body>") with (B "<Envelope>" ++ B "<Body>").
  rewrite <- app_assoc.
  destruct (tokens_step _ _ _ _ (E1 (B "<Body>" ++ flat_map xml.raw kids ++ B "</Body></Envelope>")))
    as (c1 & Hc1 & _ & Et1).
  apply app_inv_tail in Hc1. subst c1. rewrite Et1.
  destruct (tokens_step _ _ _ _ (E2 (flat_map xml.raw kids ++ B "</Body></Envelope>")))
    as (c2 & Hc2 & _ & Et2).
  apply app_inv_tail in Hc2. subst c2. rewrite Et2, Ht. reflexivity.
Qed.

Lemma decode_bare data T1 kids n cl T3 e :
  xml.tokens U data = (T1 ++ flat_map flatten kids ++ (xml.EndElement n, cl) :: T3, e) ->
  xml.decode U xml.Skipped (Some "Envelope") (blankEnvelope (flat_map xml.raw kids)) =
    xml.Ok (xml.Elem envelopeTag [] (B "<Envelope>")
              [xml.Elem bodyTag [] (B "<Body>") kids (B "</Body>")]
              (B "</Envelope>")).
Proof.
  intros E.
  apply (decode_of_tokens _ _ _ _ [] []);
    [|constructor|reflexivity|reflexivity|apply admits_all_Skipped].
  rewrite (tokens_bare _ _ _ _ _ _ _ E). cbn [fst flatten flat_map app].
  rewrite !app_nil_r. rewrite <- !app_assoc. reflexivity.
Qed.

Lemma unmarshalEnvelope_bare data envelope :
  unmarshalEnvelope U data = xml.Ok envelope ->
  unmarshalEnvelope U (blankEnvelope (Body_Content (Envelope_Body envelope))) =
    xml.Ok (mkEnvelope envelopeTag
              (mkBody bodyTag (Body_Content (Envelope_Body envelope)))).
Proof.
  intros E. apply bodyContent_inv in E as (it & Ed & ->).
  destruct (last _) as [b|] eqn:Hlast; [|vm_compute; reflexivity].
  apply body_position in Hlast as (k1 & k2 & Hk & _ & _).
  destruct b as [nb ab ob kb cb|nb ab rb|d rb|m rb]; cbn [xml.innerXML];
    [|vm_compute; reflexivity..].
  apply decode_inv in Ed as (_ & _ & pre & post & Htok).
  destruct it as [n a o kids cl| | |]; simpl in Hk; try by destruct k1.
  subst kids.
  destruct (xml.tokens U data) as [toks e] eqn:Et. simpl in Htok. subst toks.
  assert (Et' : xml.tokens U data =
    ((pre ++ (xml.StartElement n a false, o) :: flat_map flatten k1 ++
       [(xml.StartElement nb ab false, ob)]) ++
     flat_map flatten kb ++
     (xml.EndElement nb, cb) :: flat_map flatten k2 ++ (xml.EndElement n, cl) :: post, e)).
  { rewrite Et. f_equal. cbn [flatten]. rewrite flat_map_app. cbn [flat_map flatten].
    repeat (rewrite <- ?app_assoc, <- ?app_comm_cons). reflexivity. }
  unfold unmarshalEnvelope. rewrite (decode_bare _ _ _ _ _ _ _ Et').
  reflexivity.
Qed.

Lemma decode_skip how expected s t r :
  xml.rawToken U s = xml.Ok (t, r) -> isTag t = false ->
  xml.decode U how expected s = xml.decode U how expected r.
Proof.
  intros E Ht. unfold xml.decode.
  destruct (tokens_step U _ _ _ E) as (c & _ & _ & Et). rewrite Et. simpl.
  destruct t; try discriminate; reflexivity.
Qed.

Lemma loop_inv {S A} (body : S -> xml.scanner (S + A)) (I : S -> Prop) (Q : A -> Prop) :
  (forall st s st' r, I st -> body st s = xml.Ok (inl st', r) -> I st') ->
  (forall st s a r, I st -> body st s = xml.Ok (inr a, r) -> Q a) ->
  forall fuel st s a r, I st -> xml.loop body fuel st s = xml.Ok (a, r) -> Q a.
Proof.
  intros Hstep Hbreak. induction fuel as [|fuel IH]; intros st s a r Hi E;
    [discriminate|].
  simpl in E. destruct (body st s) as [[[st'|a'] m]|e] eqn:Eb; try discriminate.
  - eapply IH; [|exact E]. by eapply Hstep.
  - injection E as <- <-. by eapply Hbreak.
Qed.

Lemma attrStep_inv acc s x r :
  xml.attrStep U acc s = xml.Ok (x, r) ->
  match x with
  | inl acc' => exists n v tag, acc' = acc ++ [xml.mkAttr n v] /\
                  n = xml.splitName tag /\ xml.isName U tag = true
  | inr (acc', _) => acc' = acc
  end.
Proof.
  unfold xml.attrStep. intros E.
  apply bind_Ok in E as (u & m & _ & E).
  apply bind_Ok in E as (ob & m' & _ & E).
  destruct ob as [b|]; [|discriminate].
  destruct (b =? "/")%char.
  { apply bind_Ok in E as (u1 & m1 & _ & E).
    apply bind_Ok in E as (c & m2 & _ & E).
    destruct (c =? ">")%char; [|discriminate]. by injection E as <- _. }
  destruct (b =? ">")%char.
  { apply bind_Ok in E as (u1 & m1 & _ & E). by injection E as <- _. }
  apply bind_Ok in E as (on & m1 & En & E).
  destruct on as [n|]; [|discriminate].
  apply nsname_inv in En as (tag & Hn & Htag).
  apply bind_Ok in E as (u2 & m2 & _ & E).
  apply bind_Ok in E as (c & m3 & _ & E).
  destruct (c =? "=")%char; [|discriminate].
  apply bind_Ok in E as (u3 & m4 & _ & E).
  apply bind_Ok in E as (v & m5 & _ & E).
  injection E as <- _. by exists n, (string_of_list_ascii v), tag.
Qed.

Lemma startTag_attrs s t r : xml.startTag U s = xml.Ok (t, r) -> attrsNamed U t.
Proof.
  unfold xml.startTag. intros E. apply bind_Ok in E as (on & m & _ & E).
  destruct on as [n|]; [|discriminate].
  apply bind_Ok in E as ([a e] & m' & El & E). injection E as <- _. simpl.
  unfold xml.iterate in El.
  revert El. apply (loop_inv (xml.attrStep U)
    (fun acc => Forall (fun at' => exists tag,
        xml.attr_Name at' = xml.splitName tag /\ xml.isName U tag = true) acc)
    (fun res => Forall (fun at' => exists tag,
        xml.attr_Name at' = xml.splitName tag /\ xml.isName U tag = true) (fst res))).
  - intros st s0 st' r0 Hi Es. apply attrStep_inv in Es as (n' & v & tag & -> & Hn & Htag).
    apply Forall_app. split; [exact Hi|]. constructor; [|constructor].
    by exists tag.
  - intros st s0 [a' e'] r0 Hi Es. apply attrStep_inv in Es. by subst.
  - constructor.
Qed.

Lemma endTag_attrs s t r : xml.endTag U s = xml.Ok (t, r) -> attrsNamed U t.
Proof.
  unfold xml.endTag. intros E. apply bind_Ok in E as (on & m & _ & E).
  destruct on as [n|]; [|discriminate].
  apply bind_Ok in E as (x & m' & _ & E).
  apply bind_Ok in E as (b & m'' & _ & E).
  destruct (b =? ">")%char; [|discriminate]. by injection E as <- _.
Qed.

Lemma procInstTag_attrs s t r : xml.procInstTag U s = xml.Ok (t, r) -> attrsNamed U t.
Proof.
  unfold xml.procInstTag. intros E. apply bind_Ok in E as (on & m & _ & E).
  destruct on as [n|]; [|discriminate].
  apply bind_Ok in E as (x & m' & _ & E).
  apply bind_Ok in E as (d & m'' & _ & E).
  destruct (if String.eqb _ "xml" then _ else _); [discriminate|].
  by injection E as <- _.
Qed.

Lemma bangTag_attrs s t r : xml.bangTag U s = xml.Ok (t, r) -> attrsNamed U t.
Proof.
  unfold xml.bangTag. intros E. apply bind_Ok in E as (b & m & _ & E).
  destruct (b =? "-")%char.
  - apply bind_Ok in E as (c & m' & _ & E). destruct (c =? "-")%char; [|discriminate].
    apply bind_Ok in E as (x & m'' & _ & E). by injection E as <- _.
  - destruct (b =? "[")%char.
    + apply bind_Ok in E as (x & m' & _ & E).
      apply bind_Ok in E as (d & m'' & _ & E). by injection E as <- _.
    + apply bind_Ok in E as (x & m' & _ & E). by injection E as <- _.
Qed.

Lemma rawToken_attrs s t r : xml.rawToken U s = xml.Ok (t, r) -> attrsNamed U t.
Proof.
  unfold xml.rawToken. intros E. apply bind_Ok in E as (ob & m & _ & E).
  destruct ob as [b|]; [|discriminate].
  destruct (negb (b =? "<")%char).
  - apply bind_Ok in E as (d & m' & _ & E). by injection E as <- _.
  - apply bind_Ok in E as (x & m' & _ & E).
    apply bind_Ok in E as (oc & m'' & _ & E).
    destruct oc as [c|]; [|discriminate].
    destruct (c =? "/")%char.
    { apply bind_Ok in E as (y & m3 & _ & E). by apply endTag_attrs in E. }
    destruct (c =? "?")%char.
    { apply bind_Ok in E as (y & m3 & _ & E). by apply procInstTag_attrs in E. }
    destruct (c =? "!")%char.
    { apply bind_Ok in E as (y & m3 & _ & E). by apply bangTag_attrs in E. }
    by apply startTag_attrs in E.
Qed.

Lemma tokens_named s :
  Forall (fun tc => tagName U (fst tc) /\ attrsNamed U (fst tc)) (fst (xml.tokens U s)).
Proof.
  apply Forall_forall. intros [t c] Hin.
  apply list_elem_of_split in Hin as (T1 & T2 & HT).
  destruct (xml.tokens U s) as [toks e] eqn:Et. simpl in HT. subst toks.
  apply tokens_reads in Et as (r1 & _ & Et).
  apply tokens_head in Et as (r2 & Et).
  split; [by apply rawToken_name in Et | by apply rawToken_attrs in Et].
Qed.

Lemma isName_nonempty tag : xml.isName U tag = true -> tag <> [].
Proof. by destruct tag. Qed.

Lemma splitName_Local tag :
  tag <> [] -> xml.Local (xml.splitName tag) <> "".
Proof.
  intros H. unfold xml.splitName.
  destruct (xml.cut tag) as [[[|a sp] [|b lo]]|]; simpl; try by destruct tag.
Qed.

Lemma named_Local n tag :
  n = xml.splitName tag -> xml.isName U tag = true -> xml.Local n <> "".
Proof. intros -> H. by apply splitName_Local, isName_nonempty. Qed.

Lemma translated_attrs env a :
  Forall (fun at' => exists tag,
            xml.attr_Name at' = xml.splitName tag /\ xml.isName U tag = true) a ->
  Forall (fun at' => xml.Local (xml.attr_Name at') <> "")
         (map (xml.translateAttr env) a).
Proof.
  intros H. apply Forall_forall. intros x Hx.
  change (map ?f ?l) with (f <$> l) in Hx.
  apply list_elem_of_fmap in Hx as (y & -> & Hy).
  apply (proj1 (Forall_forall _ _) H) in Hy as (tag & Hn & Htag).
  simpl. rewrite translate_Local. by eapply named_Local.
Qed.

(** Every node built from checked tokens, at any depth, has a name and
    attribute names that are not empty. *)
Lemma nodesOf_named it : forall env,
  Forall (fun tc => tagName U (fst tc) /\ attrsNamed U (fst tc)) (flatten it) ->
  Forall (fun nd => Name nd <> "" /\
            Forall (fun at' => xml.Local (xml.attr_Name at') <> "") (Attrs nd))
         (flat_map subnodes (nodesOf env it)).
Proof.
  induction it as [n a o kids c IH|n a r|d r|m r] using Item_induction;
    intros env H; [| |constructor..].
  - cbn [flatten] in H. inversion H as [|? ? [Hn Ha] Hk]; subst. simpl in Hn, Ha.
    destruct Hn as (tag & Hn & Htag). apply Forall_app in Hk as [Hk _].
    cbn [nodesOf flat_map subnodes Nodes]. rewrite app_nil_r.
    constructor.
    + split; [|by apply translated_attrs].
      unfold Name. simpl. rewrite translate_Local. by eapply named_Local.
    + generalize (xml.declare a env). intros env'. clear H.
      induction IH as [|k kids Hk1 _ IHk]; [constructor|].
      cbn [flat_map] in *. apply Forall_app in Hk as [Hk2 Hk3].
      rewrite flat_map_app. apply Forall_app. split; [by apply Hk1|].
      by apply IHk.
  - cbn [flatten] in H. inversion H as [|? ? [Hn Ha] Hk]; subst. simpl in Hn, Ha.
    destruct Hn as (tag & Hn & Htag).
    cbn [nodesOf flat_map subnodes Nodes app]. 
    constructor; [|constructor].
    split; [|by apply translated_attrs].
    unfold Name. simpl. rewrite translate_Local. by eapply named_Local.
Qed.

Lemma getBodyChildren_success_inv data nodes :
  getBodyChildren U data = (nodes, None) ->
  exists d it, xml.decode U xml.Unmarshalled (Some "root") d = xml.Ok it /\
    nodes = flat_map (nodesOf (innerEnv [] it)) (xml.kidsOf it).
Proof.
  unfold getBodyChildren.
  destruct (unmarshalEnvelope U data) as [envelope|e]; [|discriminate].
  destruct (Nat.eqb _ 0); [discriminate|].
  unfold unmarshalWrapper.
  match goal with
  | |- context [xml.decode U xml.Unmarshalled (Some "root") ?d] =>
      destruct (xml.decode U xml.Unmarshalled (Some "root") d) as [it|e] eqn:Ed; [|discriminate];
      exists d, it
  end.
  cbn [wrapper_Nodes] in *. destruct (Nat.eqb _ 0); [discriminate|].
  injection H as <-. by split.
Qed.

End Decoded.

(** ** One child at a time *)

Section Child.
Variable U : xml.Tables.

(** The bytes of an element of the input, put into a bare envelope, are
    read as the tokens of that element between those of the envelope. *)
Lemma tokens_bare_elem data T1 k T3 e :
  isElem k = true ->
  xml.tokens U data = (T1 ++ flatten k ++ T3, e) ->
  xml.tokens U (blankEnvelope (xml.raw k)) =
    ((xml.StartElement envelopeTag [] false, B "<Envelope>") ::
     (xml.StartElement bodyTag [] false, B "<Body>") ::
       flatten k ++
       [(xml.EndElement bodyTag, B "</Body>");
        (xml.EndElement envelopeTag, B "</Envelope>")],
     xml.io_EOF).
Proof.
  intros Hel E.
  apply tokens_reads in E as (r1 & _ & E).
  apply tokens_reads in E as (r2 & Hreads & _).
  destruct (flatten_last k Hel) as (T & t & c & Hf & Htag).
  rewrite Hf in Hreads.
  pose proof (reads_closed U _ _ _ _ _ Hreads Htag (B "</Body></Envelope>")) as Hr.
  rewrite <- Hf, spans_flatten in Hr.
  assert (Hclose : xml.tokens U (B "</Body></Envelope>") =
            ([(xml.EndElement bodyTag, B "</Body>");
              (xml.EndElement envelopeTag, B "</Envelope>")], xml.io_EOF))
    by (vm_compute; reflexivity).
  pose proof (reads_tokens _ _ _ _ _ _ Hr Hclose) as Ht.
  assert (E1 : forall X, xml.rawToken U (B "<Envelope>" ++ X) =
               xml.Ok (xml.StartElement envelopeTag [] false, X))
    by (intros X; vm_compute; reflexivity).
  assert (E2 : forall X, xml.rawToken U (B "<Body>" ++ X) =
               xml.Ok (xml.StartElement bodyTag [] false, X))
    by (intros X; vm_compute; reflexivity).
  unfold blankEnvelope.
  change (B "<Envelope><Body>") with (B "<Envelope>" ++ B "<Body>").
  rewrite <- app_assoc.
  destruct (tokens_step _ _ _ _ (E1 (B "<Body>" ++ xml.raw k ++ B "</Body></Envelope>")))
    as (c1 & Hc1 & _ & Et1).
  apply app_inv_tail in Hc1. subst c1. rewrite Et1.
  destruct (tokens_step _ _ _ _ (E2 (xml.raw k ++ B "</Body></Envelope>")))
    as (c2 & Hc2 & _ & Et2).
  apply app_inv_tail in Hc2. subst c2. rewrite Et2, Ht. reflexivity.
Qed.

Lemma getBodyChildren_bare_elem data T1 k T3 e :
  isElem k = true ->
  admits xml.Unmarshalled 1 k = true ->
  xml.tokens U data = (T1 ++ flatten k ++ T3, e) ->
  getBodyChildren U (blankEnvelope (xml.raw k)) = (nodesOf [] k, None).
Proof.
  intros Hel Hfit E.
  rewrite (getBodyChildren_decoded U _
    (xml.Elem envelopeTag [] (B "<Envelope>")
       [xml.Elem bodyTag [] (B "<Body>") [k] (B "</Body>")]
       (B "</Envelope>"))).
  - unfold bodyResult.
    replace (last (filter (isElement "Body") _))
      with (Some (xml.Elem bodyTag [] (B "<Body>") [k] (B "</Body>")))
      by (cbn; by rewrite decide_True by done).
    cbn [xml.kidsOf forallb flat_map]. rewrite Hfit, app_nil_r. cbn [andb].
    by destruct (nodesOf_elem [] k Hel) as (nd & -> & _).
  - apply (decode_of_tokens U _ _ _ _ [] []);
      [|constructor|reflexivity|reflexivity|apply admits_all_Skipped].
    rewrite (tokens_bare_elem _ _ _ _ _ Hel E). cbn [fst flatten flat_map app].
    rewrite !app_nil_r. rewrite <- !app_assoc. reflexivity.
Qed.

Lemma flat_map_lookup {A C} (f : A -> list C) l i y :
  flat_map f l !! i = Some y ->
  exists l1 x l2, l = l1 ++ x :: l2 /\ y ∈ f x.
Proof.
  intros H. apply list_elem_of_lookup_2 in H.
  induction l as [|x l IH]; simpl in H; [by apply elem_of_nil in H|].
  apply elem_of_app in H as [H|H].
  - by exists [], x, l.
  - destruct (IH H) as (l1 & x' & l2 & -> & Hy). by exists (x :: l1), x', l2.
Qed.

End Child.

(** ** The elements of the input and their tags *)

Section Elements.
Variable U : xml.Tables.

(** [readName] takes the bytes that can be part of a name, up to the
    first byte that cannot. *)
Lemma nameLoop_reads fuel : forall acc s n r,
  xml.loop xml.nameStep fuel acc s = xml.Ok (n, r) ->
  exists c, n = acc ++ c /\ s = c ++ r /\
    forallb (fun x => negb (xml.notNameByte x)) c = true /\
    exists b, head r = Some b /\ xml.notNameByte b = true.
Proof.
  induction fuel as [|fuel IH]; intros acc s n r E; [discriminate|].
  cbn [xml.loop] in E.
  destruct s as [|b s]; [discriminate|].
  unfold xml.nameStep at 1, xml.bind, xml.peekc in E. cbn [head] in E.
  destruct (xml.notNameByte b) eqn:Hb.
  - injection E as <- <-. exists []. rewrite app_nil_r.
    split; [reflexivity|]. split; [reflexivity|]. split; [reflexivity|].
    by exists b.
  - cbn [xml.mustgetc xml.ret] in E.
    apply IH in E as (c & -> & -> & Hc & Hr). exists (b :: c).
    rewrite <- app_assoc. cbn [forallb]. rewrite Hb, Hc. by repeat split.
Qed.

Lemma nsname_reads s n r :
  xml.nsname U s = xml.Ok (Some n, r) ->
  exists tag, s = tag ++ r /\ n = xml.splitName tag /\ xml.isName U tag = true /\
    forallb (fun x => negb (xml.notNameByte x)) tag = true /\
    exists b, head r = Some b /\ xml.notNameByte b = true.
Proof.
  unfold xml.nsname, xml.name. intros E.
  apply bind_Ok in E as (on & m & E1 & E).
  apply bind_Ok in E1 as (on' & m' & E0 & E1).
  destruct on' as [tag|]; [|injection E1 as <- <-; discriminate].
  destruct (xml.isName U tag) eqn:Hn; [|discriminate].
  injection E1 as <- <-.
  destruct (1 <? xml.colons tag)%nat; [discriminate|].
  injection E as <- <-. exists tag.
  unfold xml.readName, xml.bind, xml.peekc in E0.
  destruct s as [|b s]; [discriminate|]. cbn [head] in E0.
  destruct (xml.notNameByte b) eqn:Hb; [discriminate|].
  cbn [xml.mustgetc] in E0.
  destruct (xml.iterate xml.nameStep [b] s) as [[n0 r0]|e] eqn:El; [|discriminate].
  injection E0 as <- <-. unfold xml.iterate in El.
  apply nameLoop_reads in El as (c & -> & -> & Hc & Hr).
  cbn [app forallb]. rewrite Hb, Hc. by repeat split.
Qed.

Lemma startTag_reads s t r :
  xml.startTag U s = xml.Ok (t, r) ->
  exists tag c n a e, s = tag ++ c ++ r /\ c <> [] /\
    t = xml.StartElement n a e /\ n = xml.splitName tag /\
    xml.isName U tag = true /\
    forallb (fun x => negb (xml.notNameByte x)) tag = true /\
    exists b, head c = Some b /\ xml.notNameByte b = true.
Proof.
  unfold xml.startTag. intros E. apply bind_Ok in E as (on & m & E1 & E).
  destruct on as [n|]; [|discriminate].
  apply bind_Ok in E as ([a e] & m' & El & E). injection E as <- <-.
  apply nsname_reads in E1 as (tag & -> & -> & Htag & Hbytes & b & Hb & Hnb).
  destruct (Closed_attrLoop U [] _ _ _ El I) as (c & Hc & -> & _).
  exists tag, c, (xml.splitName tag), a, e. repeat split; try done.
  exists b. split; [|exact Hnb]. by destruct c.
Qed.

Lemma rawToken_start s n a e r :
  xml.rawToken U s = xml.Ok (xml.StartElement n a e, r) ->
  exists tag c, s = "<"%char :: tag ++ c ++ r /\ c <> [] /\
    n = xml.splitName tag /\ xml.isName U tag = true /\
    forallb (fun x => negb (xml.notNameByte x)) tag = true /\
    exists b, head c = Some b /\ xml.notNameByte b = true.
Proof.
  unfold xml.rawToken. intros E. apply bind_Ok in E as (ob & m & E0 & E).
  unfold xml.peekc in E0. injection E0 as <- <-.
  destruct s as [|b s]; [discriminate|]. cbn [head] in E.
  destruct (Ascii.eqb_spec b "<") as [->|Hb]; cbn [negb] in E.
  2:{ apply bind_Ok in E as (d & m' & _ & E). discriminate. }
  apply bind_Ok in E as (x & m' & E0 & E). cbn [xml.mustgetc] in E0.
  injection E0 as <- <-.
  apply bind_Ok in E as (oc & m'' & E0 & E).
  unfold xml.peekc in E0. injection E0 as <- <-.
  destruct (head s) as [c|]; [|discriminate].
  destruct (c =? "/")%char.
  { apply bind_Ok in E as (y & m3 & _ & E). unfold xml.endTag in E.
    apply bind_Ok in E as (on & m4 & _ & E). destruct on; [|discriminate].
    apply bind_Ok in E as (u & m5 & _ & E).
    apply bind_Ok in E as (b & m6 & _ & E).
    destruct (b =? ">")%char; discriminate. }
  destruct (c =? "?")%char.
  { apply bind_Ok in E as (y & m3 & _ & E). unfold xml.procInstTag in E.
    apply bind_Ok in E as (on & m4 & _ & E). destruct on; [|discriminate].
    apply bind_Ok in E as (u & m5 & _ & E).
    apply bind_Ok in E as (d & m6 & _ & E).
    destruct (if String.eqb _ "xml" then _ else _); discriminate. }
  destruct (c =? "!")%char.
  { apply bind_Ok in E as (y & m3 & _ & E). unfold xml.bangTag in E.
    apply bind_Ok in E as (b & m4 & _ & E).
    destruct (b =? "-")%char.
    - apply bind_Ok in E as (c' & m5 & _ & E). destruct (c' =? "-")%char; [|discriminate].
      apply bind_Ok in E as (u & m6 & _ & E). discriminate.
    - destruct (b =? "[")%char.
      + apply bind_Ok in E as (u & m5 & _ & E).
        apply bind_Ok in E as (d & m6 & _ & E). discriminate.
      + apply bind_Ok in E as (u & m5 & _ & E). discriminate. }
  apply startTag_reads in E
    as (tag & c0 & n' & a' & e' & -> & Hc & Ht & Hn & Htag & Hbytes & Hb).
  injection Ht as -> -> ->. by exists tag, c0.
Qed.


(** The tokens of an item hold those of each of its children. *)
Lemma flatten_kid it k :
  k ∈ xml.kidsOf it -> exists T1 T2, flatten it = T1 ++ flatten k ++ T2.
Proof.
  destruct it as [n a o kids c|n a r|d r|m r]; cbn [xml.kidsOf];
    try (intros H; by apply elem_of_nil in H).
  intros H. apply list_elem_of_split in H as (l1 & l2 & ->).
  exists ((xml.StartElement n a false, o) :: flat_map flatten l1),
    (flat_map flatten l2 ++ [(xml.EndElement n, c)]).
  cbn [flatten]. rewrite flat_map_app. cbn [flat_map].
  by rewrite <- !app_assoc.
Qed.

(** Tokens in the middle of the token stream were read from a slice of
    the input. *)
Lemma tokens_slice data T1 T2 T3 e :
  xml.tokens U data = (T1 ++ T2 ++ T3, e) ->
  exists pre post, data = pre ++ spans T2 ++ post /\
    reads U T2 (spans T2 ++ post) post.
Proof.
  intros E. apply tokens_reads in E as (r1 & Hr1 & E).
  apply tokens_reads in E as (r2 & Hr2 & _).
  pose proof (reads_spans U _ _ _ Hr1) as H1.
  pose proof (reads_spans U _ _ _ Hr2) as H2.
  exists (spans T1), r2. split; [by rewrite H1, H2|]. by rewrite <- H2.
Qed.

(** An element of the input is written [<], the name of its tag, and a
    byte that cannot be part of a name. *)
Lemma start_tag T t o s r :
  reads U ((t, o) :: T) s r ->
  exists s', s = o ++ s' /\ xml.rawToken U (o ++ s') = xml.Ok (t, s').
Proof. intros H. inversion H; subst. by eexists. Qed.

Lemma element_tag data T1 k T3 e :
  xml.tokens U data = (T1 ++ flatten k ++ T3, e) ->
  isElem k = true ->
  exists tag more, xml.raw k = "<"%char :: tag ++ more /\
    itemName k = xml.splitName tag /\ xml.isName U tag = true /\
    forallb (fun x => negb (xml.notNameByte x)) tag = true /\
    exists b, head more = Some b /\ xml.notNameByte b = true.
Proof.
  intros E Hel. apply tokens_reads in E as (r1 & _ & E).
  apply tokens_reads in E as (r2 & Hr & _).
  assert (H : exists n a e o rest, flatten k = (xml.StartElement n a e, o) :: rest /\
                itemName k = n /\ exists tl, xml.raw k = o ++ tl).
  { destruct k as [n a o kids c|n a r|d r|m r]; try discriminate.
    - exists n, a, false, o. eexists. split; [reflexivity|]. split; [reflexivity|].
      by eexists.
    - exists n, a, true, r, []. split; [reflexivity|]. split; [reflexivity|].
      exists []. by rewrite app_nil_r. }
  destruct H as (n & a & e0 & o & rest & Hf & Hn & tl & Hraw).
  rewrite Hf in Hr. apply start_tag in Hr as (s' & -> & E).
  apply rawToken_start in E
    as (tag & c0 & Hs & Hc & Hn' & Htag & Hbytes & b & Hb & Hnb).
  assert (Ho : o = "<"%char :: tag ++ c0).
  { apply (app_inv_tail s'). rewrite Hs. cbn [app]. by rewrite <- !app_assoc. }
  exists tag, (c0 ++ tl). rewrite Hraw, Ho, Hn. cbn [app]. rewrite <- app_assoc.
  repeat split; try done. exists b. split; [|exact Hnb]. by destruct c0.
Qed.

(** The node that [getBodyChildren] answers at some place was built from
    an element of the input that lies within the limit. *)
Lemma extracted_child data nodes i n :
  getBodyChildren U data = (nodes, None) ->
  nodes !! i = Some n ->
  exists T1 k T3 e, xml.tokens U data = (T1 ++ flatten k ++ T3, e) /\
    isElem k = true /\ admits xml.Unmarshalled 1 k = true /\ nodesOf [] k = [n].
Proof.
  intros Hres Hn.
  destruct (unmarshalEnvelope U data) as [envelope|err] eqn:E.
  2:{ unfold getBodyChildren in Hres. rewrite E in Hres. discriminate. }
  unfold unmarshalEnvelope in E.
  destruct (xml.decode U xml.Skipped (Some "Envelope") data) as [it|err] eqn:Ed;
    [|discriminate].
  clear E envelope.
  rewrite (getBodyChildren_decoded U data it Ed) in Hres.
  unfold bodyResult in Hres.
  destruct (last _) as [b|] eqn:Hlast; [|discriminate].
  destruct (forallb _ (xml.kidsOf b)) eqn:Hfit; [|discriminate].
  destruct (flat_map (nodesOf []) (xml.kidsOf b)) as [|n0 ns] eqn:Hnodes;
    [discriminate|].
  injection Hres as <-. rewrite <- Hnodes in Hn.
  apply flat_map_lookup in Hn as (l1 & k & l2 & Hk & Hin).
  assert (Hel : isElem k = true).
  { destruct (isElem k) eqn:Hel; [done|].
    rewrite (nodesOf_other _ _ Hel) in Hin. by apply elem_of_nil in Hin. }
  assert (Hnk : nodesOf [] k = [n]).
  { destruct (nodesOf_elem [] k Hel) as (nd & Hnd & _). rewrite Hnd in Hin.
    apply list_elem_of_singleton in Hin. by subst. }
  assert (Hkb : k ∈ xml.kidsOf b).
  { rewrite Hk. apply elem_of_app. right. left. }
  assert (Hbi : b ∈ xml.kidsOf it).
  { apply last_Some in Hlast as (l' & Hl).
    assert (Hin' : b ∈ filter (isElement "Body") (xml.kidsOf it)).
    { rewrite Hl. apply elem_of_app. right. by apply list_elem_of_singleton. }
    by apply list_elem_of_filter in Hin' as [_ Hin']. }
  apply decode_inv in Ed as (_ & _ & pre & post & Htok).
  destruct (flatten_kid _ _ Hbi) as (A1 & A2 & HA).
  destruct (flatten_kid _ _ Hkb) as (B1 & B2 & HB).
  destruct (xml.tokens U data) as [toks e] eqn:Et. simpl in Htok. subst toks.
  exists (pre ++ A1 ++ B1), k, (B2 ++ A2 ++ post), e.
  split; [|split; [exact Hel|split; [|exact Hnk]]].
  - f_equal. rewrite HA, HB. by rewrite <- !app_assoc.
  - apply list_elem_of_In in Hkb. by apply (proj1 (forallb_forall _ _) Hfit).
Qed.

(** A node holds what the specification asks of its element. *)
Lemma spec_nodesOf it : forall env, map specOfNode (nodesOf env it) = specElements it.
Proof.
  induction it as [n a o kids c IH|n a r|d r|m r] using Item_induction;
    intros env; try reflexivity.
  - cbn [nodesOf map specOfNode specElements]. rewrite translate_Local.
    f_equal. f_equal.
    + rewrite map_map. apply map_ext. intros at'. simpl.
      by rewrite translate_Local.
    + generalize (xml.declare a env). intros env'.
      induction IH as [|k kids Hk _ IHk]; [reflexivity|].
      cbn [flat_map]. rewrite map_app. by rewrite Hk, IHk.
  - cbn [nodesOf map specOfNode specElements]. rewrite translate_Local.
    f_equal. f_equal.
    rewrite map_map. apply map_ext. intros at'. simpl.
    by rewrite translate_Local.
Qed.

Lemma spec_nodes env kids :
  map specOfNode (flat_map (nodesOf env) kids) = flat_map specElements kids.
Proof.
  induction kids as [|k kids IH]; [reflexivity|].
  cbn [flat_map]. by rewrite map_app, spec_nodesOf, IH.
Qed.



(** The tokens in front of the first tag are determined by the stream. *)
Lemma first_tag (p1 p2 : list (xml.Token * bytes)) x1 x2 A1 A2 :
  Forall (fun tc => isTag (fst tc) = false) p1 ->
  Forall (fun tc => isTag (fst tc) = false) p2 ->
  isTag (fst x1) = true -> isTag (fst x2) = true ->
  p1 ++ x1 :: A1 = p2 ++ x2 :: A2 -> p1 = p2.
Proof.
  intros H1. revert p2. induction H1 as [|y p1 Hy _ IH]; intros p2 H2 Hx1 Hx2 E.
  - destruct H2 as [|z p2 Hz _]; [reflexivity|].
    simpl in E. injection E as -> _. congruence.
  - destruct H2 as [|z p2 Hz H2].
    + simpl in E. injection E as -> _. congruence.
    + simpl in E. injection E as -> E. f_equal. by eapply IH.
Qed.

Lemma flatten_first it :
  isElem it = true -> exists x A, flatten it = x :: A /\ isTag (fst x) = true.
Proof.
  destruct it as [n a o kids c|n a r|d r|m r]; try discriminate; intros _;
    by eexists _, _.
Qed.

End Elements.

(** ** Plain text and plain attribute values *)

Section Plain.
Variable U : xml.Tables.

Lemma plain_inv c :
  plain c = true ->
  isASCII c = true /\ xml.asciiCharOK c = true /\ (c =? "<")%char = false /\
  (c =? "&")%char = false /\ (c =? "]")%char = false /\ (code c =? 13) = false.
Proof.
  unfold plain. intros H.
  repeat (apply andb_true_iff in H as [H ?]).
  repeat match goal with
         | H : negb _ = true |- _ => apply negb_true_iff in H
         end.
  by repeat split.
Qed.

(** One round of the loop of [d.text] on a plain character. *)
Lemma textStep_plain quote b0 b1 buf c r :
  plain c = true -> xml.isQuote quote c = false ->
  (b1 =? "]")%char = false -> (code b1 =? 13) = false ->
  xml.textStep U quote false (b0, b1, buf) (c :: r) =
    xml.Ok (inl (b1, c, buf ++ [c]), r).
Proof.
  intros Hc Hq Hb1 Hb1'.
  apply plain_inv in Hc as (_ & _ & Hlt & Hamp & Hbr & Hcr).
  unfold xml.textStep, xml.bind, xml.peekc. cbn [head].
  rewrite Hb1, andb_false_r, Hlt. cbn [andb negb xml.mustgetc].
  rewrite Hq, Hamp. cbn [andb]. unfold xml.writeByte. by rewrite Hcr, Hb1'.
Qed.

Lemma textLoop_plain ws : forall f b0 b1 buf r,
  forallb plain ws = true ->
  (b1 =? "]")%char = false -> (code b1 =? 13) = false ->
  (length (ws ++ "<"%char :: r) < f)%nat ->
  xml.loop (xml.textStep U None false) f (b0, b1, buf) (ws ++ "<"%char :: r) =
    xml.Ok (buf ++ ws, "<"%char :: r).
Proof.
  induction ws as [|c ws IH]; intros f b0 b1 buf r Hws Hb1 Hb1' Hf;
    (destruct f as [|f]; [simpl in Hf; lia|]).
  - cbn [app xml.loop]. unfold xml.textStep, xml.bind, xml.peekc. cbn [head].
    rewrite andb_false_r. cbn. by rewrite app_nil_r.
  - cbn [forallb] in Hws. apply andb_true_iff in Hws as [Hc Hws].
    cbn [app xml.loop]. rewrite (textStep_plain None) by done.
    pose proof (plain_inv _ Hc) as (_ & _ & _ & _ & Hbr & Hcr).
    rewrite IH; try done.
    + by rewrite <- app_assoc.
    + simpl in Hf. lia.
Qed.

Lemma valueLoop_plain v : forall f b0 b1 buf r,
  forallb plainValue v = true ->
  (b1 =? "]")%char = false -> (code b1 =? 13) = false ->
  (length (v ++ DQUOTE :: r) < f)%nat ->
  xml.loop (xml.textStep U (Some DQUOTE) false) f (b0, b1, buf) (v ++ DQUOTE :: r) =
    xml.Ok (buf ++ v, r).
Proof.
  induction v as [|c v IH]; intros f b0 b1 buf r Hv Hb1 Hb1' Hf;
    (destruct f as [|f]; [simpl in Hf; lia|]).
  - cbn [app xml.loop]. unfold xml.textStep, xml.bind, xml.peekc. cbn [head].
    rewrite andb_false_r. cbn. by rewrite app_nil_r.
  - cbn [forallb] in Hv. apply andb_true_iff in Hv as [Hc Hv].
    unfold plainValue in Hc. apply andb_true_iff in Hc as [Hc Hq].
    apply negb_true_iff in Hq.
    cbn [app xml.loop]. rewrite (textStep_plain (Some DQUOTE)) by done.
    pose proof (plain_inv _ Hc) as (_ & _ & _ & _ & Hbr & Hcr).
    rewrite IH; try done.
    + by rewrite <- app_assoc.
    + simpl in Hf. lia.
Qed.

Lemma validText_plain ws : forallb plain ws = true -> xml.validText U ws = true.
Proof.
  intros H. unfold xml.validText.
  assert (H1 : forallb isASCII ws = true /\ forallb xml.asciiCharOK ws = true).
  { induction ws as [|c ws IH]; [done|]. cbn [forallb] in *.
    apply andb_true_iff in H as [Hc Hws]. destruct (IH Hws) as [-> ->].
    apply plain_inv in Hc as (-> & -> & _). done. }
  destruct H1 as [-> ->]. reflexivity.
Qed.

Lemma plainValue_plain v : forallb plainValue v = true -> forallb plain v = true.
Proof.
  induction v as [|c v IH]; [done|]. cbn [forallb]. intros H.
  apply andb_true_iff in H as [Hc Hv]. rewrite (IH Hv), andb_true_r.
  unfold plainValue in Hc. by apply andb_true_iff in Hc as [-> _].
Qed.

Lemma text_plain ws r :
  forallb plain ws = true ->
  xml.text U None false (ws ++ "<"%char :: r) = xml.Ok (ws, "<"%char :: r).
Proof.
  intros H. unfold xml.text, xml.bind, xml.iterate.
  rewrite textLoop_plain; [|exact H|reflexivity|reflexivity|lia].
  cbn [app]. by rewrite (validText_plain _ H).
Qed.

Lemma rawToken_plain c ws r :
  forallb plain (c :: ws) = true ->
  xml.rawToken U ((c :: ws) ++ "<"%char :: r) =
    xml.Ok (xml.CharData (c :: ws), "<"%char :: r).
Proof.
  intros H. unfold xml.rawToken, xml.bind at 1, xml.peekc.
  replace (head ((c :: ws) ++ "<"%char :: r)) with (Some c) by reflexivity.
  assert (Hc : (c =? "<")%char = false).
  { cbn [forallb] in H. apply andb_true_iff in H as [Hc _].
    by apply plain_inv in Hc as (_ & _ & -> & _). }
  rewrite Hc. cbn [negb]. unfold xml.bind. by rewrite (text_plain _ _ H).
Qed.

Lemma attrval_plain v r :
  forallb plainValue v = true ->
  xml.attrval U (DQUOTE :: v ++ DQUOTE :: r) = xml.Ok (v, r).
Proof.
  intros H. unfold xml.attrval, xml.bind. cbn [xml.mustgetc].
  change ((DQUOTE =? DQUOTE)%char || (DQUOTE =? SQUOTE)%char) with true. cbv iota.
  unfold xml.text, xml.bind, xml.iterate.
  rewrite valueLoop_plain; [|exact H|reflexivity|reflexivity|lia].
  cbn [app]. by rewrite (validText_plain _ (plainValue_plain _ H)).
Qed.

Lemma attrStep_align acc v r :
  forallb plainValue v = true ->
  xml.attrStep U acc (B " align=" ++ DQUOTE :: v ++ DQUOTE :: r) =
    xml.Ok (inl (acc ++ [xml.mkAttr alignName (string_of_list_ascii v)]), r).
Proof.
  intros H.
  assert (A1 : forall Y, xml.space (B " align=" ++ Y) = xml.Ok (tt, B "align=" ++ Y))
    by (intros Y; vm_compute; reflexivity).
  assert (A2 : forall Y, xml.nsname U (B "align=" ++ Y) = xml.Ok (Some alignName, B "=" ++ Y))
    by (intros Y; vm_compute; reflexivity).
  assert (A3 : forall Y, xml.space (B "=" ++ Y) = xml.Ok (tt, B "=" ++ Y))
    by (intros Y; vm_compute; reflexivity).
  assert (A4 : forall Y, xml.space (DQUOTE :: Y) = xml.Ok (tt, DQUOTE :: Y))
    by (intros Y; vm_compute; reflexivity).
  unfold xml.attrStep. unfold xml.bind at 1. rewrite A1.
  unfold xml.bind at 1. unfold xml.peekc.
  change (head (B "align=" ++ DQUOTE :: v ++ DQUOTE :: r)) with (Some "a"%char).
  cbv iota beta.
  change (("a" =? "/")%char) with false. change (("a" =? ">")%char) with false.
  cbv iota.
  unfold xml.bind at 1. rewrite A2.
  unfold xml.bind at 1. rewrite A3.
  unfold xml.bind at 1. cbn [B list_ascii_of_string app xml.mustgetc].
  change (("=" =? "=")%char) with true. cbv iota.
  unfold xml.bind at 1. rewrite A4.
  unfold xml.bind at 1. rewrite (attrval_plain _ _ H). reflexivity.
Qed.

(** The decoder reads [<text align="v">] as a start tag with the one
    attribute [align], whose value is [v]. *)
Lemma rawToken_alignTag v r :
  forallb plainValue v = true ->
  xml.rawToken U (alignTag v ++ r) =
    xml.Ok (xml.StartElement textTag
              [xml.mkAttr alignName (string_of_list_ascii v)] false, r).
Proof.
  intros H.
  assert (Hs : alignTag v ++ r =
               B "<text align=" ++ DQUOTE :: v ++ DQUOTE :: (B ">" ++ r)).
  { unfold alignTag. rewrite <- app_assoc. f_equal.
    rewrite <- app_comm_cons. f_equal. by rewrite <- app_assoc. }
  rewrite Hs. clear Hs.
  assert (A0 : forall Y, xml.nsname U (B "text align=" ++ Y) =
                         xml.Ok (Some textTag, B " align=" ++ Y))
    by (intros Y; vm_compute; reflexivity).
  assert (A5 : forall acc Y, xml.attrStep U acc (B ">" ++ Y) = xml.Ok (inr (acc, false), Y))
    by (intros acc Y; vm_compute; reflexivity).
  unfold xml.rawToken. unfold xml.bind at 1. unfold xml.peekc.
  change (head (B "<text align=" ++ ?Y)) with (Some "<"%char).
  cbv iota beta. change (negb ("<" =? "<")%char) with false. cbv iota.
  unfold xml.bind at 1.
  change (xml.mustgetc (B "<text align=" ++ ?Y)) with (xml.Ok ("<"%char, B "text align=" ++ Y)).
  cbv iota beta. unfold xml.bind at 1. unfold xml.peekc.
  change (head (B "text align=" ++ ?Y)) with (Some "t"%char).
  cbv iota beta.
  change (("t" =? "/")%char) with false. change (("t" =? "?")%char) with false.
  change (("t" =? "!")%char) with false. cbv iota.
  unfold xml.startTag. unfold xml.bind at 1. rewrite A0.
  unfold xml.bind at 1. unfold xml.iterate.
  cbn [xml.loop].
  rewrite (attrStep_align [] v _ H).
  cbn [length B list_ascii_of_string app xml.loop].
  rewrite length_app. cbn [length Nat.add xml.loop].
  change (">"%char :: r) with (B ">" ++ r).
  rewrite A5. reflexivity.
Qed.

Lemma reads_textRequest v s :
  forallb plainValue v = true -> forallb plain s = true ->
  reads U
    ([(xml.StartElement envelopeTag [] false, B "<Envelope>");
      (xml.StartElement bodyTag [] false, B "<Body>");
      (xml.StartElement textTag
         [xml.mkAttr alignName (string_of_list_ascii v)] false, alignTag v)] ++
     match s with
     | [] => []
     | _ => [(xml.CharData s, s)]
     end ++
     [(xml.EndElement textTag, B "</text>");
      (xml.EndElement bodyTag, B "</Body>")])
    (textRequest v s) (B "</Envelope>").
Proof.
  intros Hv Hs. unfold textRequest, blankEnvelope.
  assert (E6 : forall X, xml.rawToken U (B "</Body>" ++ X) =
               xml.Ok (xml.EndElement bodyTag, X))
    by (intros X; vm_compute; reflexivity).
  assert (E5 : forall X, xml.rawToken U (B "</text>" ++ X) =
               xml.Ok (xml.EndElement textTag, X))
    by (intros X; vm_compute; reflexivity).
  assert (E2 : forall X, xml.rawToken U (B "<Body>" ++ X) =
               xml.Ok (xml.StartElement bodyTag [] false, X))
    by (intros X; vm_compute; reflexivity).
  assert (E1 : forall X, xml.rawToken U (B "<Envelope>" ++ X) =
               xml.Ok (xml.StartElement envelopeTag [] false, X))
    by (intros X; vm_compute; reflexivity).
  change (B "<Envelope><Body>") with (B "<Envelope>" ++ B "<Body>").
  change (B "</Body></Envelope>") with (B "</Body>" ++ B "</Envelope>").
  rewrite <- !app_assoc.
  cbn [app]. constructor; [apply E1|]. constructor; [apply E2|].
  constructor; [by apply rawToken_alignTag|].
  destruct s as [|c ws].
  - cbn [app]. constructor; [apply E5|]. constructor; [apply E6|]. constructor.
  - apply (reads_cons U (xml.CharData (c :: ws)) (c :: ws) _
             (B "</text>" ++ B "</Body>" ++ B "</Envelope>") (B "</Envelope>")).
    + exact (rawToken_plain c ws (B "/text>" ++ B "</Body>" ++ B "</Envelope>") Hs).
    + constructor; [apply E5|]. constructor; [apply E6|]. constructor.
Qed.

End Plain.

(** ** Plain text between the tags of an element *)

Section PlainKids.
Variable U : xml.Tables.







End PlainKids.

(** ** Tags written in the plain way *)

Section Written.
Variable U : xml.Tables.












End Written.

(** ** From the bytes of an element to its node *)

Section Pinned.
Variable U : xml.Tables.



End Pinned.

(** * The claims about [util.go] *)

(** C1.  An input that decodes to an [Envelope] element with one [Body]
    child, where that [Body] has no child element (whatever text,
    white space or comments it holds), makes [getBodyChildren] answer the
    error [ErrBodyElementEmpty] together with the nil slice. *)
Theorem getBodyChildren_empty_body (U : xml.Tables) (data : bytes)
    (root body : Node) :
  unmarshalNode U data = xml.Ok root ->
  Name root = "Envelope" ->
  filter (fun n => Name n = "Body") (Nodes root) = [body] ->
  Nodes body = [] ->
  getBodyChildren U data = ([], Some ErrBodyElementEmpty).
Proof.
  intros Hroot Hname Hbody Hnone.
  destruct (getBodyChildren_envelope U data root body Hroot Hname Hbody)
    as (nodes & Hview & ->).
  rewrite Hnone in Hview. by destruct nodes.
Qed.

(** C2, as amended.  On an input that is not an envelope with a [Body]
    child, [getBodyChildren] fails: with the decoder's own error when the
    decoder does not get to the end of a root element or when the root
    element is not named [Envelope] (then with [UnmarshalError]), but with
    [ErrBodyElementEmpty] when the root element is an [Envelope] that has
    no [Body] child.  The root element is the one the decoder reads when
    it skips what is inside. *)
Theorem getBodyChildren_malformed (U : xml.Tables) (data : bytes) :
  (forall it, xml.decode U xml.Skipped None data = xml.Ok it ->
     xml.Local (itemName it) = "Envelope" ->
     filter (isElement "Body") (xml.kidsOf it) = []) ->
  (exists e, e <> xml.errFuel /\
     getBodyChildren U data = ([], Some (xmlError e)) /\
     forall it, xml.decode U xml.Skipped None data = xml.Ok it ->
       xml.Local (itemName it) <> "Envelope" /\ e = xml.UnmarshalError) \/
  (getBodyChildren U data = ([], Some ErrBodyElementEmpty) /\
   exists it, xml.decode U xml.Skipped None data = xml.Ok it /\
     xml.Local (itemName it) = "Envelope").
Proof.
  intros H. destruct (xml.decode U xml.Skipped None data) as [it|e] eqn:Hd.
  - pose proof (decode_expected U _ "Envelope" _ _ Hd) as Hde.
    destruct (String.eqb_spec "Envelope" (xml.Local (itemName it))) as [Heq|Hne].
    + right. split; [|by exists it].
      rewrite (getBodyChildren_decoded U data it Hde).
      by rewrite (H it eq_refl (eq_sym Heq)).
    + left. exists xml.UnmarshalError. split; [discriminate|]. split.
      * unfold getBodyChildren, unmarshalEnvelope. by rewrite Hde.
      * intros it' E. injection E as <-. split; congruence.
  - left.
    assert (He : exists e', xml.decode U xml.Skipped (Some "Envelope") data = xml.Err e').
    { destruct (decode_expected_err U _ "Envelope" _ _ Hd); eauto. }
    destruct He as (e' & He'). exists e'. split; [|split].
    + intros ->. by apply decode_fuel in He'.
    + unfold getBodyChildren, unmarshalEnvelope. by rewrite He'.
    + intros it' E. discriminate.
Qed.


(** The decoder splits a tag name at its colon. *)
Lemma cut_colon p l :
  xml.colons p = O -> xml.cut (p ++ ":"%char :: l) = Some (p, l).
Proof.
  induction p as [|c p IH]; intros H; [reflexivity|].
  unfold xml.colons in H. rewrite filter_cons in H.
  cbn [app xml.cut]. destruct (Ascii.eqb_spec c ":") as [->|Hc].
  - rewrite decide_True in H by reflexivity. discriminate.
  - rewrite decide_False in H by discriminate.
    by rewrite (IH H).
Qed.

Lemma last_filter_snoc {A} (P : A -> Prop) `{!forall x, Decision (P x)} l x :
  last (filter P (l ++ [x])) = if decide (P x) then Some x else last (filter P l).
Proof.
  rewrite filter_app, filter_cons, filter_nil.
  destruct (decide (P x)); [apply last_snoc | by rewrite app_nil_r].
Qed.

Lemma cut_none tag : xml.colons tag = O -> xml.cut tag = None.
Proof.
  induction tag as [|c tag IH]; intros H; [reflexivity|].
  unfold xml.colons in H. rewrite filter_cons in H.
  cbn [xml.cut]. destruct (Ascii.eqb_spec c ":") as [->|Hc].
  - rewrite decide_True in H by reflexivity. discriminate.
  - rewrite decide_False in H by discriminate. by rewrite (IH H).
Qed.

Lemma Attributes_lookup (n : Node) (k : string) :
  Attributes n !! k =
    xml.attr_Value <$>
      last (filter (fun a => xml.Local (xml.attr_Name a) = k) (Attrs n)).
Proof.
  unfold Attributes.
  assert (H : forall l (m : gmap string string),
    fold_left (fun attrs attr =>
                 <[xml.Local (xml.attr_Name attr) := xml.attr_Value attr]> attrs) l m !! k =
    match last (filter (fun a => xml.Local (xml.attr_Name a) = k) l) with
    | Some a => Some (xml.attr_Value a)
    | None => m !! k
    end).
  { induction l as [|a l IH] using rev_ind; intros m; [reflexivity|].
    rewrite fold_left_app, last_filter_snoc. cbn [fold_left].
    destruct (decide (xml.Local (xml.attr_Name a) = k)) as [<-|Hne].
    - apply lookup_insert_eq.
    - rewrite lookup_insert_ne by done. apply IH. }
  rewrite H, lookup_empty. by destruct (last _).
Qed.

(** C4.  Every node [n] that [getBodyChildren] answers comes from an
    element of the input that is written [<], a name [tag] made of bytes
    that can be part of a name, and then a byte that cannot: these bytes
    alone, in a bare envelope, give [n].
    [Name n] is the local part of [tag]: [tag] itself when it has no
    colon, and what follows the colon when it is written [prefix:local].
    [Attributes n] maps each local attribute name to the value of the last
    attribute of the node with that local name. *)
Theorem Name_Attributes (U : xml.Tables) (data : bytes) (nodes : list Node)
    (i : nat) (n : Node) :
  getBodyChildren U data = (nodes, None) ->
  nodes !! i = Some n ->
  (exists pre tag more post,
     data = pre ++ "<"%char :: tag ++ more ++ post /\
     getBodyChildren U (blankEnvelope ("<"%char :: tag ++ more)) = ([n], None) /\
     xml.isName U tag = true /\
     forallb (fun x => negb (xml.notNameByte x)) tag = true /\
     (exists b, head more = Some b /\ xml.notNameByte b = true) /\
     Name n = xml.Local (xml.splitName tag) /\
     (xml.colons tag = O -> Name n = string_of_list_ascii tag) /\
     (forall p l, tag = p ++ ":"%char :: l -> p <> [] -> l <> [] ->
        xml.colons p = O -> Name n = string_of_list_ascii l)) /\
  (forall k, Attributes n !! k =
     xml.attr_Value <$>
       last (filter (fun a => xml.Local (xml.attr_Name a) = k) (Attrs n))).
Proof.
  intros Hres Hn. split; [|apply Attributes_lookup].
  destruct (extracted_child U _ _ _ _ Hres Hn) as (T1 & k & T3 & e & Et & Hel & Hfit & Hnk).
  destruct (element_tag U _ _ _ _ _ Et Hel)
    as (tag & more & Hraw & Hname & Htag & Hbytes & Hb).
  pose proof (getBodyChildren_bare_elem U _ _ _ _ _ Hel Hfit Et) as Hbare.
  rewrite Hnk, Hraw in Hbare.
  destruct (tokens_slice U _ _ _ _ _ Et) as (pre & post & Hdata & _).
  rewrite spans_flatten, Hraw in Hdata.
  assert (HN : Name n = xml.Local (xml.splitName tag)).
  { destruct (nodesOf_elem [] k Hel) as (nd & Hnd & Hnm & _).
    rewrite Hnk in Hnd. injection Hnd as <-. by rewrite Hnm, Hname. }
  exists pre, tag, more, post.
  split. { rewrite Hdata. cbn [app]. by rewrite <- !app_assoc. }
  split; [exact Hbare|]. split; [exact Htag|]. split; [exact Hbytes|].
  split; [exact Hb|]. split; [exact HN|]. split.
  - intros Hc. rewrite HN. unfold xml.splitName. by rewrite (cut_none _ Hc).
  - intros p l -> Hp Hl Hc. rewrite HN. unfold xml.splitName.
    rewrite (cut_colon p l Hc). destruct p; [done|]. destruct l; [done|].
    reflexivity.
Qed.

(** The budget marker of the model is never an answer of
    [getBodyChildren]. *)
Lemma getBodyChildren_fuel (U : xml.Tables) (data : bytes) (nodes : list Node) :
  getBodyChildren U data <> (nodes, Some (xmlError xml.errFuel)).
Proof.
  unfold getBodyChildren, unmarshalEnvelope, unmarshalWrapper.
  pose proof (decode_fuel U xml.Skipped (Some "Envelope") data) as H1.
  destruct (xml.decode U xml.Skipped (Some "Envelope") data) as [it|e]; [|congruence].
  destruct (Nat.eqb _ 0); [discriminate|].
  match goal with
  | |- context [xml.decode U xml.Unmarshalled (Some "root") ?d] =>
      pose proof (decode_fuel U xml.Unmarshalled (Some "root") d) as H2;
      destruct (xml.decode U xml.Unmarshalled (Some "root") d) as [it'|e']; [|congruence]
  end.
  destruct (Nat.eqb _ 0); discriminate.
Qed.

(** C10.  When [getBodyChildren] answers without an error, it answers at
    least one node. *)
Theorem getBodyChildren_nonempty (U : xml.Tables) (data : bytes)
    (nodes : list Node) :
  getBodyChildren U data = (nodes, None) -> nodes <> [].
Proof.
  unfold getBodyChildren.
  destruct (unmarshalEnvelope U data) as [envelope|e]; [|discriminate].
  destruct (Nat.eqb _ 0); [discriminate|].
  destruct (unmarshalWrapper U _) as [w|e]; [|discriminate].
  destruct (wrapper_Nodes w) as [|n ns]; [discriminate|].
  cbn [length Nat.eqb]. intros E. injection E as <-. discriminate.
Qed.

Example test_simple :
  (map summary (fst (getBodyChildren asciiOnly simpleRequest)),
   snd (getBodyChildren asciiOnly simpleRequest)) =
  ([("text", [("align", "center")], "Hello World");
    ("cut", [("type", "feed")], "")], None).
Proof. vm_compute. reflexivity. Qed.

Example test_image :
  (map summary (fst (getBodyChildren asciiOnly imageRequest)),
   snd (getBodyChildren asciiOnly imageRequest)) =
  ([("image",
     [("width", "256"); ("height", "256"); ("color", "color_1"); ("mode", "mono")],
     "iVBORw0KGgoAAAANSUhEUgAAAAEAAAABCAYAAAAfFcSJAAAADUlEQVR42mP8/5+hHgAHggJ/PchI7wAAAABJRU5ErkJggg==");
    ("feed", [("line", "2")], "")], None).
Proof. vm_compute. reflexivity. Qed.

Example test_receipt :
  (map summary (fst (getBodyChildren asciiOnly receiptRequest)),
   snd (getBodyChildren asciiOnly receiptRequest)) =
  ([("text", [("align", "center"); ("em", "true")], "RECEIPT");
    ("feed", [("line", "1")], "");
    ("text", [("align", "left")], "Item 1: $10.00");
    ("text", [("align", "left")], "Item 2: $15.00");
    ("feed", [("line", "1")], "");
    ("text", [("align", "right"); ("dh", "true")], "Total: $25.00");
    ("feed", [("line", "2")], "");
    ("cut", [("type", "feed")], "");
    ("pulse", [], "")], None).
Proof. vm_compute. reflexivity. Qed.

Example test_empty :
  getBodyChildren asciiOnly emptyRequest = ([], Some ErrBodyElementEmpty).
Proof. vm_compute. reflexivity. Qed.

Example test_invalid :
  getBodyChildren asciiOnly invalidRequest = ([], Some (xmlError xml.UnmarshalError)).
Proof. vm_compute. reflexivity. Qed.

(** The decoder stops at the end tag of the root element: what comes
    before the root or after it is not checked. *)
Example test_trailing :
  map summary (fst (getBodyChildren asciiOnly
     (B "junk<Envelope><Body><a/></Body></Envelope>trailing<<<"))) =
  [("a", [], "")].
Proof. vm_compute. reflexivity. Qed.

(** A duplicated attribute is accepted and the last value stays. *)
Example test_duplicate :
  (fun r => (map summary (fst r), map (fun n => Attributes n !! "a") (fst r)))
    (getBodyChildren asciiOnly prefixedRequest) =
  ([("x", [("a", "1"); ("a", "2")], "tu")], [Some "2"]).
Proof. vm_compute. reflexivity. Qed.

(** Witness of C1: the request of the test "Empty body should return
    error", whose [Body] holds white space only. *)
Lemma getBodyChildren_empty_body_witness :
  getBodyChildren asciiOnly emptyRequest = ([], Some ErrBodyElementEmpty).
Proof.
  apply (getBodyChildren_empty_body asciiOnly emptyRequest emptyRoot emptyBody).
  - vm_compute. reflexivity.
  - vm_compute. reflexivity.
  - vm_compute. reflexivity.
  - vm_compute. reflexivity.
Defined.

(** C2 as the specification states it: every input that is not an envelope
    with a [Body] child fails with an error of the decoder.  An [Envelope]
    without [Body] decodes, and [getBodyChildren] answers
    [ErrBodyElementEmpty] for it. *)
Lemma getBodyChildren_malformed_counterexample :
  ~ (forall U data,
       (forall it, xml.decode U xml.Skipped None data = xml.Ok it ->
          xml.Local (itemName it) = "Envelope" ->
          filter (isElement "Body") (xml.kidsOf it) = []) ->
       exists e, getBodyChildren U data = ([], Some (xmlError e))).
Proof.
  intros H. destruct (H asciiOnly bareEnvelope) as (e & He).
  - intros it Hd _. vm_compute in Hd. injection Hd as <-. reflexivity.
  - vm_compute in He. discriminate.
Qed.

(** The bytes that end a CDATA section are allowed in a quoted value. *)
Example test_bracket_value :
  (fun r => (map summary (fst r), snd r))
    (getBodyChildren asciiOnly
       (dq "<Envelope><Body><text align=`a]]>b`>x</text></Body></Envelope>")) =
  ([("text", [("align", "a]]>b")], "x")], None).
Proof. vm_compute. reflexivity. Qed.

Example test_bare_envelope :
  unmarshalNode asciiOnly bareEnvelope =
    xml.Ok (mkNode (xml.mkName "" "Envelope") [] "" []) /\
  getBodyChildren asciiOnly bareEnvelope = ([], Some ErrBodyElementEmpty).
Proof. split; vm_compute; reflexivity. Qed.

(** Witness of C2 as amended: the request "Invalid XML" of the server
    tests, whose root element is never closed. *)
Lemma getBodyChildren_malformed_witness :
  (exists e, e <> xml.errFuel /\
     getBodyChildren asciiOnly invalidRequest = ([], Some (xmlError e)) /\
     forall it, xml.decode asciiOnly xml.Skipped None invalidRequest = xml.Ok it ->
       xml.Local (itemName it) <> "Envelope" /\ e = xml.UnmarshalError) \/
  (getBodyChildren asciiOnly invalidRequest = ([], Some ErrBodyElementEmpty) /\
   exists it, xml.decode asciiOnly xml.Skipped None invalidRequest = xml.Ok it /\
     xml.Local (itemName it) = "Envelope").
Proof.
  apply (getBodyChildren_malformed asciiOnly invalidRequest).
  intros it Hd. vm_compute in Hd. discriminate.
Defined.


(** The two children of that request are written in the plain way. *)
Example test_simple_written :
  map (fun k => (startBytes k, xml.innerXML k))
      (filter isElem (xml.kidsOf simpleBodyItem)) =
  [(writeStart (B "text") [(B "align", B "center")] false, B "Hello World");
   (writeStart (B "cut") [(B "type", B "feed")] true, [])] /\
  written (B "text") [(B "align", B "center")] = true /\
  written (B "cut") [(B "type", B "feed")] = true /\
  forallb plain (B "Hello World") = true.
Proof. vm_compute. repeat split. Qed.

(** Witness of C4: the node of [<m:x a='1' a='2'>]. *)
Lemma Name_Attributes_witness :
  (exists pre tag more post,
     prefixedRequest = pre ++ "<"%char :: tag ++ more ++ post /\
     getBodyChildren asciiOnly (blankEnvelope ("<"%char :: tag ++ more)) =
       ([prefixedNode], None) /\
     xml.isName asciiOnly tag = true /\
     forallb (fun x => negb (xml.notNameByte x)) tag = true /\
     (exists b, head more = Some b /\ xml.notNameByte b = true) /\
     Name prefixedNode = xml.Local (xml.splitName tag) /\
     (xml.colons tag = O -> Name prefixedNode = string_of_list_ascii tag) /\
     (forall p l, tag = p ++ ":"%char :: l -> p <> [] -> l <> [] ->
        xml.colons p = O -> Name prefixedNode = string_of_list_ascii l)) /\
  (forall k, Attributes prefixedNode !! k =
     xml.attr_Value <$>
       last (filter (fun a => xml.Local (xml.attr_Name a) = k)
                    (Attrs prefixedNode))).
Proof.
  apply (Name_Attributes asciiOnly prefixedRequest [prefixedNode] 0 prefixedNode).
  - vm_compute. reflexivity.
  - vm_compute. reflexivity.
Defined.

Example test_prefixed :
  Name prefixedNode = "x" /\ Attributes prefixedNode !! "a" = Some "2".
Proof. split; vm_compute; reflexivity. Qed.

(** Witness of C10. *)
Lemma getBodyChildren_nonempty_witness :
  fst (getBodyChildren asciiOnly simpleRequest) <> [].
Proof.
  apply (getBodyChildren_nonempty asciiOnly simpleRequest).
  vm_compute. reflexivity.
Defined.

(** * The claims about the adapter and the encoder *)

Section AdapterFacts.
Variable apply : Job.PrinterState -> Node -> Job.ElementError + Job.PrinterState * bytes.

Lemma run_app i st l1 l2 :
  Job.run apply i st (l1 ++ l2) =
    let '(st1, out1, sk1) := Job.run apply i st l1 in
    let '(st2, out2, sk2) := Job.run apply (i + length l1) st1 l2 in
    (st2, out1 ++ out2, sk1 ++ sk2).
Proof.
  revert i st. induction l1 as [|e l1 IH]; intros i st.
  - cbn [app Job.run length]. rewrite Nat.add_0_r.
    by destruct (Job.run apply i st l2) as [[st2 out2] sk2].
  - cbn [app Job.run length]. destruct (apply st e) as [err|[st' out]].
    + rewrite IH. replace (Datatypes.S i + length l1)%nat
        with (i + Datatypes.S (length l1))%nat by lia.
      destruct (Job.run apply (Datatypes.S i) st l1) as [[st1 out1] sk1].
      by destruct (Job.run apply _ st1 l2) as [[st2 out2] sk2].
    + rewrite IH. replace (Datatypes.S i + length l1)%nat
        with (i + Datatypes.S (length l1))%nat by lia.
      destruct (Job.run apply (Datatypes.S i) st' l1) as [[st1 out1] sk1].
      destruct (Job.run apply _ st1 l2) as [[st2 out2] sk2].
      by rewrite app_assoc.
Qed.

End AdapterFacts.

(** C6.  A job that is answered with success has written to the device,
    in one write, the init bytes 0x1B 0x40, then the bytes of its
    elements, then the end-of-job marker 0xFA. *)
Theorem process_framing
    (apply : Job.PrinterState -> Node -> Job.ElementError + Job.PrinterState * bytes)
    (U : xml.Tables) (request : bytes) (dev dev' : Job.Device)
    (sk : list (nat * string * Job.ElementError)) :
  Job.process apply U request dev = (dev', Job.Success sk) ->
  exists mid,
    dev' = dev ++ [[byte_of 27; byte_of 64] ++ mid ++ [byte_of 250]] /\
    Job.written dev' = Job.written dev ++ [byte_of 27; byte_of 64] ++ mid ++ [byte_of 250].
Proof.
  unfold Job.process. destruct (getBodyChildren U request) as [nodes [err|]];
    [discriminate|].
  destruct (Job.run apply 0 Job.defaultState nodes) as [[st out] sk'].
  intros E. injection E as <- _. exists out. split; [reflexivity|].
  unfold Job.written, Job.write. rewrite concat_app. simpl.
  by rewrite app_nil_r.
Qed.

(** C7.  When the extraction fails, the adapter leaves the device as it
    was and answers a fault with status 400 whose fault string contains
    "cannot parse XML". *)
Theorem process_parse_failure
    (apply : Job.PrinterState -> Node -> Job.ElementError + Job.PrinterState * bytes)
    (U : xml.Tables) (request : bytes) (dev : Job.Device)
    (nodes : list Node) (err : error) :
  getBodyChildren U request = (nodes, Some err) ->
  exists fs,
    Job.process apply U request dev = (dev, Job.Fault 400 fs) /\
    Job.statusCode (Job.Fault 400 fs) = 400%nat /\
    Job.contains fs "cannot parse XML" = true /\
    Job.written (fst (Job.process apply U request dev)) = Job.written dev.
Proof.
  intros E. exists "cannot parse XML". unfold Job.process. rewrite E.
  repeat split.
Qed.

(** C8.  For a width and a height between 1 and 8 the encoder answers the
    byte ((width-1)<<4)|(height-1), from which both are read back; for any
    other width or height it answers [InvalidParameter]. *)
Theorem sizeByte_spec (width height : Z) :
  ((1 <= width <= 8)%Z /\ (1 <= height <= 8)%Z ->
   exists b,
     Job.sizeByte width height = inr b /\
     b = Z.lor (Z.shiftl (width - 1) 4) (height - 1) /\
     (0 <= b < 256)%Z /\
     Z.shiftr b 4 = (width - 1)%Z /\ Z.land b 15 = (height - 1)%Z) /\
  (~ ((1 <= width <= 8)%Z /\ (1 <= height <= 8)%Z) ->
   Job.sizeByte width height = inl Job.InvalidParameter).
Proof.
  unfold Job.sizeByte. split.
  - intros [Hw Hh].
    assert (Hw' : (width = 1 \/ width = 2 \/ width = 3 \/ width = 4 \/
                   width = 5 \/ width = 6 \/ width = 7 \/ width = 8)%Z) by lia.
    assert (Hh' : (height = 1 \/ height = 2 \/ height = 3 \/ height = 4 \/
                   height = 5 \/ height = 6 \/ height = 7 \/ height = 8)%Z) by lia.
    eexists. repeat split.
    + replace ((1 <=? width) && (width <=? 8) && (1 <=? height) && (height <=? 8))%Z
        with true; [reflexivity|].
      symmetry. repeat (apply andb_true_iff; split); lia.
    + destruct Hw' as [->|[->|[->|[->|[->|[->|[->| ->]]]]]]];
      destruct Hh' as [->|[->|[->|[->|[->|[->|[->| ->]]]]]]]; vm_compute; done.
    + destruct Hw' as [->|[->|[->|[->|[->|[->|[->| ->]]]]]]];
      destruct Hh' as [->|[->|[->|[->|[->|[->|[->| ->]]]]]]]; vm_compute; done.
    + destruct Hw' as [->|[->|[->|[->|[->|[->|[->| ->]]]]]]];
      destruct Hh' as [->|[->|[->|[->|[->|[->|[->| ->]]]]]]]; vm_compute; done.
    + destruct Hw' as [->|[->|[->|[->|[->|[->|[->| ->]]]]]]];
      destruct Hh' as [->|[->|[->|[->|[->|[->|[->| ->]]]]]]]; vm_compute; done.
  - intros H.
    destruct ((1 <=? width) && (width <=? 8) && (1 <=? height) && (height <=? 8))%Z
      eqn:E; [|reflexivity].
    exfalso. apply H. repeat (apply andb_true_iff in E as [E ?]). lia.
Qed.

(** C9.  When an element of the sequence fails with an element-stage
    error, the job writes the bytes of the elements before it followed by
    those of the elements after it, emitted from the state the failing
    element found, and is answered with success; the failing element is
    recorded with its index and name. *)
Theorem process_skips
    (apply : Job.PrinterState -> Node -> Job.ElementError + Job.PrinterState * bytes)
    (U : xml.Tables) (request : bytes) (dev : Job.Device)
    (pre post : list Node) (e : Node) (err : Job.ElementError)
    (st1 st2 : Job.PrinterState) (out1 out2 : bytes)
    (sk1 sk2 : list (nat * string * Job.ElementError)) :
  getBodyChildren U request = (pre ++ e :: post, None) ->
  Job.run apply 0 Job.defaultState pre = (st1, out1, sk1) ->
  apply st1 e = inl err ->
  Job.run apply (Datatypes.S (length pre)) st1 post = (st2, out2, sk2) ->
  Job.process apply U request dev =
    (Job.write dev (Job.initCmd ++ (out1 ++ out2) ++ Job.endMarker),
     Job.Success (sk1 ++ (length pre, Name e, err) :: sk2)) /\
  Job.run apply 0 Job.defaultState (pre ++ e :: post) =
    (st2, out1 ++ out2, sk1 ++ (length pre, Name e, err) :: sk2).
Proof.
  intros Hreq Hpre Herr Hpost.
  assert (Hrun : Job.run apply 0 Job.defaultState (pre ++ e :: post) =
                 (st2, out1 ++ out2, sk1 ++ (length pre, Name e, err) :: sk2)).
  { rewrite run_app, Hpre. cbn [Job.run Nat.add]. rewrite Herr, Hpost.
    reflexivity. }
  split; [|exact Hrun].
  unfold Job.process. rewrite Hreq, Hrun. reflexivity.
Qed.

(** Witness of C6. *)
Lemma process_framing_witness :
  exists mid,
    fst (Job.process feedOnly asciiOnly feedRequest []) =
      [] ++ [[byte_of 27; byte_of 64] ++ mid ++ [byte_of 250]] /\
    Job.written (fst (Job.process feedOnly asciiOnly feedRequest [])) =
      Job.written [] ++ [byte_of 27; byte_of 64] ++ mid ++ [byte_of 250].
Proof.
  apply (process_framing feedOnly asciiOnly feedRequest [] _
           [(1%nat, "bogus", Job.UnsupportedElement)]).
  vm_compute. reflexivity.
Defined.

(** Witness of C7: the request "Invalid XML" of the server tests. *)
Lemma process_parse_failure_witness :
  exists fs,
    Job.process feedOnly asciiOnly invalidRequest [] = ([], Job.Fault 400 fs) /\
    Job.statusCode (Job.Fault 400 fs) = 400%nat /\
    Job.contains fs "cannot parse XML" = true /\
    Job.written (fst (Job.process feedOnly asciiOnly invalidRequest [])) =
      Job.written [].
Proof.
  apply (process_parse_failure feedOnly asciiOnly invalidRequest [] []
           (xmlError xml.UnmarshalError)).
  vm_compute. reflexivity.
Defined.

(** Witness of C8: size 2 x 3 is the byte 0x12, sizes 0 and 9 are
    refused. *)
Lemma sizeByte_spec_witness :
  (exists b, Job.sizeByte 2 3 = inr b /\ b = 18%Z) /\
  Job.sizeByte 0 3 = inl Job.InvalidParameter /\
  Job.sizeByte 2 9 = inl Job.InvalidParameter.
Proof.
  split; [|split].
  - destruct (proj1 (sizeByte_spec 2 3)) as (b & Hb & Hv & _); [lia|].
    exists b. split; [exact Hb|]. rewrite Hv. reflexivity.
  - apply (proj2 (sizeByte_spec 0 3)). lia.
  - apply (proj2 (sizeByte_spec 2 9)). lia.
Defined.

(** Witness of C9: the unsupported element between two feeds is skipped. *)
Lemma process_skips_witness :
  Job.process feedOnly asciiOnly feedRequest [] =
    (Job.write [] (Job.initCmd ++ ([byte_of 10] ++ [byte_of 10]) ++ Job.endMarker),
     Job.Success ([] ++ (1%nat, "bogus", Job.UnsupportedElement) :: [])) /\
  Job.run feedOnly 0 Job.defaultState ([feedNode] ++ bogusNode :: [feedNode]) =
    (Job.defaultState, [byte_of 10] ++ [byte_of 10],
     [] ++ (1%nat, "bogus", Job.UnsupportedElement) :: []).
Proof.
  apply (process_skips feedOnly asciiOnly feedRequest [] [feedNode] [feedNode]
           bogusNode Job.UnsupportedElement Job.defaultState Job.defaultState
           [byte_of 10] [byte_of 10] [] []).
  - vm_compute. reflexivity.
  - vm_compute. reflexivity.
  - vm_compute. reflexivity.
  - vm_compute. reflexivity.
Defined.

(** * Further properties of [util.go] *)

(** ** The attribute map *)

Lemma Attributes_fold_dom l (m : gmap string string) :
  dom (fold_left
         (fun attrs attr => <[xml.Local (xml.attr_Name attr) := xml.attr_Value attr]> attrs)
         l m) = dom m ∪ list_to_set (map attrKey l).
Proof.
  revert m. induction l as [|a l IH]; intros m; cbn [fold_left map].
  - rewrite list_to_set_nil. by rewrite (right_id_L ∅ (∪)).
  - rewrite IH, dom_insert_L, list_to_set_cons. unfold attrKey.
    rewrite (assoc_L (∪)). f_equal. apply (comm_L (∪)).
Qed.

Lemma Attributes_dom n :
  dom (Attributes n) = list_to_set (map attrKey (Attrs n)).
Proof.
  unfold Attributes. rewrite Attributes_fold_dom, dom_empty_L.
  by rewrite (left_id_L ∅ (∪)).
Qed.

Lemma size_keys (l : list string) :
  (size (list_to_set l : gset string) <= length l)%nat /\
  (size (list_to_set l : gset string) = length l <-> NoDup l).
Proof.
  induction l as [|x l [IH1 IH2]].
  - rewrite list_to_set_nil, size_empty. split; [simpl; lia|].
    split; [constructor | reflexivity].
  - rewrite list_to_set_cons. cbn [length].
    destruct (decide (x ∈ l)) as [Hin|Hout].
    + assert (E : ({[x]} ∪ list_to_set l : gset string) = list_to_set l).
      { apply subseteq_union_1_L, singleton_subseteq_l.
        by apply elem_of_list_to_set. }
      rewrite E. split; [lia|]. split; [lia|].
      intros H. apply NoDup_cons in H as [H _]. contradiction.
    + rewrite size_union by (apply disjoint_singleton_l; by rewrite elem_of_list_to_set).
      rewrite size_singleton.
      split; [lia|]. rewrite NoDup_cons. split.
      * intros H. split; [exact Hout|]. apply IH2. lia.
      * intros [_ H]. apply IH2 in H. lia.
Qed.

(** The loop of [Attributes] builds the map of the attribute list read
    backwards. *)
Lemma Attributes_pairs n :
  Attributes n =
  list_to_map (rev (map (fun a => (attrKey a, xml.attr_Value a)) (Attrs n))).
Proof.
  unfold Attributes.
  induction (Attrs n) as [|a l IH] using rev_ind; [reflexivity|].
  rewrite fold_left_app, map_app, rev_app_distr. simpl. by rewrite IH.
Qed.

(** X1.  The keys of the map that [Attributes] answers are the local names
    of the attributes of the node, no more and no less: a key is present
    exactly when some attribute of the node has it as its local name, and a
    name that no attribute carries is looked up in vain. *)
Theorem Attributes_keys (n : Node) (k : string) :
  (is_Some (Attributes n !! k) <->
     exists a, a ∈ Attrs n /\ xml.Local (xml.attr_Name a) = k) /\
  (Attributes n !! k = None <->
     forall a, a ∈ Attrs n -> xml.Local (xml.attr_Name a) <> k).
Proof.
  assert (H : is_Some (Attributes n !! k) <->
     exists a, a ∈ Attrs n /\ xml.Local (xml.attr_Name a) = k).
  { rewrite <- elem_of_dom, Attributes_dom, elem_of_list_to_set.
    change (map attrKey (Attrs n)) with (attrKey <$> Attrs n).
    rewrite list_elem_of_fmap. unfold attrKey. split.
    - intros (a & -> & Ha). by exists a.
    - intros (a & Ha & <-). by exists a. }
  split; [exact H|].
  rewrite eq_None_not_Some, H. split.
  - intros Hn a Ha Hk. apply Hn. by exists a.
  - intros Hn (a & Ha & Hk). by apply (Hn a).
Qed.

(** X2.  The map that [Attributes] answers never has more entries than the
    node has attributes, and it has as many exactly when no two attributes
    of the node share a local name: that is when no attribute is lost. *)
Theorem Attributes_size (n : Node) :
  (size (Attributes n) <= length (Attrs n))%nat /\
  (size (Attributes n) = length (Attrs n) <->
     NoDup (map (fun a => xml.Local (xml.attr_Name a)) (Attrs n))).
Proof.
  rewrite <- size_dom, Attributes_dom.
  pose proof (size_keys (map attrKey (Attrs n))) as [H1 H2].
  rewrite length_map in H1, H2. split; [exact H1 | exact H2].
Qed.

(** X3.  When the attributes of a node have distinct local names, the
    order in which they are written does not matter to [Attributes]: a node
    with the same attributes in another order has the same map. *)
Theorem Attributes_permutation (n m : Node) :
  NoDup (map (fun a => xml.Local (xml.attr_Name a)) (Attrs n)) ->
  Attrs n ≡ₚ Attrs m ->
  Attributes n = Attributes m.
Proof.
  intros Hnd Hp. rewrite !Attributes_pairs.
  apply list_to_map_proper.
  - change (NoDup (map fst (rev (map (fun a => (attrKey a, xml.attr_Value a)) (Attrs n))))).
    rewrite map_rev, map_map, <- Permutation_rev. exact Hnd.
  - rewrite <- !Permutation_rev. by apply Permutation_map.
Qed.

(** Witness of X3: the attributes of the node of [TestNodeMethods], in
    both orders. *)
Lemma Attributes_permutation_witness : Attributes alignEm = Attributes emAlign.
Proof.
  apply (Attributes_permutation alignEm emAlign).
  - apply NoDup_cons. split; [|apply NoDup_singleton].
    intros H. apply list_elem_of_singleton in H. discriminate.
  - apply perm_swap.
Defined.


(** X4.  When the first [Unmarshal] succeeds, the bytes it stores in
    [envelope.Body.Content] are a slice of the input, byte for byte: the
    input is some bytes, then the content, then some more bytes, and when
    the content is not empty what follows it starts with the [<] of the end
    tag of the [Body]. *)
Theorem Body_Content_slice (U : xml.Tables) (data : bytes) (envelope : Envelope) :
  unmarshalEnvelope U data = xml.Ok envelope ->
  exists pre post,
    data = pre ++ Body_Content (Envelope_Body envelope) ++ post /\
    (Body_Content (Envelope_Body envelope) <> [] -> head post = Some "<"%char).
Proof.
  intros E. apply bodyContent_inv in E as (it & Ed & ->).
  destruct (last _) as [b|] eqn:Hlast; [|by exists [], data].
  apply body_position in Hlast as (k1 & k2 & Hk & _ & _).
  destruct b as [nb ab ob kb cb|nb ab rb|d rb|m rb]; cbn [xml.innerXML];
    try by exists [], data.
  apply decode_inv in Ed as (_ & _ & pre & post & Htok).
  destruct it as [n a o kids cl| | |]; simpl in Hk; try by destruct k1.
  subst kids.
  destruct (xml.tokens U data) as [toks e] eqn:Et. simpl in Htok. subst toks.
  assert (Et' : xml.tokens U data =
    (((pre ++ (xml.StartElement n a false, o) :: flat_map flatten k1 ++
        [(xml.StartElement nb ab false, ob)]) ++ flat_map flatten kb) ++
     (xml.EndElement nb, cb) :: flat_map flatten k2 ++ (xml.EndElement n, cl) :: post, e)).
  { rewrite Et. f_equal. cbn [flatten]. rewrite flat_map_app. cbn [flat_map flatten].
    repeat (rewrite <- ?app_assoc, <- ?app_comm_cons). reflexivity. }
  apply tokens_reads in Et' as (r1 & Hr & Et1).
  apply tokens_head in Et1 as (r2 & Et1). apply rawToken_tag in Et1.
  apply (reads_spans U) in Hr.
  exists (spans (pre ++ (xml.StartElement n a false, o) :: flat_map flatten k1 ++
                   [(xml.StartElement nb ab false, ob)])), r1.
  split; [|by intros _].
  by rewrite Hr, spans_app, spans_flat, <- app_assoc.
Qed.

(** Witness of X4: the request "Simple text print request". *)
Lemma Body_Content_slice_witness :
  exists pre post,
    simpleRequest = pre ++ Body_Content (Envelope_Body simpleEnvelope) ++ post /\
    (Body_Content (Envelope_Body simpleEnvelope) <> [] -> head post = Some "<"%char).
Proof.
  apply (Body_Content_slice asciiOnly simpleRequest simpleEnvelope).
  vm_compute. reflexivity.
Defined.

(** X5.  The content of the [Body] can be taken out of its envelope and
    put into a bare one: [<Envelope><Body>], the content, [</Body></Envelope>]
    unmarshals to an envelope with the same content, and [getBodyChildren]
    answers for it what it answers for the input.  So the answer depends
    on the input through [envelope.Body.Content] alone: neither the
    attributes of [Envelope] and [Body], name space bindings among them, nor
    what else the envelope holds have a part in it. *)
Theorem Body_Content_round_trip (U : xml.Tables) (data : bytes)
    (envelope : Envelope) :
  unmarshalEnvelope U data = xml.Ok envelope ->
  unmarshalEnvelope U (blankEnvelope (Body_Content (Envelope_Body envelope))) =
    xml.Ok (mkEnvelope envelopeTag
              (mkBody bodyTag (Body_Content (Envelope_Body envelope)))) /\
  getBodyChildren U (blankEnvelope (Body_Content (Envelope_Body envelope))) =
    getBodyChildren U data.
Proof.
  intros E. pose proof (unmarshalEnvelope_bare U _ _ E) as E'.
  split; [exact E'|]. by eapply getBodyChildren_content.
Qed.

(** Witness of X5: the request "Simple text print request", whose
    envelope and body carry name space bindings. *)
Lemma Body_Content_round_trip_witness :
  unmarshalEnvelope asciiOnly
      (blankEnvelope (Body_Content (Envelope_Body simpleEnvelope))) =
    xml.Ok (mkEnvelope envelopeTag
              (mkBody bodyTag (Body_Content (Envelope_Body simpleEnvelope)))) /\
  getBodyChildren asciiOnly
      (blankEnvelope (Body_Content (Envelope_Body simpleEnvelope))) =
    getBodyChildren asciiOnly simpleRequest.
Proof.
  apply (Body_Content_round_trip asciiOnly simpleRequest simpleEnvelope).
  vm_compute. reflexivity.
Defined.

(** X6.  When the first [Unmarshal] succeeds, it has read the input up to
    the end of the root element and no further.  The bytes [doc] up to
    there are the shortest beginning of the input that [Unmarshal]
    accepts: cut anywhere before its end, it is refused.  Whatever is put
    in the place of the bytes that follow [doc], and whatever is appended
    to the input, [Unmarshal] gives the same envelope and
    [getBodyChildren] answers the same. *)
Theorem getBodyChildren_trailing (U : xml.Tables) (data : bytes)
    (envelope : Envelope) :
  unmarshalEnvelope U data = xml.Ok envelope ->
  (forall junk, getBodyChildren U (data ++ junk) = getBodyChildren U data) /\
  exists doc rest, data = doc ++ rest /\
    (forall rest', unmarshalEnvelope U (doc ++ rest') = xml.Ok envelope /\
                   getBodyChildren U (doc ++ rest') = getBodyChildren U data) /\
    (forall p q, doc = p ++ q -> q <> [] ->
       exists e, unmarshalEnvelope U p = xml.Err e).
Proof.
  intros E. pose proof E as E0. unfold unmarshalEnvelope in E.
  destruct (xml.decode U xml.Skipped (Some "Envelope") data) as [it|e] eqn:Ed;
    [|discriminate].
  injection E as E.
  pose proof (decode_inv U _ _ _ _ Ed) as (Hel & _).
  destruct (decode_closed U _ _ _ _ Ed) as (pre & doc & rest & -> & Hdoc & Hpre & H).
  assert (HU : forall rest', unmarshalEnvelope U (doc ++ rest') = xml.Ok envelope).
  { intros rest'. unfold unmarshalEnvelope. by rewrite (proj2 (H rest')), E. }
  assert (H' : forall rest', getBodyChildren U (doc ++ rest') =
                             getBodyChildren U (doc ++ rest)).
  { intros rest'. by apply (getBodyChildren_content U _ _ envelope envelope). }
  split.
  - intros junk. rewrite <- app_assoc. apply H'.
  - exists doc, rest. split; [reflexivity|]. split; [by split|].
    intros p q Hp Hq.
    destruct (unmarshalEnvelope U p) as [env'|e'] eqn:Ep; [|by exists e'].
    exfalso. unfold unmarshalEnvelope in Ep.
    destruct (xml.decode U xml.Skipped (Some "Envelope") p) as [it'|e'] eqn:Edp;
      [|discriminate].
    destruct (decode_closed U _ _ _ _ Edp) as (pre' & doc' & rest'' & Hp' & Hdoc' & Hpre' & H2).
    assert (Hdata : doc ++ rest = doc' ++ (rest'' ++ q ++ rest)).
    { rewrite Hp, Hp'. by rewrite <- !app_assoc. }
    pose proof (H2 (rest'' ++ q ++ rest)) as [Ht2 Hd2].
    rewrite <- Hdata in Ht2, Hd2. rewrite Ed in Hd2. injection Hd2 as ->.
    pose proof (H rest) as [Ht1 _]. rewrite Ht1 in Ht2.
    destruct (flatten_first _ Hel) as (x & A & Hx & Htag). rewrite Hx in Ht2.
    cbn [app] in Ht2.
    pose proof (first_tag _ _ _ _ _ _ Hpre Hpre' Htag Htag Ht2) as Heq.
    subst pre'. rewrite <- Hdoc in Hdoc'. subst doc'.
    apply (f_equal length) in Hp. rewrite Hp' in Hp.
    rewrite !length_app in Hp. destruct q; [done|]. simpl in Hp. lia.
Qed.

(** Witness of X6: the request "Simple text print request". *)
Lemma getBodyChildren_trailing_witness :
  (forall junk, getBodyChildren asciiOnly (simpleRequest ++ junk) =
                getBodyChildren asciiOnly simpleRequest) /\
  exists doc rest, simpleRequest = doc ++ rest /\
    (forall rest', unmarshalEnvelope asciiOnly (doc ++ rest') = xml.Ok simpleEnvelope /\
                   getBodyChildren asciiOnly (doc ++ rest') =
                   getBodyChildren asciiOnly simpleRequest) /\
    (forall p q, doc = p ++ q -> q <> [] ->
       exists e, unmarshalEnvelope asciiOnly p = xml.Err e).
Proof.
  apply (getBodyChildren_trailing asciiOnly simpleRequest simpleEnvelope).
  vm_compute. reflexivity.
Defined.

(** X7.  What comes before the root element is passed over.  When the
    input starts with a token that is not a tag (text, a comment, a
    processing instruction such as the XML declaration, or a directive)
    and the first [Unmarshal] accepts the bytes after that token, it
    gives the same envelope for the input and [getBodyChildren] answers
    the same for both.  When it refuses the bytes after the token,
    [getBodyChildren] fails on the input with an error of the decoder;
    that error need not be the same, since a syntax error tells the line
    it was found on. *)
Theorem getBodyChildren_prolog (U : xml.Tables) (data rest : bytes)
    (t : xml.Token) :
  xml.rawToken U data = xml.Ok (t, rest) ->
  isTag t = false ->
  (forall envelope, unmarshalEnvelope U rest = xml.Ok envelope ->
     unmarshalEnvelope U data = xml.Ok envelope /\
     getBodyChildren U data = getBodyChildren U rest) /\
  (forall e, unmarshalEnvelope U rest = xml.Err e ->
     exists e', getBodyChildren U data = ([], Some (xmlError e'))).
Proof.
  intros E Ht.
  assert (H : unmarshalEnvelope U data = unmarshalEnvelope U rest).
  { unfold unmarshalEnvelope. by rewrite (decode_skip U _ _ _ _ _ E Ht). }
  split.
  - intros envelope He. split; [by rewrite H|].
    unfold getBodyChildren. by rewrite H.
  - intros e He. exists e. unfold getBodyChildren. by rewrite H, He.
Qed.

(** Witness of X7: the XML declaration of the request "Simple text print
    request". *)
Lemma getBodyChildren_prolog_witness :
  (forall envelope, unmarshalEnvelope asciiOnly (snd simpleProlog) = xml.Ok envelope ->
     unmarshalEnvelope asciiOnly simpleRequest = xml.Ok envelope /\
     getBodyChildren asciiOnly simpleRequest =
     getBodyChildren asciiOnly (snd simpleProlog)) /\
  (forall e, unmarshalEnvelope asciiOnly (snd simpleProlog) = xml.Err e ->
     exists e', getBodyChildren asciiOnly simpleRequest = ([], Some (xmlError e'))).
Proof.
  apply (getBodyChildren_prolog asciiOnly simpleRequest (snd simpleProlog)
           (fst simpleProlog)).
  - vm_compute. reflexivity.
  - vm_compute. reflexivity.
Defined.

(** X8.  When the envelope has more than one [Body] child, each is
    unmarshalled into the one field [envelope.Body] and the last one
    stays, whatever the earlier ones hold.  For an input that
    [xml.Unmarshal] accepts for a [Node] and whose root element is an
    [Envelope]: [envelope.Body.Content] is what the input holds between
    the tags of the last [Body]; [getBodyChildren] answers what it answers
    for these bytes alone in a bare envelope; and it answers the nodes of
    the child elements of the last [Body], which hold what the
    specification asks of their tokens, or [ErrBodyElementEmpty] when
    there is none. *)
Theorem getBodyChildren_last_Body (U : xml.Tables) (data : bytes)
    (it b : xml.Item) :
  xml.decode U xml.Unmarshalled None data = xml.Ok it ->
  xml.Local (itemName it) = "Envelope" ->
  last (filter (isElement "Body") (xml.kidsOf it)) = Some b ->
  (exists envelope, unmarshalEnvelope U data = xml.Ok envelope /\
     Body_Content (Envelope_Body envelope) = xml.innerXML b) /\
  (exists pre post, data = pre ++ xml.raw b ++ post) /\
  getBodyChildren U data = getBodyChildren U (blankEnvelope (xml.innerXML b)) /\
  exists nodes,
    map specOfNode nodes = flat_map specElements (xml.kidsOf b) /\
    getBodyChildren U data =
      match nodes with
      | [] => ([], Some ErrBodyElementEmpty)
      | _ => (nodes, None)
      end.
Proof.
  intros Hd Hname Hlast.
  pose proof (decode_admits U _ _ _ _ Hd) as Hfit.
  pose proof (last_admitted _ _ _ Hfit Hlast) as Hfitb.
  apply decode_unlimited in Hd.
  assert (Hde : xml.decode U xml.Skipped (Some "Envelope") data = xml.Ok it).
  { by rewrite (decode_expected U _ _ _ _ Hd), Hname. }
  assert (HE : exists envelope, unmarshalEnvelope U data = xml.Ok envelope /\
     Body_Content (Envelope_Body envelope) = xml.innerXML b).
  { unfold unmarshalEnvelope. rewrite Hde. eexists. split; [reflexivity|].
    cbn [Envelope_Body]. by rewrite fold_bodyOf, Hlast. }
  split; [exact HE|]. split; [|split].
  - assert (Hbi : b ∈ xml.kidsOf it).
    { apply last_Some in Hlast as (l' & Hl).
      assert (Hin' : b ∈ filter (isElement "Body") (xml.kidsOf it)).
      { rewrite Hl. apply elem_of_app. right. by apply list_elem_of_singleton. }
      by apply list_elem_of_filter in Hin' as [_ Hin']. }
    pose proof (decode_inv U _ _ _ _ Hde) as (_ & _ & pre & post & Htok).
    destruct (flatten_kid _ _ Hbi) as (A1 & A2 & HA).
    destruct (xml.tokens U data) as [toks e] eqn:Et. simpl in Htok. subst toks.
    assert (Et' : xml.tokens U data = ((pre ++ A1) ++ flatten b ++ (A2 ++ post), e)).
    { rewrite Et. f_equal. rewrite HA. by rewrite <- !app_assoc. }
    apply tokens_slice in Et' as (p & q & Hp & _). rewrite spans_flatten in Hp.
    by exists p, q.
  - destruct HE as (envelope & He & Hc). rewrite <- Hc. symmetry.
    pose proof (unmarshalEnvelope_bare U _ _ He) as E'.
    by eapply getBodyChildren_content.
  - exists (flat_map (nodesOf []) (xml.kidsOf b)). split; [apply spec_nodes|].
    rewrite (getBodyChildren_decoded U data it Hde), Hlast. unfold bodyResult.
    rewrite Hfitb. by destruct (flat_map (nodesOf []) (xml.kidsOf b)).
Qed.

(** Witness of X8: an envelope with two [Body] elements. *)
Lemma getBodyChildren_last_Body_witness :
  (exists envelope, unmarshalEnvelope asciiOnly twoBodies = xml.Ok envelope /\
     Body_Content (Envelope_Body envelope) = xml.innerXML twoBodiesLastItem) /\
  (exists pre post, twoBodies = pre ++ xml.raw twoBodiesLastItem ++ post) /\
  getBodyChildren asciiOnly twoBodies =
    getBodyChildren asciiOnly (blankEnvelope (xml.innerXML twoBodiesLastItem)) /\
  exists nodes,
    map specOfNode nodes = flat_map specElements (xml.kidsOf twoBodiesLastItem) /\
    getBodyChildren asciiOnly twoBodies =
      match nodes with
      | [] => ([], Some ErrBodyElementEmpty)
      | _ => (nodes, None)
      end.
Proof.
  apply (getBodyChildren_last_Body asciiOnly twoBodies twoBodiesTree twoBodiesLastItem).
  - vm_compute. reflexivity.
  - vm_compute. reflexivity.
  - vm_compute. reflexivity.
Defined.

Example test_two_bodies :
  (map summary (fst (getBodyChildren asciiOnly twoBodies)),
   snd (getBodyChildren asciiOnly twoBodies)) =
  ([("b", [], ""); ("c", [], "")], None).
Proof. vm_compute. reflexivity. Qed.

(** X9.  Every node that [getBodyChildren] answers, and every descendant
    of such a node, has a name: [Name] never answers the empty string for
    it.  Nor is the empty string a key of its [Attributes]. *)
Theorem extracted_names_nonempty (U : xml.Tables) (data : bytes)
    (nodes : list Node) (i : nat) (n : Node) :
  getBodyChildren U data = (nodes, None) ->
  flat_map subnodes nodes !! i = Some n ->
  Name n <> "" /\ Attributes n !! "" = None.
Proof.
  intros Hres Hn. apply list_elem_of_lookup_2 in Hn.
  apply getBodyChildren_success_inv in Hres as (d & it & Ed & ->).
  pose proof (tokens_named U d) as Hd.
  apply decode_inv in Ed as (_ & _ & pre & post & Htok). rewrite Htok in Hd.
  apply Forall_app in Hd as [_ Hd]. apply Forall_app in Hd as [Hd _].
  assert (H : Forall (fun nd => Name nd <> "" /\
            Forall (fun at' => xml.Local (xml.attr_Name at') <> "") (Attrs nd))
         (flat_map subnodes (flat_map (nodesOf (innerEnv [] it)) (xml.kidsOf it)))).
  { destruct it as [n0 a o kids c| | |]; try constructor.
    cbn [xml.kidsOf innerEnv flatten] in *.
    inversion Hd as [|? ? _ Hk]; subst. apply Forall_app in Hk as [Hk _].
    generalize (xml.declare a []). intros env. clear -Hk.
    induction kids as [|k kids IH]; [constructor|].
    cbn [flat_map] in *. apply Forall_app in Hk as [Hk1 Hk2].
    rewrite flat_map_app. apply Forall_app. split; [by apply (nodesOf_named U) | by apply IH]. }
  apply (proj1 (Forall_forall _ _) H) in Hn as [Hname Hattrs].
  split; [exact Hname|].
  rewrite Attributes_lookup.
  destruct (last _) as [a|] eqn:Hlast; [|reflexivity].
  apply last_Some in Hlast as (l' & Hl).
  assert (Hin : a ∈ filter (fun a => xml.Local (xml.attr_Name a) = "") (Attrs n)).
  { rewrite Hl. apply elem_of_app. right. by apply list_elem_of_singleton. }
  apply list_elem_of_filter in Hin as [Ha Hin].
  apply (proj1 (Forall_forall _ _) Hattrs) in Hin. contradiction.
Qed.

(** Witness of X9: the element [y] inside [<m:x a='1' a='2'>]. *)
Lemma extracted_names_nonempty_witness :
  Name prefixedChild <> "" /\ Attributes prefixedChild !! "" = None.
Proof.
  apply (extracted_names_nonempty asciiOnly prefixedRequest [prefixedNode] 1
           prefixedChild).
  - vm_compute. reflexivity.
  - vm_compute. reflexivity.
Defined.

(** X10.  A request whose first tag is a start tag with a local name other
    than [Envelope] is refused with the decoder's [UnmarshalError], whatever
    follows that tag: the name is checked before anything else of the
    element is read, so that a document that is cut short or ill-formed
    further on is reported as having the wrong root. *)
Theorem getBodyChildren_wrong_root (U : xml.Tables) (data rest : bytes)
    (n : xml.Name) (a : list xml.Attr) (e : bool) :
  xml.rawToken U data = xml.Ok (xml.StartElement n a e, rest) ->
  xml.Local n <> "Envelope" ->
  getBodyChildren U data = ([], Some (xmlError xml.UnmarshalError)).
Proof.
  intros E Hn. destruct (tokens_step U _ _ _ E) as (c & _ & _ & Et).
  unfold getBodyChildren, unmarshalEnvelope, xml.decode. rewrite Et.
  cbn [fst snd xml.findStart].
  destruct (String.eqb_spec "Envelope" (xml.Local n)) as [Heq|_]; [|reflexivity].
  by destruct Hn.
Qed.

(** Witness of X10: the request "Invalid XML" of the server tests. *)
Lemma getBodyChildren_wrong_root_witness :
  getBodyChildren asciiOnly invalidRequest =
    ([], Some (xmlError xml.UnmarshalError)).
Proof.
  apply (getBodyChildren_wrong_root asciiOnly invalidRequest (B "xml")
           (xml.mkName "" "invalid") [] false).
  - vm_compute. reflexivity.
  - discriminate.
Defined.


(** X11.  The value of an attribute and the text of an element come out
    byte for byte: for a value [v] and a text [s] of plain characters, the
    request whose [Body] holds [<text align="v">s</text>] gives the one
    node named [text] with the one attribute [align] of value [v] and with
    the content [s]. *)
Theorem getBodyChildren_text (U : xml.Tables) (v s : bytes) :
  forallb plainValue v = true ->
  forallb plain s = true ->
  getBodyChildren U (textRequest v s) =
    ([mkNode textTag [xml.mkAttr alignName (string_of_list_ascii v)]
        (string_of_list_ascii s) []], None).
Proof.
  intros Hv Hs.
  pose proof (reads_textRequest U v s Hv Hs) as Hr.
  assert (E7 : xml.tokens U (B "</Envelope>") =
               ([(xml.EndElement envelopeTag, B "</Envelope>")], xml.io_EOF))
    by (vm_compute; reflexivity).
  pose proof (reads_tokens U _ _ _ _ _ Hr E7) as Ht.
  rewrite (getBodyChildren_decoded U _
    (xml.Elem envelopeTag [] (B "<Envelope>")
       [xml.Elem bodyTag [] (B "<Body>")
          [xml.Elem textTag [xml.mkAttr alignName (string_of_list_ascii v)]
             (alignTag v)
             match s with
             | [] => []
             | _ => [xml.Data s s]
             end
             (B "</text>")]
          (B "</Body>")]
       (B "</Envelope>"))).
  - cbn. rewrite decide_True by done. cbn.
    destruct s as [|c ws]; cbn; [reflexivity | by rewrite app_nil_r].
  - unfold xml.decode. rewrite Ht. by destruct s.
Qed.

(** Witness of X11: the first element of the request "Simple text print
    request". *)
Lemma getBodyChildren_text_witness :
  getBodyChildren asciiOnly (textRequest (B "center") (B "Hello World")) =
    ([mkNode textTag [xml.mkAttr alignName "center"] "Hello World" []], None).
Proof.
  apply (getBodyChildren_text asciiOnly (B "center") (B "Hello World")).
  - reflexivity.
  - reflexivity.
Defined.


(** X12.  Every node that [getBodyChildren] answers is made from a slice
    of the input alone, the bytes of its element: that slice, put into a
    bare envelope, gives this node and no other.  Neither the siblings of
    the element nor anything of the envelope around it have a part in the
    node. *)
Theorem getBodyChildren_child (U : xml.Tables) (data : bytes)
    (nodes : list Node) (i : nat) (n : Node) :
  getBodyChildren U data = (nodes, None) ->
  nodes !! i = Some n ->
  exists pre element post,
    data = pre ++ element ++ post /\
    getBodyChildren U (blankEnvelope element) = ([n], None).
Proof.
  intros Hres Hn.
  destruct (extracted_child U _ _ _ _ Hres Hn) as (T1 & k & T3 & e & Et & Hel & Hfit & Hnk).
  pose proof (getBodyChildren_bare_elem U _ _ _ _ _ Hel Hfit Et) as Hbare.
  rewrite Hnk in Hbare.
  destruct (tokens_slice U _ _ _ _ _ Et) as (pre & post & Hdata & _).
  rewrite spans_flatten in Hdata. by exists pre, (xml.raw k), post.
Qed.

(** Witness of X12: the element [<cut type="feed"/>] of the request "Simple
    text print request". *)
Lemma getBodyChildren_child_witness :
  exists pre element post,
    simpleRequest = pre ++ element ++ post /\
    getBodyChildren asciiOnly (blankEnvelope element) = ([simpleCut], None).
Proof.
  apply (getBodyChildren_child asciiOnly simpleRequest simpleNodes 1 simpleCut).
  - vm_compute. reflexivity.
  - vm_compute. reflexivity.
Defined.

(** * Properties of the mock device *)

Module MockFacts.
Import Mock.

(** The buffer of a mock is never filled. *)
Lemma call_buffer m c : buffer m = [] -> buffer (fst (call m c)) = [].
Proof.
  intros H. destruct c as [p|size| |]; simpl; try done.
  unfold Read. by rewrite H.
Qed.

Lemma calls_written cs : forall m,
  forallb (fun c => negb (isReset c)) cs = true ->
  written (fst (calls m cs)) = written m ++ concat (writes cs).
Proof.
  induction cs as [|c cs IH]; intros m H; simpl.
  - by rewrite app_nil_r.
  - cbn [forallb] in H. apply andb_true_iff in H as [Hc H].
    destruct c as [p|size| |]; try discriminate; simpl.
    + specialize (IH (mkMockWriter (written m ++ p) (buffer m)) H).
      destruct (calls _ cs) as [m2 answers]. simpl in *.
      by rewrite IH, <- app_assoc.
    + specialize (IH (fst (Read m size)) H).
      assert (Hw : written (fst (Read m size)) = written m).
      { unfold Read. by destruct (buffer m). }
      destruct (Read m size) as [m' [p err]]. simpl in *.
      destruct (calls m' cs) as [m2 answers]. simpl in *. by rewrite IH, Hw.
    + specialize (IH m H). destruct (calls m cs) as [m2 answers]. by simpl in *.
Qed.

Lemma calls_snoc_reset m cs1 cs2 :
  fst (calls m (cs1 ++ CallReset :: cs2)) = fst (calls NewMockWriter cs2).
Proof.
  revert m. induction cs1 as [|c cs1 IH]; intros m; simpl.
  - unfold Reset, NewMockWriter. by destruct (calls _ cs2).
  - destruct (call m c) as [m1 a]. specialize (IH m1).
    destruct (calls m1 _) as [m2 answers]. simpl in *. rewrite IH.
    reflexivity.
Qed.

Lemma call_answer m c a :
  buffer m = [] -> answerOf c = Some a -> snd (call m c) = a.
Proof.
  intros H. destruct c as [p|size| |]; simpl; try discriminate.
  - by intros [= <-].
  - unfold Read. rewrite H. by intros [= <-].
Qed.

Lemma calls_answer cs : forall m i c a,
  buffer m = [] -> cs !! i = Some c -> answerOf c = Some a ->
  snd (calls m cs) !! i = Some a.
Proof.
  induction cs as [|c0 cs IH]; intros m i c a H Hi Ha; [discriminate|].
  simpl. pose proof (call_buffer m c0 H) as H1.
  pose proof (call_answer m c0) as H0.
  destruct (call m c0) as [m1 a0]. simpl in *.
  specialize (IH m1). destruct (calls m1 cs) as [m2 answers]. simpl in *.
  destruct i as [|i]; simpl in *.
  - injection Hi as ->. f_equal. by apply H0.
  - by eapply IH.
Qed.

End MockFacts.

(** X13.  What [GetWritten] answers is the concatenation, in order, of the
    slices written since the mock was made or last reset; calls of [Read]
    and of [GetWritten] in between change nothing of it, and what was
    written before the reset is gone. *)
Theorem MockWriter_written (m : Mock.MockWriter) (before after : list Mock.Call) :
  forallb (fun c => negb (Mock.isReset c)) after = true ->
  Mock.GetWritten (fst (Mock.calls m (before ++ Mock.CallReset :: after))) =
    concat (Mock.writes after) /\
  Mock.GetWritten (fst (Mock.calls Mock.NewMockWriter after)) =
    concat (Mock.writes after).
Proof.
  intros H. rewrite MockFacts.calls_snoc_reset. unfold Mock.GetWritten.
  by rewrite (MockFacts.calls_written _ _ H).
Qed.

(** Witness of X13: the init command and the end marker written after a
    reset, with a [Read] in between. *)
Lemma MockWriter_written_witness :
  Mock.GetWritten
    (fst (Mock.calls Mock.NewMockWriter
            ([Mock.CallWrite (B "old")] ++
             Mock.CallReset ::
             [Mock.CallWrite Job.initCmd; Mock.CallRead 4;
              Mock.CallWrite Job.endMarker]))) =
    concat (Mock.writes [Mock.CallWrite Job.initCmd; Mock.CallRead 4;
                         Mock.CallWrite Job.endMarker]) /\
  Mock.GetWritten
    (fst (Mock.calls Mock.NewMockWriter
            [Mock.CallWrite Job.initCmd; Mock.CallRead 4;
             Mock.CallWrite Job.endMarker])) =
    concat (Mock.writes [Mock.CallWrite Job.initCmd; Mock.CallRead 4;
                         Mock.CallWrite Job.endMarker]).
Proof.
  apply (MockWriter_written Mock.NewMockWriter [Mock.CallWrite (B "old")]
           [Mock.CallWrite Job.initCmd; Mock.CallRead 4;
            Mock.CallWrite Job.endMarker]).
  reflexivity.
Defined.

(** X14.  On a mock made by [NewMockWriter], whatever calls came before:
    [Write] answers the length of its slice and no error, and [Read] never
    yields a byte, it answers [io.EOF] (no error when the slice to fill is
    empty).  What is written to the mock cannot be read back from it. *)
Theorem MockWriter_answers (cs : list Mock.Call) (i : nat) :
  (forall p, cs !! i = Some (Mock.CallWrite p) ->
     snd (Mock.calls Mock.NewMockWriter cs) !! i =
       Some (Mock.Wrote (length p) None)) /\
  (forall size, cs !! i = Some (Mock.CallRead size) ->
     snd (Mock.calls Mock.NewMockWriter cs) !! i =
       Some (Mock.Got [] (if Nat.eqb size 0 then None else Some Mock.EOF))).
Proof.
  split; intros x Hi; by eapply MockFacts.calls_answer.
Qed.

(** The node of [TestNodeMethods]. *)
Example test_node_methods :
  Name alignEm = "text" /\
  Attributes alignEm = {[ "align" := "center"; "em" := "true" ]}.
Proof.
  split; [reflexivity|]. unfold Attributes, alignEm.
  cbn [Attrs fold_left xml.attr_Name xml.attr_Value xml.Local].
  rewrite insert_empty. by apply insert_insert_ne.
Qed.
